(** * fsftosh: from a POSSUM setup file to a shell script

    A shallow embedding of [fsftosh.py] and the properties of its three
    functions: [parse_fsf], [compute_brain_ref], [generate_shell_commands].

    Conventions of the embedding
    - a Python [str] is a [string]; every character is a code point below
      256, and the string methods used by the script ([lower], [strip],
      [isspace]) are given on that range;
    - a Python [dict] from [str] to [str] is a [gmap string string];
    - a Python [float] is a binary64 number, a [spec_float] with precision 53
      and maximal exponent 1024; a Python [int] is a [Z];
    - an exception is a value of [exn]; a computation that may raise
      has type [result A]. *)

From Stdlib Require Import ZArith Ascii String List Bool Lia.
From Stdlib Require Import SpecFloat.
From stdpp Require Import base option list gmap strings.

Local Open Scope Z_scope.

(** ** Strings of the script *)

Module Str.

Definition nat_of (c : ascii) : nat := nat_of_ascii c.

(** [str.isspace] on one character (code points below 256). *)
Definition isspace (c : ascii) : bool :=
  let n := nat_of c in
  ((9 <=? n) && (n <=? 13) || (28 <=? n) && (n <=? 32)
   || (n =? 133) || (n =? 160))%nat.

(** [str.lower] on one character: A-Z, and the upper-case letters of the
    Latin-1 block (192-222 but the multiplication sign 215). *)
Definition lower_char (c : ascii) : ascii :=
  let n := nat_of c in
  if ((65 <=? n) && (n <=? 90)
      || (192 <=? n) && (n <=? 222) && negb (n =? 215))%nat
  then ascii_of_nat (n + 32) else c.

Fixpoint lower (s : string) : string :=
  match s with
  | "" => ""
  | String c s' => String (lower_char c) (lower s')
  end.

Fixpoint lstrip (s : string) : string :=
  match s with
  | "" => ""
  | String c s' => if isspace c then lstrip s' else s
  end.

Fixpoint rstrip (s : string) : string :=
  match s with
  | "" => ""
  | String c s' =>
      match rstrip s' with
      | "" => if isspace c then "" else String c ""
      | r => String c r
      end
  end.

(** [str.strip()] with no argument. *)
Definition strip (s : string) : string := rstrip (lstrip s).

(** Truth value of a string in a condition: [if s:]. *)
Definition truthy (s : string) : bool :=
  match s with "" => false | _ => true end.

Definition eqb (a b : string) : bool := bool_decide (a = b).

Fixpoint all (p : ascii → bool) (s : string) : bool :=
  match s with
  | "" => true
  | String c s' => p c && all p s'
  end.

Fixpoint rev_onto (acc s : string) : string :=
  match acc with
  | "" => s
  | String c acc' => rev_onto acc' (String c s)
  end.

(** [prefix p s]: [s] starts with [p]; the rest of [s] is returned. *)
Fixpoint drop_prefix (p s : string) : option string :=
  match p, s with
  | "", _ => Some s
  | String a p', String b s' =>
      if Ascii.eqb a b then drop_prefix p' s' else None
  | String _ _, "" => None
  end.

(** [needle in s]. *)
Fixpoint contains (needle s : string) : bool :=
  match drop_prefix needle s with
  | Some _ => true
  | None =>
      match s with
      | "" => false
      | String _ s' => contains needle s'
      end
  end.

Definition rev (s : string) : string := rev_onto s "".

(** The longest prefix of [s] made of characters of [cls], and the rest. *)
Fixpoint take_while (cls : ascii → bool) (s : string) : string :=
  match s with
  | "" => ""
  | String c s' => if cls c then String c (take_while cls s') else ""
  end.

Fixpoint drop_while (cls : ascii → bool) (s : string) : string :=
  match s with
  | "" => ""
  | String c s' => if cls c then drop_while cls s' else s
  end.

(** [agree a b]: one of [a] and [b] is a prefix of the other. *)
Fixpoint agree (a b : string) : bool :=
  match a, b with
  | String x a', String y b' => Ascii.eqb x y && agree a' b'
  | _, _ => true
  end.

(** [scan rn seen s]: reading [s] after the text whose reverse is [seen],
    some position of [s] ends an occurrence of the text whose reverse
    is [rn]. *)
Fixpoint scan (rn seen s : string) : bool :=
  match s with
  | "" => false
  | String c s' =>
      match drop_prefix rn (String c seen) with
      | Some _ => true
      | None => scan rn (String c seen) s'
      end
  end.

(** No position of the text [p] ends an occurrence, whatever comes
    before [p]. *)
Definition never (rn p : string) : Prop := ∀ seen, scan rn seen p = false.

(** A sufficient check for [never] on a given text [p]: at no position
    of [p] does what [p] has up to there (reversed, on top of [u]) agree
    with [rn]. *)
Fixpoint safe (rn u p : string) : bool :=
  match p with
  | "" => true
  | String c p' => negb (agree rn (String c u)) && safe rn (String c u) p'
  end.

(** [starts p s]: [s.startswith(p)]; [ends p s]: [s.endswith(p)]. *)
Definition starts (p s : string) : Prop := ∃ r, s = p +:+ r.
Definition ends (p s : string) : Prop := ∃ r, s = r +:+ p.

End Str.

(** ** Exceptions *)

Inductive exn := ValueError | ZeroDivisionError | OverflowError.

Inductive result (A : Type) :=
| Ok (a : A)
| Raise (e : exn).
Arguments Ok {A} a.
Arguments Raise {A} e.

Global Instance result_ret : MRet result := fun A a => Ok a.
Global Instance result_bind : MBind result := fun A B k r =>
  match r with
  | Ok a => k a
  | Raise e => Raise e
  end.

(** ** Numbers: [int] and [float] *)

Module Num.

Definition prec : Z := 53.
Definition emax : Z := 1024.

Definition mul : spec_float → spec_float → spec_float := SFmul prec emax.

(** [x / y] on floats raises on a zero divisor. *)
Definition div (x y : spec_float) : result spec_float :=
  match y with
  | S754_zero _ => Raise ZeroDivisionError
  | _ => Ok (SFdiv prec emax x y)
  end.

(** The float nearest to [(-1)^neg * n * 10^e], ties to even. *)
Definition of_decimal (neg : bool) (n : Z) (e : Z) : spec_float :=
  match n with
  | Zpos p =>
      if 0 <=? e then binary_round prec emax neg (Z.to_pos (Zpos p * 10 ^ e)) 0
      else SFdiv prec emax (S754_finite neg p 0)
                           (S754_finite false (Z.to_pos (10 ^ (- e))) 0)
  | _ => S754_zero neg
  end.

(** [round(x)] with one argument: the nearest integer, ties to even. *)
Definition round (x : spec_float) : result Z :=
  match x with
  | S754_nan => Raise ValueError
  | S754_infinity _ => Raise OverflowError
  | S754_zero _ => Ok 0
  | S754_finite s m e =>
      let n :=
        if 0 <=? e then Zpos m * 2 ^ e
        else
          let d := 2 ^ (- e) in
          let q := Zpos m / d in
          let r := Zpos m mod d in
          match 2 * r ?= d with
          | Lt => q
          | Gt => q + 1
          | Eq => if Z.even q then q else q + 1
          end in
      Ok (if s then - n else n)
  end.

(** [int(x)] of a float: truncation towards zero. *)
Definition trunc (x : spec_float) : result Z :=
  match x with
  | S754_nan => Raise ValueError
  | S754_infinity _ => Raise OverflowError
  | S754_zero _ => Ok 0
  | S754_finite s m e =>
      let n := if 0 <=? e then Zpos m * 2 ^ e else Zpos m / 2 ^ (- e) in
      Ok (if s then - n else n)
  end.

(** A float of the format, when finite: a mantissa of at most [prec]
    bits and an exponent of at most [emax - prec]. *)
Definition in_range (x : spec_float) : bool :=
  match x with
  | S754_finite _ m e => (Zpos m <? 2 ^ prec) && (e <=? emax - prec)
  | _ => true
  end.

End Num.

(** ** Conversions between strings and numbers *)

Module Conv.

Definition digit_val (c : ascii) : option Z :=
  let n := Str.nat_of c in
  if ((48 <=? n) && (n <=? 57))%nat then Some (Z.of_nat n - 48) else None.

Definition is_digit (c : ascii) : bool :=
  match digit_val c with Some _ => true | None => false end.

(** White space that [float()] and [int()] skip at both ends of their
    argument. *)
Definition is_numspace (c : ascii) : bool :=
  let n := Str.nat_of c in
  ((9 <=? n) && (n <=? 13) || (n =? 32) || (n =? 133) || (n =? 160))%nat.

Fixpoint lskip (s : string) : string :=
  match s with
  | "" => ""
  | String c s' => if is_numspace c then lskip s' else s
  end.

Fixpoint rskip (s : string) : string :=
  match s with
  | "" => ""
  | String c s' =>
      match rskip s' with
      | "" => if is_numspace c then "" else String c ""
      | r => String c r
      end
  end.

(** An underscore is accepted between two digits, and dropped. *)
Fixpoint drop_underscores (prev : ascii) (s : string) : option string :=
  match s with
  | "" => if Ascii.eqb prev "_" then None else Some ""
  | String c s' =>
      if Ascii.eqb c "_" then
        if is_digit prev then drop_underscores c s' else None
      else if Ascii.eqb prev "_" && negb (is_digit c) then None
      else String c <$> drop_underscores c s'
  end.

(** A run of digits: its value on top of [acc], its length, the rest. *)
Fixpoint digits (acc : Z) (cnt : Z) (s : string) : Z * Z * string :=
  match s with
  | "" => (acc, cnt, s)
  | String c s' =>
      match digit_val c with
      | Some d => digits (10 * acc + d) (cnt + 1) s'
      | None => (acc, cnt, s)
      end
  end.

Definition sign (s : string) : bool * string :=
  match s with
  | String "-" s' => (true, s')
  | String "+" s' => (false, s')
  | _ => (false, s)
  end.

(** The exponent part of a decimal literal; the text ends with it. *)
Definition exponent (s : string) : option Z :=
  match s with
  | "" => Some 0
  | String c s' =>
      if Ascii.eqb (Str.lower_char c) "e" then
        let '(neg, s'') := sign s' in
        match digits 0 0 s'' with
        | (x, cnt, "") => if 0 <? cnt then Some (if neg then - x else x) else None
        | _ => None
        end
      else None
  end.

Definition decimal (neg : bool) (s : string) : option spec_float :=
  let '(ip, ni, r1) := digits 0 0 s in
  let '(n, nf, r2) :=
    match r1 with
    | String "." r => digits ip 0 r
    | _ => (ip, 0, r1)
    end in
  if 0 <? ni + nf then
    x ← exponent r2; Some (Num.of_decimal neg n (x - nf))
  else None.

(** [float(s)] for a string [s]. *)
Definition float_of_str (s : string) : result spec_float :=
  match drop_underscores "000" (rskip (lskip s)) with
  | None => Raise ValueError
  | Some t =>
      let '(neg, u) := sign t in
      let w := Str.lower u in
      if Str.eqb w "inf" || Str.eqb w "infinity" then Ok (S754_infinity neg)
      else if Str.eqb w "nan" then Ok S754_nan
      else
        match decimal neg u with
        | Some x => Ok x
        | None => Raise ValueError
        end
  end.

(** The number of digits beyond which [int(s)] and [str(n)] raise
    [ValueError]: the default of [sys.int_max_str_digits], in CPython
    3.11 and later. *)
Definition max_str_digits : Z := 4300.

(** [int(s)] for a string [s], in base ten: every digit counts for the
    limit, a leading zero too; the sign, the underscores and the white
    space do not. *)
Definition int_of_str (s : string) : result Z :=
  match drop_underscores "000" (rskip (lskip s)) with
  | None => Raise ValueError
  | Some t =>
      let '(neg, u) := sign t in
      match digits 0 0 u with
      | (x, cnt, "") =>
          if 0 <? cnt then
            if max_str_digits <? cnt then Raise ValueError
            else Ok (if neg then - x else x)
          else Raise ValueError
      | _ => Raise ValueError
      end
  end.

(** The decimal digits of a positive number, most significant first. *)
Fixpoint digits_of_fuel (fuel : nat) (n : Z) (acc : string) : string :=
  match fuel with
  | O => acc
  | S fuel' =>
      let acc' := String (ascii_of_nat (48 + Z.to_nat (n mod 10))) acc in
      if n <? 10 then acc' else digits_of_fuel fuel' (n / 10) acc'
  end.

Definition digits_of (n : Z) : string :=
  digits_of_fuel (S (Z.to_nat (Z.log2 n))) n "".

(** The decimal text of an int. *)
Definition text_of_int (n : Z) : string :=
  if n <? 0 then "-" +:+ digits_of (- n) else digits_of n.

(** [str(n)] for an [int]: its decimal text, unless it has more digits
    than the limit. *)
Definition str_of_int (n : Z) : result string :=
  if max_str_digits <? Z.of_nat (String.length (digits_of (Z.abs n)))
  then Raise ValueError
  else Ok (text_of_int n).

End Conv.

(** ** [repr] of a float

    [repr(x)] is the shortest decimal text that [float] reads back as [x]
    and, among the texts of that length, the nearest to [x]; it is written
    with an exponent when the decimal point would fall more than 16 digits
    to the right of the first digit or more than 3 zeros to its left. *)

Module Repr.

Definition ndigits (n : Z) : Z := Z.of_nat (String.length (Conv.digits_of n)).

(** The value [m * 2^e] as a fraction. *)
Definition fraction (m : positive) (e : Z) : Z * Z :=
  (Zpos m * 2 ^ Z.max e 0, 2 ^ Z.max (- e) 0).

(** The position [k] of the decimal point: [10^(k-1) <= num/den < 10^k]. *)
Definition decpt (num den : Z) : Z :=
  if den <=? num then ndigits (num / den)
  else 1 - ndigits ((den - 1) / num).

(** The [n]-digit numbers next to [num/den / 10^(k-n)], nearest first. *)
Definition candidates (num den k n : Z) : list Z :=
  let e := k - n in
  let a := if 0 <=? e then num else num * 10 ^ (- e) in
  let b := if 0 <=? e then den * 10 ^ e else den in
  let lo := a / b in
  let r := a mod b in
  if r =? 0 then [lo]
  else
    match 2 * r ?= b with
    | Lt => [lo; lo + 1]
    | Gt => [lo + 1; lo]
    | Eq => if Z.even lo then [lo; lo + 1] else [lo + 1; lo]
    end.

Definition same (x y : spec_float) : bool :=
  match x, y with
  | S754_finite s m e, S754_finite s' m' e' =>
      Bool.eqb s s' && Pos.eqb m m' && Z.eqb e e'
  | _, _ => false
  end.

Definition reads_back (x : spec_float) (e : Z) (c : Z) : bool :=
  same (Num.of_decimal false c e) x.

Fixpoint shortest_from (fuel : nat) (x : spec_float) (num den k n : Z)
  : Z * Z :=
  let cs := candidates num den k n in
  match fuel with
  | O => (hd 0 cs, k - n)
  | S fuel' =>
      match List.find (reads_back x (k - n)) cs with
      | Some c => (c, k - n)
      | None => shortest_from fuel' x num den k (n + 1)
      end
  end.

Fixpoint strip_zeros (fuel : nat) (c e : Z) : Z * Z :=
  match fuel with
  | O => (c, e)
  | S fuel' =>
      if (c mod 10 =? 0) && (0 <? c) then strip_zeros fuel' (c / 10) (e + 1)
      else (c, e)
  end.

(** The digits of the shortest text for [m * 2^e] and the position of
    the decimal point after the first of them. *)
Definition shortest (m : positive) (e : Z) : string * Z :=
  let x := binary_round Num.prec Num.emax false m e in
  let '(num, den) := fraction m e in
  let k := decpt num den in
  let '(c, e10) := shortest_from 16 x num den k 1 in
  let '(c', e10') := strip_zeros 17 c e10 in
  let ds := Conv.digits_of c' in
  (ds, Z.of_nat (String.length ds) + e10').

Fixpoint zeros (n : nat) : string :=
  match n with
  | O => ""
  | S n' => String "0" (zeros n')
  end.

Fixpoint take (n : nat) (s : string) : string :=
  match n, s with
  | S n', String c s' => String c (take n' s')
  | _, _ => ""
  end.

Fixpoint drop (n : nat) (s : string) : string :=
  match n, s with
  | S n', String _ s' => drop n' s'
  | _, _ => s
  end.

Definition fixed (ds : string) (k : Z) : string :=
  let n := Z.of_nat (String.length ds) in
  if k <=? 0 then "0." +:+ zeros (Z.to_nat (- k)) +:+ ds
  else if n <=? k then ds +:+ zeros (Z.to_nat (k - n)) +:+ ".0"
  else take (Z.to_nat k) ds +:+ "." +:+ drop (Z.to_nat k) ds.

Definition scientific (ds : string) (k : Z) : string :=
  let x := k - 1 in
  let mant :=
    match ds with
    | String d "" => String d ""
    | String d rest => String d ("." +:+ rest)
    | "" => ""
    end in
  let xs := Conv.digits_of (Z.abs x) in
  mant +:+ "e" +:+ (if x <? 0 then "-" else "+")
       +:+ (if Z.abs x <? 10 then "0" +:+ xs else xs).

(** [repr(x)], which is also [str(x)] and what an f-string writes. *)
Definition repr (x : spec_float) : string :=
  match x with
  | S754_nan => "nan"
  | S754_infinity s => if s then "-inf" else "inf"
  | S754_zero s => if s then "-0.0" else "0.0"
  | S754_finite s m e =>
      let '(ds, k) := shortest m e in
      (if s then "-" else "")
        +:+ (if (-4 <? k) && (k <=? 16) then fixed ds k else scientific ds k)
  end.

End Repr.

(** ** The regular expressions of [re] that the script needs

    A pattern is a sequence of items: a literal text, or a greedy
    repetition [cls{min,}] of a character class, captured as a group or
    not.  Matching backtracks as [re] does: a repetition first takes as
    many characters as it can and gives them back one at a time while the
    rest of the pattern fails. *)

Module Re.

Inductive item :=
| Lit (text : string)
| Many (cls : ascii → bool) (min : nat) (group : bool).

Definition pattern := list item.

Section Greedy.
Context {R : Type}.
Variable cls : ascii → bool.
(** The continuation gets the characters taken (last one first) and
    the text that is left. *)
Variable k : string → string → option R.

Fixpoint greedy (taken s : string) : option R :=
  match s with
  | String c s' =>
      if cls c then
        match greedy (String c taken) s' with
        | Some r => Some r
        | None => k taken s
        end
      else k taken s
  | "" => k taken s
  end.
End Greedy.

(** [match_at p s]: the pattern matches a prefix of [s]; the groups are
    returned in order ([pattern.match]). *)
Fixpoint match_at (p : pattern) (s : string) : option (list string) :=
  match p with
  | [] => Some []
  | Lit text :: p' =>
      match Str.drop_prefix text s with
      | Some rest => match_at p' rest
      | None => None
      end
  | Many cls min group :: p' =>
      greedy cls
        (fun taken rest =>
           if (min <=? String.length taken)%nat then
             match match_at p' rest with
             | Some gs =>
                 Some (if group then Str.rev_onto taken "" :: gs else gs)
             | None => None
             end
           else None)
        "" s
  end.

(** [pattern.search(s)]: the match at the leftmost position that has one. *)
Fixpoint search (p : pattern) (s : string) : option (list string) :=
  match match_at p s with
  | Some gs => Some gs
  | None =>
      match s with
      | "" => None
      | String _ s' => search p s'
      end
  end.

End Re.

(** ** [parse_fsf] *)

Definition is_not (x : ascii) (c : ascii) : bool := negb (Ascii.eqb c x).

(** The compiled pattern of [parse_fsf]: the text [set entries($w,], a
    group of characters other than a closing parenthesis, the closing
    parenthesis, one or more white-space characters ([\s+]), a double
    quote, a group of characters other than a double quote, a double
    quote. *)
Definition fsf_pattern : Re.pattern :=
  [ Re.Lit "set entries($w,";
    Re.Many (is_not ")"%char) 0 true;
    Re.Lit ")";
    Re.Many Str.isspace 1 false;
    Re.Lit (String (ascii_of_nat 34) "");
    Re.Many (is_not (ascii_of_nat 34)) 0 true;
    Re.Lit (String (ascii_of_nat 34) "") ].

(** The body of the loop over the lines of the file. *)
Definition parse_line (params : gmap string string) (line : string)
  : gmap string string :=
  match Re.search fsf_pattern line with
  | Some [g1; g2] =>
      let key := Str.strip g1 in
      let value := Str.strip g2 in
      <[key := value]> params
  | _ => params
  end.

(** [parse_fsf]: [f] is the list of the lines of the file, as the
    iteration over the open file yields them; the dictionary starts empty
    and each line is searched for the pattern in turn. *)
Definition parse_fsf (f : list string) : gmap string string :=
  fold_left parse_line f ∅.

Definition dq : string := String (ascii_of_nat 34) "".

(** The key and the value a line binds, if it binds one. *)
Definition line_binding (line : string) : option (string * string) :=
  match Re.search fsf_pattern line with
  | Some [g1; g2] => Some (Str.strip g1, Str.strip g2)
  | _ => None
  end.

(** The binding of [key] after one more line. *)
Definition rebind (key : string) (acc : option string) (line : string)
  : option string :=
  match line_binding line with
  | Some (k, v) => if decide (k = key) then Some v else acc
  | None => acc
  end.

(** The line [pre set entries($w,KEY)<spaces>"VALUE" post]. *)
Definition assignment (pre key spaces value post : string) : string :=
  pre +:+ "set entries($w," +:+ key +:+ ")" +:+ spaces
      +:+ dq +:+ value +:+ dq +:+ post.

(** [key], [spaces] and [value] are what the pattern takes for its
    groups and for its white space. *)
Definition well_formed (key spaces value : string) : Prop :=
  Str.all (is_not ")"%char) key = true
  ∧ spaces ≠ "" ∧ Str.all Str.isspace spaces = true
  ∧ Str.all (is_not (ascii_of_nat 34)) value = true.

(** The pattern matches at the very beginning of [s], with the groups
    [key] and [value]. *)
Definition matches_here (s key value : string) : Prop :=
  ∃ spaces post,
    s = assignment "" key spaces value post ∧ well_formed key spaces value.

(** What the matcher computes at a position, the repetitions taking all
    they can. *)
Definition match_fsf (s : string) : option (string * string) :=
  r1 ← Str.drop_prefix "set entries($w," s;
  r2 ← Str.drop_prefix ")" (Str.drop_while (is_not ")"%char) r1);
  if (1 <=? String.length (Str.take_while Str.isspace r2))%nat then
    r3 ← Str.drop_prefix dq (Str.drop_while Str.isspace r2);
    _ ← Str.drop_prefix dq (Str.drop_while (is_not (ascii_of_nat 34)) r3);
    Some (Str.take_while (is_not ")"%char) r1,
          Str.take_while (is_not (ascii_of_nat 34)) r3)
  else None.

(** ** [compute_brain_ref] *)

(** [params.get(key, default)] *)
Definition get (params : gmap string string) (key default : string) : string :=
  match params !! key with
  | Some v => v
  | None => default
  end.

(** A dimension of the result is a float (an input dimension passed
    through) or an int (the result of [round]). *)
Inductive num :=
| Int (n : Z)
| Float (x : spec_float).

(** The text of a number: the decimal text of an int, the [repr] of a
    float. *)
Definition fmt (v : num) : string :=
  match v with
  | Int n => Conv.text_of_int n
  | Float x => Repr.repr x
  end.

(** What an f-string writes for a number: [str] of an int, which raises
    beyond the limit on its digits, [repr] of a float. *)
Definition format_num (v : num) : result string :=
  match v with
  | Int n => Conv.str_of_int n
  | Float x => Ok (Repr.repr x)
  end.

Definition brain_ref : Type :=
  num * num * num * string * spec_float * spec_float * spec_float * string.

Definition compute_brain_ref (params : gmap string string) : result brain_ref :=
  inNx ← Conv.float_of_str (get params "inNx" "0");
  inNy ← Conv.float_of_str (get params "inNy" "0");
  inNz ← Conv.float_of_str (get params "inNz" "0");
  let inNt := get params "inNt" "1" in
  vcX ← Conv.float_of_str (get params "vcX" "1");
  vcY ← Conv.float_of_str (get params "vcY" "1");
  vcZ ← Conv.float_of_str (get params "vcZ" "1");

  ix ← Num.trunc inNx;
  sx ← Conv.str_of_int ix;
  outsize_nx ← Conv.int_of_str (get params "outsize_nx" sx);
  iy ← Num.trunc inNy;
  sy ← Conv.str_of_int iy;
  outsize_ny ← Conv.int_of_str (get params "outsize_ny" sy);
  iz ← Num.trunc inNz;
  sz ← Conv.str_of_int iz;
  outsize_nz ← Conv.int_of_str (get params "outsize_nz" sz);
  outsize_dx ← Conv.float_of_str (get params "outsize_dx" "1");
  outsize_dy ← Conv.float_of_str (get params "outsize_dy" "1");
  outsize_dz ← Conv.float_of_str (get params "outsize_dz" "1");
  slcsampfactor ← Conv.float_of_str (get params "slcsampfactor" "1");
  let slcselect := get params "slcselect" "z" in

  let '(newdim1, newdim2, newdim3) := (Float inNx, Float inNy, Float inNz) in
  let '(newpixdim1, newpixdim2, newpixdim3) := (vcX, vcY, vcZ) in

  '(newdim1, newdim2, newdim3, newpixdim1, newpixdim2, newpixdim3) ←
    (if Str.eqb (Str.lower slcselect) "x" then
       newpixdim1 ← Num.div outsize_dx slcsampfactor;
       q ← Num.div (Num.mul inNx vcX) newpixdim1;
       newdim1 ← Num.round q;
       Ok (Int newdim1, newdim2, newdim3, newpixdim1, newpixdim2, newpixdim3)
     else if Str.eqb (Str.lower slcselect) "y" then
       newpixdim2 ← Num.div outsize_dy slcsampfactor;
       q ← Num.div (Num.mul inNy vcY) newpixdim2;
       newdim2 ← Num.round q;
       Ok (newdim1, Int newdim2, newdim3, newpixdim1, newpixdim2, newpixdim3)
     else
       newpixdim3 ← Num.div outsize_dz slcsampfactor;
       q ← Num.div (Num.mul inNz vcZ) newpixdim3;
       newdim3 ← Num.round q;
       Ok (newdim1, newdim2, Int newdim3, newpixdim1, newpixdim2, newpixdim3));

  let pixdim4 := get params "inNt" "1" in
  Ok (newdim1, newdim2, newdim3, inNt,
      newpixdim1, newpixdim2, newpixdim3, pixdim4).

Definition scenario : gmap string string :=
  list_to_map
    [ ("inNx", "64"); ("inNy", "64"); ("inNz", "30");
      ("vcX", "3.0"); ("vcY", "3.0"); ("vcZ", "3.0");
      ("outsize_nx", "64"); ("outsize_ny", "64"); ("outsize_nz", "30");
      ("outsize_dx", "3.0"); ("outsize_dy", "3.0"); ("outsize_dz", "4.0");
      ("slcsampfactor", "1"); ("slcselect", "z") ].

(** The floats 64, 30, 3 and 4 of the scenario, and what it computes. *)
Definition f64 : spec_float := S754_finite false 4503599627370496 (-46).
Definition f30 : spec_float := S754_finite false 8444249301319680 (-48).
Definition f3 : spec_float := S754_finite false 6755399441055744 (-51).
Definition f4 : spec_float := S754_finite false 4503599627370496 (-50).

Definition scenario_geometry : brain_ref :=
  (Float f64, Float f64, Int 22, "1", f3, f3, f4, "1").

(** Slices selected along x, with an output voxel size of 2 on that axis. *)
Definition params_x : gmap string string :=
  list_to_map [("slcselect", "x"); ("outsize_dx", "2")].

(** A gradient-echo sequence whose echo time carries more than a number. *)
Definition params_ge : gmap string string :=
  list_to_map [("seqtype", "ge"); ("te", "0.03 --trslc=0.12")].

(** ** [generate_shell_commands] *)

(** The companion files of a custom pulse sequence. *)
Definition pulse_exts : list string :=
  [""; ".info"; ".readme"; ".posx"; ".posy"; ".posz"; ".com"].

Definition generate_shell_commands (params : gmap string string)
  : result (list string) :=
  (* Directories *)
  let FSLDIR := get params "FSLDIR" "/usr/local/fsl" in
  let POSSUMDIR := get params "POSSUMDIR" FSLDIR in
  let out := get params "out" "./simdir" in
  (* Files *)
  let obvol := get params "obvol" "" in
  let mrpar := get params "mrpar" "" in
  let slcprof := get params "slcprof" "" in
  let mot := get params "mot" "" in
  let act1 := get params "act1" "" in
  let act2 := get params "act2" "" in
  let b0f := get params "b0f" "" in
  (* Pulse parameters *)
  let seqtype := get params "seqtype" "epi" in
  let te := get params "te" "0.03" in
  let tr := get params "tr" "3" in
  let trslc := get params "trslc" "0.12" in
  let numvol := get params "numvol" "1" in
  let bw := get params "bw" "100000" in
  let readgrad := get params "readgrad" "x" in
  let phencode := get params "phencode" "y" in
  let slcselect := get params "slcselect" "z" in
  let plus := get params "plus" "+" in
  let maxG := get params "maxG" "0.055" in
  let riseT := get params "riseT" "0.00022" in
  let cuspulse := get params "cuspulse" "" in
  (* Noise parameters *)
  let noise_yn := get params "noise_yn" "0" in
  let noiseunits := get params "noiseunits" "sigma" in
  let noisesnr := get params "noisesnr" "10" in
  let noisesigma := get params "noisesigma" "0" in
  (* Other processing parameters *)
  let numproc := get params "numproc" "1" in
  let segs := get params "segs" "10000" in

  (* Compute new brain reference dimensions *)
  '(newdim1, newdim2, newdim3, inNt,
    newpixdim1, newpixdim2, newpixdim3, pixdim4) ← compute_brain_ref params;

  let cmds : list string := [] in
  (* Create output directory *)
  let cmds := cmds ++ ["mkdir -p " +:+ out] in

  (* Process input object: create brain reference and register input *)
  dim1 ← format_num newdim1;
  dim2 ← format_num newdim2;
  dim3 ← format_num newdim3;
  let cmds := cmds ++
    [FSLDIR +:+ "/bin/fslcreatehd " +:+ dim1 +:+ " " +:+ dim2
       +:+ " " +:+ dim3 +:+ " " +:+ inNt
       +:+ " " +:+ Repr.repr newpixdim1 +:+ " " +:+ Repr.repr newpixdim2
       +:+ " " +:+ Repr.repr newpixdim3 +:+ " " +:+ pixdim4
       +:+ " 0 0 0 16 " +:+ out +:+ "/brainref"] in
  let cmds := cmds ++
    [FSLDIR +:+ "/bin/flirt -in " +:+ obvol +:+ " -ref " +:+ out
       +:+ "/brainref -applyxfm -out " +:+ out +:+ "/brain"] in

  (* Copy MRpar, slice profile and motion file *)
  let cmds :=
    if Str.truthy mrpar
    then cmds ++ ["cp " +:+ mrpar +:+ " " +:+ out +:+ "/MRpar"] else cmds in
  let cmds :=
    if Str.truthy slcprof
    then cmds ++ ["cp " +:+ slcprof +:+ " " +:+ out +:+ "/slcprof"] else cmds in
  let cmds :=
    if Str.truthy mot
    then cmds ++ ["cp " +:+ mot +:+ " " +:+ out +:+ "/motion"] else cmds in

  (* Process Activation *)
  let cmds :=
    if Str.truthy act1
    then cmds ++
      [FSLDIR +:+ "/bin/flirt -in " +:+ act1 +:+ " -ref " +:+ out
         +:+ "/brainref -applyxfm -out " +:+ out +:+ "/T2"]
    else cmds in
  let cmds :=
    if Str.truthy act2
    then cmds ++ ["cp " +:+ act2 +:+ " " +:+ out +:+ "/T2timecourse"]
    else cmds in

  (* Process B0 inhomogeneity file (if provided) *)
  let cmds :=
    if Str.truthy b0f then
      let cmds := cmds ++
        [FSLDIR +:+ "/bin/flirt -in " +:+ b0f +:+ " -ref " +:+ out
           +:+ "/brainref -applyxfm -out " +:+ out +:+ "/b0newref"] in
      let cmds := cmds ++
        [FSLDIR +:+ "/bin/fslroi " +:+ out +:+ "/b0newref " +:+ out
           +:+ "/b0z_dz.nii.gz 0 1"] in
      if Str.eqb (Str.lower (get params "b0units" "ppm")) "ppm"
      then cmds ++
        [FSLDIR +:+ "/bin/fslmaths " +:+ out +:+ "/b0z_dz.nii.gz -mul "
           +:+ get params "b0fieldstrength" "1.5" +:+ " -div 1000000 "
           +:+ out +:+ "/b0z_dz.nii.gz"]
      else cmds
    else cmds in

  (* Pulse sequence processing *)
  let cmds :=
    if Str.eqb (Str.lower seqtype) "epi" || Str.eqb (Str.lower seqtype) "ge"
    then
      let pulse_cmd :=
        POSSUMDIR +:+ "/bin/pulse -i " +:+ out +:+ "/brain -o " +:+ out
          +:+ "/pulse " +:+ "--seq=" +:+ seqtype +:+ " --te=" +:+ te
          +:+ " --tr=" +:+ tr +:+ " " in
      let pulse_cmd :=
        if Str.eqb (Str.lower seqtype) "epi"
        then pulse_cmd +:+ ("--trslc=" +:+ trslc +:+ " ") else pulse_cmd in
      let pulse_cmd := pulse_cmd +:+
        ("--nx=" +:+ get params "outsize_nx" "64"
           +:+ " --ny=" +:+ get params "outsize_ny" "64" +:+ " "
           +:+ "--numslc=" +:+ get params "outsize_nz" "1"
           +:+ " --dx=" +:+ get params "outsize_dx" "4.0" +:+ " "
           +:+ "--dy=" +:+ get params "outsize_dy" "4.0"
           +:+ " --slcthk=" +:+ Repr.repr newpixdim3 +:+ " "
           +:+ "--numvol=" +:+ numvol +:+ " --zstart=0 --bw=" +:+ bw +:+ " "
           +:+ "--readdir=" +:+ readgrad +:+ plus
           +:+ " --phasedir=" +:+ phencode +:+ plus
           +:+ " --slcdir=" +:+ slcselect +:+ plus +:+ " "
           +:+ "--maxG=" +:+ maxG +:+ " --riset=" +:+ riseT +:+ " -v") in
      cmds ++ [pulse_cmd +:+ (" >> " +:+ out +:+ "/possum.log 2>&1")]
    else
      (* Custom pulse sequence: copy pulse and all its companion files *)
      if Str.truthy cuspulse then
        fold_left
          (fun cmds ext =>
             cmds ++ ["cp " +:+ cuspulse +:+ ext +:+ " " +:+ out
                        +:+ "/pulse" +:+ ext])
          pulse_exts cmds
      else cmds in

  (* Process the noise file *)
  let cmds :=
    if Str.eqb noise_yn "1" then
      let noise_line :=
        if Str.eqb (Str.lower noiseunits) "snr"
        then "snr " +:+ noisesnr
        else "sigma " +:+ noisesigma in
      cmds ++ ["echo " +:+ dq +:+ noise_line +:+ dq +:+ " > " +:+ out +:+ "/noise"]
    else cmds in

  (* Finally, add the possumX simulation command. *)
  let possumX_cmd :=
    POSSUMDIR +:+ "/bin/possumX " +:+ out +:+ " -n " +:+ numproc
      +:+ " -t " +:+ get params "proctime" "0" +:+ " -s " +:+ segs
      +:+ " >> " +:+ out +:+ "/possum.log 2>&1" in
  let cmds := cmds ++ [possumX_cmd] in

  let cmds := cmds ++
    ["echo 'POSSUM setup file generated.' > " +:+ out +:+ "/possum.fsf"] in

  Ok cmds.

(** ** The stages of the command sequence

    The commands [generate_shell_commands] appends, stage by stage; the
    theorems below state the claims on them. *)

Definition out_dir (params : gmap string string) : string :=
  get params "out" "./simdir".
Definition fsl_dir (params : gmap string string) : string :=
  get params "FSLDIR" "/usr/local/fsl".
Definition possum_dir (params : gmap string string) : string :=
  get params "POSSUMDIR" (fsl_dir params).

Inductive axis := AxisX | AxisY | AxisZ.

(** The axis that [slcselect] names: anything but x and y is z. *)
Definition selected_axis (params : gmap string string) : axis :=
  let s := Str.lower (get params "slcselect" "z") in
  if Str.eqb s "x" then AxisX else if Str.eqb s "y" then AxisY else AxisZ.

Definition dim (g : brain_ref) (a : axis) : num :=
  let '(d1, d2, d3, _, _, _, _, _) := g in
  match a with AxisX => d1 | AxisY => d2 | AxisZ => d3 end.

Definition pixdim (g : brain_ref) (a : axis) : spec_float :=
  let '(_, _, _, _, p1, p2, p3, _) := g in
  match a with AxisX => p1 | AxisY => p2 | AxisZ => p3 end.

Definition in_dim_key (a : axis) : string :=
  match a with AxisX => "inNx" | AxisY => "inNy" | AxisZ => "inNz" end.
Definition in_vox_key (a : axis) : string :=
  match a with AxisX => "vcX" | AxisY => "vcY" | AxisZ => "vcZ" end.
Definition out_vox_key (a : axis) : string :=
  match a with
  | AxisX => "outsize_dx" | AxisY => "outsize_dy" | AxisZ => "outsize_dz"
  end.

(** Stages 1 to 3: output directory, reference volume, registration. *)
Definition reference_cmds (params : gmap string string) (g : brain_ref)
  : list string :=
  let '(d1, d2, d3, nt, p1, p2, p3, p4) := g in
  [ "mkdir -p " +:+ out_dir params;
    fsl_dir params +:+ "/bin/fslcreatehd " +:+ fmt d1 +:+ " " +:+ fmt d2
      +:+ " " +:+ fmt d3 +:+ " " +:+ nt
      +:+ " " +:+ Repr.repr p1 +:+ " " +:+ Repr.repr p2
      +:+ " " +:+ Repr.repr p3 +:+ " " +:+ p4
      +:+ " 0 0 0 16 " +:+ out_dir params +:+ "/brainref";
    fsl_dir params +:+ "/bin/flirt -in " +:+ get params "obvol" "" +:+ " -ref "
      +:+ out_dir params +:+ "/brainref -applyxfm -out "
      +:+ out_dir params +:+ "/brain" ].

Definition copy_cmd (src dst : string) : string :=
  "cp " +:+ src +:+ " " +:+ dst.

Definition flirt_cmd (params : gmap string string) (src name : string) : string :=
  fsl_dir params +:+ "/bin/flirt -in " +:+ src +:+ " -ref " +:+ out_dir params
    +:+ "/brainref -applyxfm -out " +:+ out_dir params +:+ name.

Definition fslroi_cmd (params : gmap string string) : string :=
  fsl_dir params +:+ "/bin/fslroi " +:+ out_dir params +:+ "/b0newref "
    +:+ out_dir params +:+ "/b0z_dz.nii.gz 0 1".

Definition fslmaths_cmd (params : gmap string string) (strength : string)
  : string :=
  fsl_dir params +:+ "/bin/fslmaths " +:+ out_dir params
    +:+ "/b0z_dz.nii.gz -mul " +:+ strength +:+ " -div 1000000 "
    +:+ out_dir params +:+ "/b0z_dz.nii.gz".

(** The field units say ppm (the default). *)
Definition field_in_ppm (params : gmap string string) : bool :=
  Str.eqb (Str.lower (get params "b0units" "ppm")) "ppm".

(** The commands of the field-file stage for a field file [b0f]. *)
Definition field_cmds (params : gmap string string) (b0f : string)
  : list string :=
  [ flirt_cmd params b0f "/b0newref"; fslroi_cmd params ]
  ++ (if field_in_ppm params
      then [fslmaths_cmd params (get params "b0fieldstrength" "1.5")]
      else []).

(** The optional file-path parameters. *)
Definition file_keys : list string :=
  ["mrpar"; "slcprof"; "mot"; "act1"; "act2"; "b0f"].

(** The commands that go with the optional file-path parameter [key]. *)
Definition file_cmds (key : string) (params : gmap string string)
  : list string :=
  let v := get params key "" in
  if negb (Str.truthy v) then []
  else if Str.eqb key "mrpar" then [copy_cmd v (out_dir params +:+ "/MRpar")]
  else if Str.eqb key "slcprof" then [copy_cmd v (out_dir params +:+ "/slcprof")]
  else if Str.eqb key "mot" then [copy_cmd v (out_dir params +:+ "/motion")]
  else if Str.eqb key "act1" then [flirt_cmd params v "/T2"]
  else if Str.eqb key "act2" then [copy_cmd v (out_dir params +:+ "/T2timecourse")]
  else if Str.eqb key "b0f" then field_cmds params v
  else [].

Definition is_epi (params : gmap string string) : bool :=
  Str.eqb (Str.lower (get params "seqtype" "epi")) "epi".
Definition is_ge (params : gmap string string) : bool :=
  Str.eqb (Str.lower (get params "seqtype" "epi")) "ge".
Definition is_standard (params : gmap string string) : bool :=
  is_epi params || is_ge params.

(** The three parts of the pulse command: up to the repetition time, the
    per-slice repetition time, and from the plane size on; [slcthk] is the
    text of the slice thickness. *)
Definition pulse_head (params : gmap string string) : string :=
  possum_dir params +:+ "/bin/pulse -i " +:+ out_dir params +:+ "/brain -o "
    +:+ out_dir params +:+ "/pulse " +:+ "--seq=" +:+ get params "seqtype" "epi"
    +:+ " --te=" +:+ get params "te" "0.03"
    +:+ " --tr=" +:+ get params "tr" "3" +:+ " ".

Definition pulse_trslc (params : gmap string string) : string :=
  "--trslc=" +:+ get params "trslc" "0.12" +:+ " ".

Definition pulse_tail (params : gmap string string) (slcthk : string) : string :=
  "--nx=" +:+ get params "outsize_nx" "64"
    +:+ " --ny=" +:+ get params "outsize_ny" "64" +:+ " "
    +:+ "--numslc=" +:+ get params "outsize_nz" "1"
    +:+ " --dx=" +:+ get params "outsize_dx" "4.0" +:+ " "
    +:+ "--dy=" +:+ get params "outsize_dy" "4.0"
    +:+ " --slcthk=" +:+ slcthk +:+ " "
    +:+ "--numvol=" +:+ get params "numvol" "1"
    +:+ " --zstart=0 --bw=" +:+ get params "bw" "100000" +:+ " "
    +:+ "--readdir=" +:+ get params "readgrad" "x" +:+ get params "plus" "+"
    +:+ " --phasedir=" +:+ get params "phencode" "y" +:+ get params "plus" "+"
    +:+ " --slcdir=" +:+ get params "slcselect" "z" +:+ get params "plus" "+"
    +:+ " "
    +:+ "--maxG=" +:+ get params "maxG" "0.055"
    +:+ " --riset=" +:+ get params "riseT" "0.00022" +:+ " -v".

Definition log_redirect (params : gmap string string) : string :=
  " >> " +:+ out_dir params +:+ "/possum.log 2>&1".

Definition pulse_command (params : gmap string string) (slcthk : string)
  : string :=
  ((pulse_head params +:+ (if is_epi params then pulse_trslc params else ""))
     +:+ pulse_tail params slcthk) +:+ log_redirect params.

(** The copies of a custom pulse sequence [cuspulse] and its companions. *)
Definition pulse_copies (params : gmap string string) (cuspulse : string)
  : list string :=
  map (fun ext =>
         "cp " +:+ cuspulse +:+ ext +:+ " " +:+ out_dir params
           +:+ "/pulse" +:+ ext)
      pulse_exts.

Definition pulse_stage (params : gmap string string) (g : brain_ref)
  : list string :=
  if is_standard params
  then [pulse_command params (Repr.repr (pixdim g AxisZ))]
  else if Str.truthy (get params "cuspulse" "")
       then pulse_copies params (get params "cuspulse" "")
       else [].

(** The command that writes [line] into the noise file. *)
Definition noise_write (out line : string) : string :=
  "echo " +:+ dq +:+ line +:+ dq +:+ " > " +:+ out +:+ "/noise".

Definition noise_line (params : gmap string string) : string :=
  if Str.eqb (Str.lower (get params "noiseunits" "sigma")) "snr"
  then "snr " +:+ get params "noisesnr" "10"
  else "sigma " +:+ get params "noisesigma" "0".

Definition noise_stage (params : gmap string string) : list string :=
  if Str.eqb (get params "noise_yn" "0") "1"
  then [noise_write (out_dir params) (noise_line params)]
  else [].

Definition final_cmds (params : gmap string string) : list string :=
  [ possum_dir params +:+ "/bin/possumX " +:+ out_dir params
      +:+ " -n " +:+ get params "numproc" "1"
      +:+ " -t " +:+ get params "proctime" "0"
      +:+ " -s " +:+ get params "segs" "10000"
      +:+ " >> " +:+ out_dir params +:+ "/possum.log 2>&1";
    "echo 'POSSUM setup file generated.' > " +:+ out_dir params
      +:+ "/possum.fsf" ].

(** A command that writes a line into the noise file of the output
    directory. *)
Definition writes_noise (params : gmap string string) (c : string) : Prop :=
  ∃ line, c = noise_write (out_dir params) line.

(** A command that copies some file onto the pulse file of the output
    directory or onto one of its companions. *)
Definition copies_pulse (params : gmap string string) (c : string) : Prop :=
  ∃ src ext, ext ∈ pulse_exts
             ∧ c = "cp " +:+ src +:+ " " +:+ out_dir params +:+ "/pulse" +:+ ext.

(** A command that scales the slice extracted from the field file, in
    place, by some constant divided by 1000000. *)
Definition scales_field (params : gmap string string) (c : string) : Prop :=
  ∃ strength, c = fslmaths_cmd params strength.

(** How the commands end: those of the pulse-file family, the write into
    the noise file, and all the others but the first. *)
Definition pulse_endings : list string :=
  ["/pulse"; "/pulse.info"; "/pulse.readme"; "/pulse.posx"; "/pulse.posy";
   "/pulse.posz"; "/pulse.com"].
Definition noise_endings : list string := ["/noise"].
Definition plain_endings : list string :=
  ["/brainref"; "/brain"; "/MRpar"; "/slcprof"; "/motion"; "/T2";
   "/T2timecourse"; "/b0newref"; "/b0z_dz.nii.gz 0 1"; "/b0z_dz.nii.gz";
   "/possum.log 2>&1"; "/possum.fsf"].

(** The scaling of the field ends with the slice; every other command
    but the first ends with one of [unscaled_endings]. *)
Definition scaling_endings : list string := ["/b0z_dz.nii.gz"].
Definition unscaled_endings : list string :=
  ["/brainref"; "/brain"; "/MRpar"; "/slcprof"; "/motion"; "/T2";
   "/T2timecourse"; "/b0newref"; "/b0z_dz.nii.gz 0 1";
   "/possum.log 2>&1"; "/possum.fsf"; "/noise";
   "/pulse"; "/pulse.info"; "/pulse.readme"; "/pulse.posx"; "/pulse.posy";
   "/pulse.posz"; "/pulse.com"].

Definition has_end (es : list string) (c : string) : Prop :=
  ∃ e, e ∈ es ∧ Str.ends e c.

(** No ending of [es] is compatible with one of [es']. *)
Definition clash (es es' : list string) : bool :=
  forallb (fun e => forallb (fun e' => negb (Str.agree (Str.rev e) (Str.rev e'))) es') es.

(** The commands of the stages 1 to 6. *)
Definition before_pulse (params : gmap string string) (g : brain_ref)
  : list string :=
  reference_cmds params g
  ++ file_cmds "mrpar" params ++ file_cmds "slcprof" params
  ++ file_cmds "mot" params ++ file_cmds "act1" params
  ++ file_cmds "act2" params ++ file_cmds "b0f" params.

(** The whole sequence, for a geometry [g]. *)
Definition staged (params : gmap string string) (g : brain_ref) : list string :=
  before_pulse params g
  ++ pulse_stage params g ++ noise_stage params ++ final_cmds params.

(** ** Parameter sets for the examples *)

(** The scenario with every optional file, a gradient-echo sequence and
    noise given as a signal-to-noise ratio. *)
Definition study : gmap string string :=
  list_to_map
    [ ("mrpar", "/data/MRpar_3T"); ("slcprof", "/data/slcprof");
      ("mot", "/data/motion"); ("act1", "/data/activation.nii.gz");
      ("act2", "/data/timecourse"); ("b0f", "/data/b0.nii.gz");
      ("seqtype", "GE"); ("noise_yn", "1"); ("noiseunits", "SNR");
      ("noisesnr", "20") ]
  ∪ scenario.

(** The same study with a pulse sequence of its own. *)
Definition custom_study : gmap string string :=
  <["seqtype" := "spiral"]> (<["cuspulse" := "/data/mypulse"]> study).

Definition commands_of (params : gmap string string) : list string :=
  match generate_shell_commands params with
  | Ok cmds => cmds
  | Raise _ => []
  end.

Definition study_cmds : list string := Eval vm_compute in commands_of study.
Definition custom_study_cmds : list string :=
  Eval vm_compute in commands_of custom_study.

(** A setup file that gives the echo time twice. *)
Definition te_early : string := "set entries($w,te) " +:+ dq +:+ "0.03" +:+ dq.
Definition te_late : string := "set entries($w,te)  " +:+ dq +:+ "0.05" +:+ dq.
Definition tr_line : string := "set entries($w,tr) " +:+ dq +:+ "3" +:+ dq.

(** ** Keys, shapes and other notions of the statements *)

Definition geometry_keys : list string :=
  ["inNx"; "inNy"; "inNz"; "inNt"; "vcX"; "vcY"; "vcZ";
   "outsize_nx"; "outsize_ny"; "outsize_nz";
   "outsize_dx"; "outsize_dy"; "outsize_dz"; "slcsampfactor"; "slcselect"].

Definition reference_keys : list string := ["out"; "FSLDIR"; "obvol"].

Definition field_keys : list string :=
  ["out"; "FSLDIR"; "b0units"; "b0fieldstrength"].

Definition pulse_keys : list string :=
  ["POSSUMDIR"; "FSLDIR"; "out"; "seqtype"; "te"; "tr"; "trslc";
   "outsize_nx"; "outsize_ny"; "outsize_nz"; "outsize_dx"; "outsize_dy";
   "numvol"; "bw"; "readgrad"; "plus"; "phencode"; "slcselect";
   "maxG"; "riseT"; "cuspulse"].

(** The keys whose values are written into the pulse command of a
    gradient-echo sequence. *)
Definition pulse_value_keys : list string :=
  ["POSSUMDIR"; "FSLDIR"; "out"; "te"; "tr";
   "outsize_nx"; "outsize_ny"; "outsize_nz"; "outsize_dx"; "outsize_dy";
   "numvol"; "bw"; "readgrad"; "plus"; "phencode"; "slcselect";
   "maxG"; "riseT"].

Definition noise_keys : list string :=
  ["noise_yn"; "noiseunits"; "noisesnr"; "noisesigma"; "out"].

Definition final_keys : list string :=
  ["POSSUMDIR"; "FSLDIR"; "out"; "numproc"; "proctime"; "segs"].

Definition same_on (keys : list string) (params params' : gmap string string)
  : Prop :=
  ∀ k, k ∈ keys → params' !! k = params !! k.

(** The commands of the stages 1 to 6, of the standard pulse stage and of
    the last stage: none writes the noise file, none copies a pulse file. *)
Definition plain (c : string) : Prop :=
  Str.starts "mkdir -p " c ∨ has_end plain_endings c.

Definition before_pulse_keys : list string :=
  file_keys ++ reference_keys ++ field_keys.

Definition no_eq : ascii → bool := is_not "="%char.

Definition trslc : string := "--trslc=".

(** ** [main]: from the setup file to the script

    The files are a map from paths to texts.  Reading is in text mode
    with universal newlines; writing leaves a line feed as it is (the
    script is for [/bin/sh]).  Paths that cannot be opened for another
    reason than a missing input file are not modelled, nor are the
    command-line errors of [argparse]. *)

Definition LF : ascii := ascii_of_nat 10.
Definition CR : ascii := ascii_of_nat 13.
Definition nl : string := String LF "".

(** What reading in text mode makes of the ends of lines: a carriage
    return, with or without a line feed after it, becomes a line feed. *)
Fixpoint universal_newlines (s : string) : string :=
  match s with
  | "" => ""
  | String c s' =>
      if Ascii.eqb c CR then
        match s' with
        | String c' s'' =>
            if Ascii.eqb c' LF then String LF (universal_newlines s'')
            else String LF (universal_newlines s')
        | "" => String LF ""
        end
      else String c (universal_newlines s')
  end.

(** The lines of a text, each with its line feed; the last one may have
    none. *)
Fixpoint split_lines (s : string) : list string :=
  match s with
  | "" => []
  | String c s' =>
      if Ascii.eqb c LF then String c "" :: split_lines s'
      else
        match split_lines s' with
        | [] => [String c ""]
        | l :: ls => String c l :: ls
        end
  end.

(** [for line in f] on a file opened for reading with the text [text]. *)
Definition readlines (text : string) : list string :=
  split_lines (universal_newlines text).

(** The text that [main] writes for the commands [cmds]. *)
Definition script (cmds : list string) : string :=
  fold_left (fun text cmd => text +:+ (cmd +:+ nl)) cmds
            ("#!/bin/sh" +:+ nl +:+ nl).

Inductive outcome :=
| Written (message : string)
| Failed (e : exn)
| NoSuchFile.

(** [main], for the arguments [fsf_file] and [output_shell]: the files
    after the run and what the run ends with (the message printed, the
    exception of the conversion, or the input file missing). *)
Definition main (files : gmap string string) (fsf_file output_shell : string)
  : gmap string string * outcome :=
  match files !! fsf_file with
  | None => (files, NoSuchFile)
  | Some text =>
      (* Parse FSF file to get all parameters *)
      let params := parse_fsf (readlines text) in
      (* Generate shell commands that process every input file accordingly *)
      match generate_shell_commands params with
      | Raise e => (files, Failed e)
      | Ok cmds =>
          (* Write the commands to the output shell script *)
          (<[output_shell := script cmds]> files,
           Written ("Shell script written to " +:+ output_shell))
      end
  end.

(** ** Notions for the geometry computation *)

Definition out_dim_key (a : axis) : string :=
  match a with
  | AxisX => "outsize_nx" | AxisY => "outsize_ny" | AxisZ => "outsize_nz"
  end.

(** The temporal extent and the fourth voxel size of a geometry. *)
Definition extent (g : brain_ref) : string :=
  let '(_, _, _, nt, _, _, _, _) := g in nt.
Definition pixdim4 (g : brain_ref) : string :=
  let '(_, _, _, _, _, _, _, p4) := g in p4.

Definition is_zero (x : spec_float) : bool :=
  match x with S754_zero _ => true | _ => false end.

(** The float is an infinity or not a number. *)
Definition not_finite (x : spec_float) : bool :=
  match x with S754_infinity _ | S754_nan => true | _ => false end.

(** Every conversion that [compute_brain_ref] makes before it looks at
    the slice selection succeeds: the input dimensions [inN], the input
    voxel sizes [vc], the output voxel sizes [outd] and the sampling
    factor are read as floats, the input dimensions are finite (their
    integer parts give the defaults of the output sizes), and the output
    sizes that are present are read as ints. *)
Definition converts (params : gmap string string)
    (inN vc outd : axis → spec_float) (factor : spec_float) : Prop :=
  (∀ a, Conv.float_of_str (get params (in_dim_key a) "0") = Ok (inN a))
  ∧ (∀ a, Conv.float_of_str (get params (in_vox_key a) "1") = Ok (vc a))
  ∧ (∀ a, Conv.float_of_str (get params (out_vox_key a) "1") = Ok (outd a))
  ∧ Conv.float_of_str (get params "slcsampfactor" "1") = Ok factor
  ∧ (∀ a, not_finite (inN a) = false)
  ∧ (∀ a v, params !! out_dim_key a = Some v → ∃ n, Conv.int_of_str v = Ok n).

(** ** Notions for the command sequence *)

(** The keys that have one default wherever the script reads them. *)
Definition defaults : gmap string string :=
  list_to_map
    [ ("FSLDIR", "/usr/local/fsl"); ("out", "./simdir"); ("obvol", "");
      ("mrpar", ""); ("slcprof", ""); ("mot", ""); ("act1", ""); ("act2", "");
      ("b0f", ""); ("seqtype", "epi"); ("te", "0.03"); ("tr", "3");
      ("trslc", "0.12"); ("numvol", "1"); ("bw", "100000"); ("readgrad", "x");
      ("phencode", "y"); ("slcselect", "z"); ("plus", "+"); ("maxG", "0.055");
      ("riseT", "0.00022"); ("cuspulse", ""); ("noise_yn", "0");
      ("noiseunits", "sigma"); ("noisesnr", "10"); ("noisesigma", "0");
      ("numproc", "1"); ("segs", "10000"); ("proctime", "0");
      ("b0units", "ppm"); ("b0fieldstrength", "1.5");
      ("inNx", "0"); ("inNy", "0"); ("inNz", "0"); ("inNt", "1");
      ("vcX", "1"); ("vcY", "1"); ("vcZ", "1");
      ("outsize_dz", "1"); ("slcsampfactor", "1") ].

(** All the keys that the script reads. *)
Definition read_keys : list string :=
  geometry_keys ++ file_keys ++ reference_keys ++ field_keys ++ pulse_keys
  ++ noise_keys ++ final_keys.

Definition noise_on (params : gmap string string) : bool :=
  Str.eqb (get params "noise_yn" "0") "1".
Definition noise_in_snr (params : gmap string string) : bool :=
  Str.eqb (Str.lower (get params "noiseunits" "sigma")) "snr".

(** The keys of the stages that do not fire for [params], and of the
    branches not taken. *)
Definition idle_keys (params : gmap string string) : list string :=
  (if is_standard params then ["cuspulse"]
   else ["te"; "tr"; "numvol"; "bw"; "readgrad"; "phencode"; "plus";
         "maxG"; "riseT"])
  ++ (if is_epi params then [] else ["trslc"])
  ++ (if noise_on params
      then if noise_in_snr params then ["noisesigma"] else ["noisesnr"]
      else ["noiseunits"; "noisesnr"; "noisesigma"])
  ++ (if Str.truthy (get params "b0f" "")
      then if field_in_ppm params then [] else ["b0fieldstrength"]
      else ["b0units"; "b0fieldstrength"]).

(** The number of commands of the stages between the first three
    commands and the last two. *)
Definition middle_count (params : gmap string string) : nat :=
  ((if Str.truthy (get params "mrpar" "") then 1 else 0)
   + (if Str.truthy (get params "slcprof" "") then 1 else 0)
   + (if Str.truthy (get params "mot" "") then 1 else 0)
   + (if Str.truthy (get params "act1" "") then 1 else 0)
   + (if Str.truthy (get params "act2" "") then 1 else 0)
   + (if Str.truthy (get params "b0f" "")
      then if field_in_ppm params then 3 else 2 else 0)
   + (if is_standard params then 1
      else if Str.truthy (get params "cuspulse" "") then 7 else 0)
   + (if noise_on params then 1 else 0))%nat.

(** ** Notions for the script *)

(** A character that does not end a line. *)
Definition no_eol (c : ascii) : bool :=
  negb (Ascii.eqb c LF) && negb (Ascii.eqb c CR).

(** The characters of the texts that the script itself puts into the
    commands: digits, letters, the double quote, the space and nine
    other marks. *)
Definition template_marks : string := " '&+-./=>_".
Definition template_char (c : ascii) : bool :=
  let n := Str.nat_of c in
  ((48 <=? n) && (n <=? 57) || (65 <=? n) && (n <=? 90)
   || (97 <=? n) && (n <=? 122) || (n =? 34)
   || bool_decide (c ∈ list_ascii_of_string template_marks))%nat.


(** The defaults of the keys that are read with two: the output voxel
    sizes in the plane as the geometry computation takes them when they
    are missing, and the sizes of the plane as the pulse command does. *)
Definition geometry_voxel_defaults : gmap string string :=
  list_to_map [("outsize_dx", "1"); ("outsize_dy", "1")].
Definition pulse_plane_defaults : gmap string string :=
  list_to_map
    [ ("outsize_nx", "64"); ("outsize_ny", "64"); ("outsize_nz", "1");
      ("outsize_dx", "4.0"); ("outsize_dy", "4.0") ].

(** ** Notions for the parser *)

(** The first character, if any, is not white space. *)
Definition starts_clean (s : string) : bool :=
  match s with
  | "" => true
  | String c _ => negb (Str.isspace c)
  end.

(** The line of a setup file for a key and a value. *)
Definition fsf_line (kv : string * string) : string :=
  "set entries($w," +:+ kv.1 +:+ ") " +:+ dq +:+ kv.2 +:+ dq +:+ nl.

(** A key and a value that a line can give as they are. *)
Definition clean (kv : string * string) : Prop :=
  Str.strip kv.1 = kv.1 ∧ Str.strip kv.2 = kv.2
  ∧ Str.all (is_not ")"%char) kv.1 = true
  ∧ Str.all (is_not (ascii_of_nat 34)) kv.2 = true.

(** The text of a setup file with one line for each of the pairs. *)
Definition fsf_text (es : list (string * string)) : string :=
  foldr (fun kv text => fsf_line kv +:+ text) "" es.

(** A character of the text that [str] writes for an int. *)
Definition digit_or_minus (c : ascii) : bool :=
  Conv.is_digit c || Ascii.eqb c "-".

(** ** Files and floats for the examples *)

(** The floats 1 and 22.5. *)
Definition f1 : spec_float := S754_finite false 4503599627370496 (-52).
Definition f22_5 : spec_float := S754_finite false 6333186975989760 (-48).

(** A setup file whose lines end in the three ways, the last one not at
    all, with a comment and with blanks around a value. *)
Definition setup_text : string :=
  te_early +:+ String CR nl +:+ "# POSSUM" +:+ nl +:+ tr_line +:+ String CR ""
    +:+ "set entries($w,out) " +:+ dq +:+ " /tmp/sim " +:+ dq.

Definition disk : gmap string string := {[ "study.fsf" := setup_text ]}.

Definition setup_cmds : list string :=
  Eval vm_compute in commands_of (parse_fsf (readlines setup_text)).

(** A setup file with an input dimension that is no number. *)
Definition bad_disk : gmap string string :=
  {[ "bad.fsf" := "set entries($w,inNx) " +:+ dq +:+ "abc" +:+ dq +:+ nl ]}.

(** Parameter sets on which the geometry computation fails. *)
Definition no_sampling : gmap string string := {[ "slcsampfactor" := "0" ]}.
Definition endless : gmap string string := {[ "inNx" := "inf" ]}.

(** * Properties *)

Example parse_fsf_ex1 :
  parse_fsf [ "# POSSUM setup";
              "set entries($w,obvol) " +:+ dq +:+ "/data/brain.nii.gz" +:+ dq;
              "set entries($w, te )   " +:+ dq +:+ " 0.03 " +:+ dq +:+ " ;# x" ]
  = <["te" := "0.03"]> (<["obvol" := "/data/brain.nii.gz"]> ∅).
Proof. vm_compute. reflexivity. Qed.

(** ** Facts on strings *)

Lemma string_app_cons c (a b : string) : String c a +:+ b = String c (a +:+ b).
Proof. reflexivity. Qed.

Lemma string_app_assoc (a b c : string) : (a +:+ b) +:+ c = a +:+ (b +:+ c).
Proof.
  induction a as [|x a IH]; [reflexivity|].
  rewrite !string_app_cons. f_equal. exact IH.
Qed.

Lemma string_app_nil_r (a : string) : a +:+ "" = a.
Proof.
  induction a as [|x a IH]; [reflexivity|].
  rewrite string_app_cons. f_equal. exact IH.
Qed.

Lemma drop_prefix_app (p r : string) : Str.drop_prefix p (p +:+ r) = Some r.
Proof.
  induction p as [|c p IH]; [reflexivity|].
  rewrite string_app_cons. cbn. rewrite Ascii.eqb_refl. exact IH.
Qed.

Lemma drop_prefix_Some (p s r : string) :
  Str.drop_prefix p s = Some r → s = p +:+ r.
Proof.
  revert s. induction p as [|c p IH]; intros s H.
  - cbn in H. injection H as ->. reflexivity.
  - destruct s as [|d s]; [discriminate|]. cbn in H.
    destruct (Ascii.eqb c d) eqn:E; [|discriminate].
    apply Ascii.eqb_eq in E as ->.
    rewrite string_app_cons. f_equal. auto.
Qed.

Lemma contains_unfold (n s : string) :
  Str.contains n s
  = match Str.drop_prefix n s with
    | Some _ => true
    | None => match s with "" => false | String _ s' => Str.contains n s' end
    end.
Proof. destruct s; reflexivity. Qed.

(** [Str.contains] decides the occurrence of a text in another. *)
Lemma contains_intro (n a b : string) : Str.contains n (a +:+ n +:+ b) = true.
Proof.
  induction a as [|c a IH].
  - change ("" +:+ n +:+ b) with (n +:+ b).
    rewrite contains_unfold, drop_prefix_app. reflexivity.
  - rewrite string_app_cons. cbn.
    destruct (Str.drop_prefix n _); [reflexivity | exact IH].
Qed.

Lemma contains_elim (n s : string) :
  Str.contains n s = true → ∃ a b, s = a +:+ n +:+ b.
Proof.
  induction s as [|c s IH]; cbn.
  - destruct (Str.drop_prefix n "") eqn:E; [|discriminate].
    intros _. apply drop_prefix_Some in E. exists "", s. exact E.
  - destruct (Str.drop_prefix n (String c s)) eqn:E.
    + intros _. apply drop_prefix_Some in E. exists "", s0. exact E.
    + intros H. destruct (IH H) as (a & b & ->).
      exists (String c a), b. reflexivity.
Qed.

Lemma app_eq_agree (p q a b : string) : p +:+ a = q +:+ b → Str.agree p q = true.
Proof.
  revert q. induction p as [|x p IH]; intros [|y q] H; try reflexivity.
  rewrite !string_app_cons in H. injection H as -> H.
  cbn. rewrite Ascii.eqb_refl. eauto.
Qed.

Lemma rev_onto_app (a b acc : string) :
  Str.rev_onto (a +:+ b) acc = Str.rev_onto b (Str.rev_onto a acc).
Proof.
  revert acc. induction a as [|x a IH]; intros acc; [reflexivity|].
  rewrite string_app_cons. cbn. apply IH.
Qed.

Lemma rev_onto_acc (a acc c : string) :
  Str.rev_onto a (acc +:+ c) = Str.rev_onto a acc +:+ c.
Proof.
  revert acc. induction a as [|x a IH]; intros acc; [reflexivity|].
  cbn. rewrite <- IH. reflexivity.
Qed.

Lemma rev_app (a b : string) : Str.rev (a +:+ b) = Str.rev b +:+ Str.rev a.
Proof.
  unfold Str.rev. rewrite rev_onto_app.
  change (Str.rev_onto a "") with ("" +:+ Str.rev_onto a "") at 1.
  apply rev_onto_acc.
Qed.

Lemma starts_intro (p r : string) : Str.starts p (p +:+ r).
Proof. exists r. reflexivity. Qed.

Lemma ends_refl (p : string) : Str.ends p p.
Proof. exists "". reflexivity. Qed.

Lemma ends_app (p a b : string) : Str.ends p b → Str.ends p (a +:+ b).
Proof.
  intros [r ->]. exists (a +:+ r). symmetry. apply string_app_assoc.
Qed.

(** Two texts with incompatible beginnings, or endings, differ. *)
Lemma starts_differ (p q s t : string) :
  Str.agree p q = false → Str.starts p s → Str.starts q t → s ≠ t.
Proof.
  intros Hpq [a ->] [b ->] H. apply app_eq_agree in H. congruence.
Qed.

Lemma ends_differ (p q s t : string) :
  Str.agree (Str.rev p) (Str.rev q) = false →
  Str.ends p s → Str.ends q t → s ≠ t.
Proof.
  intros Hpq [a ->] [b ->] H. apply (f_equal Str.rev) in H.
  rewrite !rev_app in H. apply app_eq_agree in H. congruence.
Qed.

(** ** The builder appends its stages in order *)

Lemma if_app {A} (b : bool) (l x : list A) :
  (if b then l ++ x else l) = l ++ (if b then x else []).
Proof. destruct b; [reflexivity | symmetry; apply app_nil_r]. Qed.

Lemma if_app2 {A} (b : bool) (l x y : list A) :
  (if b then l ++ x else l ++ y) = l ++ (if b then x else y).
Proof. destruct b; reflexivity. Qed.

Lemma if_app3 {A} (b : bool) (l x y z : list A) :
  (if b then ((l ++ x) ++ y) ++ z else l) = l ++ (if b then x ++ y ++ z else []).
Proof.
  destruct b; [|symmetry; apply app_nil_r].
  rewrite <- !app_assoc. reflexivity.
Qed.

Lemma fold_left_append {A B} (f : B → A) (xs : list B) (l : list A) :
  fold_left (fun acc x => acc ++ [f x]) xs l = l ++ map f xs.
Proof.
  revert l. induction xs as [|x xs IH]; intros l; cbn.
  - symmetry. apply app_nil_r.
  - rewrite IH, <- app_assoc. reflexivity.
Qed.

(** ** The range of the floats and the digits of the ints *)

Lemma digits2_pos_bound (m : positive) : Zpos m < 2 ^ Zpos (digits2_pos m).
Proof.
  induction m as [m IH|m IH|]; cbn [digits2_pos];
    rewrite ?Pos2Z.inj_succ, ?Z.pow_succ_r by lia; lia.
Qed.

Lemma shr_1_digits (r : shr_record) :
  Zdigits2 (shr_m (shr_1 r)) = Z.max 0 (Zdigits2 (shr_m r) - 1).
Proof.
  destruct r as [[|[m|m|]|[m|m|]] b s]; cbn [shr_1 shr_m Zdigits2 digits2_pos];
    rewrite ?Pos2Z.inj_succ; lia.
Qed.

Lemma iter_shr_1_digits (p : positive) (r : shr_record) :
  Zdigits2 (shr_m (SpecFloat.iter_pos shr_1 p r))
  = Z.max 0 (Zdigits2 (shr_m r) - Zpos p).
Proof.
  revert r. induction p as [p IH|p IH|]; intros r; cbn [SpecFloat.iter_pos].
  - rewrite !IH, shr_1_digits. lia.
  - rewrite !IH. lia.
  - apply shr_1_digits.
Qed.

Lemma shr_record_of_loc_m (m : Z) (l : location) :
  shr_m (shr_record_of_loc m l) = m.
Proof. destruct l as [|[]]; reflexivity. Qed.

Lemma shr_fexp_digits (m e : Z) (l : location) :
  Zdigits2 (shr_m (shr_fexp Num.prec Num.emax m e l).1) <= Num.prec.
Proof.
  unfold shr_fexp, shr, fexp, emin, Num.prec, Num.emax.
  destruct (Z.max (Zdigits2 m + e - 53) (3 - 1024 - 53) - e) as [|p|p] eqn:E;
    cbn [fst]; rewrite ?iter_shr_1_digits, shr_record_of_loc_m; lia.
Qed.

Lemma binary_round_aux_in_range (s : bool) (m e : Z) (l : location) :
  Num.in_range (binary_round_aux Num.prec Num.emax s m e l) = true.
Proof.
  unfold binary_round_aux.
  destruct (shr_fexp Num.prec Num.emax m e l) as [mrs' e'].
  pose proof (shr_fexp_digits
                (round_nearest_even (shr_m mrs') (loc_of_shr_record mrs'))
                e' loc_Exact) as H.
  destruct (shr_fexp Num.prec Num.emax _ e' loc_Exact) as [mrs'' e''].
  cbn [fst] in H. destruct (shr_m mrs'') as [|m'|m']; [reflexivity| |reflexivity].
  destruct (e'' <=? Num.emax - Num.prec) eqn:E; [|reflexivity].
  cbn [Num.in_range]. rewrite E, andb_true_r. apply Z.ltb_lt.
  cbn [Zdigits2] in H. pose proof (digits2_pos_bound m') as Hm.
  eapply Z.lt_le_trans; [exact Hm|]. apply Z.pow_le_mono_r; lia.
Qed.

Lemma SFdiv_in_range (x y : spec_float) :
  Num.in_range (SFdiv Num.prec Num.emax x y) = true.
Proof.
  destruct x as [sx|sx| |sx mx ex], y as [sy|sy| |sy my ey]; try reflexivity.
  unfold SFdiv.
  destruct (SFdiv_core_binary Num.prec Num.emax (Z.pos mx) ex (Z.pos my) ey)
    as [[mz ez] lz].
  apply binary_round_aux_in_range.
Qed.

Lemma div_in_range (x y q : spec_float) :
  Num.div x y = Ok q → Num.in_range q = true.
Proof.
  unfold Num.div. destruct y; intros [= <-]; apply SFdiv_in_range.
Qed.

Lemma of_decimal_in_range (neg : bool) (n e : Z) :
  Num.in_range (Num.of_decimal neg n e) = true.
Proof.
  unfold Num.of_decimal. destruct n as [|p|p]; try reflexivity.
  destruct (0 <=? e); [|apply SFdiv_in_range].
  unfold binary_round. destruct (shl_align _ _ _) as [mz ez].
  apply binary_round_aux_in_range.
Qed.

Lemma float_of_str_in_range (s : string) (x : spec_float) :
  Conv.float_of_str s = Ok x → Num.in_range x = true.
Proof.
  unfold Conv.float_of_str.
  destruct (Conv.drop_underscores _ _) as [t|]; [|discriminate].
  destruct (Conv.sign t) as [neg u].
  destruct (_ || _); [intros [= <-]; reflexivity|].
  destruct (Str.eqb _ "nan"); [intros [= <-]; reflexivity|].
  destruct (Conv.decimal neg u) as [y|] eqn:E; [|discriminate].
  intros [= <-]. unfold Conv.decimal in E.
  destruct (Conv.digits 0 0 u) as [[ip ni] r1].
  destruct (match r1 with String "." r => _ | _ => _ end) as [[n nf] r2].
  destruct (0 <? ni + nf); [|discriminate].
  destruct (Conv.exponent r2) as [ex|]; [|discriminate].
  injection E as <-. apply of_decimal_in_range.
Qed.

(** The integer part and the nearest integer of a float of the format
    are below [2 ^ 1024]. *)
Lemma finite_bound (m : positive) (e : Z) :
  Num.in_range (S754_finite false m e) = true →
  Zpos m < 2 ^ 53 ∧ (0 <= e → Zpos m * 2 ^ e < 2 ^ 1024).
Proof.
  cbn [Num.in_range]. unfold Num.prec, Num.emax.
  intros [Hm He]%andb_true_iff. apply Z.ltb_lt in Hm. apply Z.leb_le in He.
  split; [exact Hm|]. intros H0.
  replace 1024 with (53 + 971) by reflexivity. rewrite Z.pow_add_r by lia.
  assert (0 < 2 ^ e) by (apply Z.pow_pos_nonneg; lia).
  assert (2 ^ e <= 2 ^ 971) by (apply Z.pow_le_mono_r; lia).
  nia.
Qed.

Lemma trunc_bound (x : spec_float) (n : Z) :
  Num.in_range x = true → Num.trunc x = Ok n → Z.abs n < 2 ^ 1024.
Proof.
  destruct x as [s|s| |s m e]; cbn [Num.trunc]; try discriminate;
    [intros _ [= <-]; reflexivity|].
  intros H [= <-].
  destruct (finite_bound m e) as [Hm He]; [exact H|].
  assert (Hn : 0 <= (if 0 <=? e then Z.pos m * 2 ^ e else Z.pos m / 2 ^ (- e))
               < 2 ^ 1024).
  { destruct (0 <=? e) eqn:E.
    - apply Z.leb_le in E. split; [|exact (He E)].
      apply Z.mul_nonneg_nonneg; [lia|]. apply Z.pow_nonneg. lia.
    - apply Z.leb_gt in E.
      assert (0 < 2 ^ (- e)) by (apply Z.pow_pos_nonneg; lia).
      split; [apply Z.div_pos; lia|].
      assert (Z.pos m / 2 ^ (- e) <= Z.pos m)
        by (apply Z.div_le_upper_bound; nia).
      assert (2 ^ 53 < 2 ^ 1024) by reflexivity. lia. }
  destruct s; lia.
Qed.

Lemma round_bound (x : spec_float) (n : Z) :
  Num.in_range x = true → Num.round x = Ok n → Z.abs n < 2 ^ 1024.
Proof.
  destruct x as [s|s| |s m e]; cbn [Num.round]; try discriminate;
    [intros _ [= <-]; reflexivity|].
  intros H [= <-].
  destruct (finite_bound m e) as [Hm He]; [exact H|].
  cbv zeta.
  set (n := if 0 <=? e then _ else _).
  assert (Hn : 0 <= n < 2 ^ 1024).
  { subst n. destruct (0 <=? e) eqn:E.
    - apply Z.leb_le in E. split; [|exact (He E)].
      apply Z.mul_nonneg_nonneg; [lia|]. apply Z.pow_nonneg. lia.
    - apply Z.leb_gt in E.
      assert (0 < 2 ^ (- e)) by (apply Z.pow_pos_nonneg; lia).
      assert (0 <= Z.pos m / 2 ^ (- e)) by (apply Z.div_pos; lia).
      assert (Z.pos m / 2 ^ (- e) <= Z.pos m)
        by (apply Z.div_le_upper_bound; nia).
      assert (2 ^ 53 + 1 < 2 ^ 1024) by reflexivity.
      destruct (2 * (Z.pos m mod 2 ^ (- e)) ?= 2 ^ (- e));
        [destruct (Z.even _)| |]; lia. }
  destruct s; lia.
Qed.

Lemma digits_of_fuel_length (fuel k : nat) (n : Z) (acc : string) :
  0 <= n < 10 ^ Z.of_nat k → (1 <= k)%nat →
  (String.length (Conv.digits_of_fuel fuel n acc)
   <= k + String.length acc)%nat.
Proof.
  revert k n acc. induction fuel as [|fuel IH]; intros k n acc Hn Hk;
    cbn [Conv.digits_of_fuel]; [lia|].
  destruct (n <? 10) eqn:E; [cbn [String.length]; lia|].
  apply Z.ltb_ge in E. destruct k as [|[|k]]; [lia| |].
  - change (10 ^ Z.of_nat 1) with 10 in Hn. lia.
  - etrans; [apply (IH (S k))|cbn [String.length]; lia]; [|lia].
    rewrite (Nat2Z.inj_succ (S k)), Z.pow_succ_r in Hn by lia.
    split; [apply Z.div_pos; lia|]. apply Z.div_lt_upper_bound; lia.
Qed.

Lemma digits_of_length (n : Z) :
  0 <= n < 2 ^ 1024 →
  Z.of_nat (String.length (Conv.digits_of n)) <= Conv.max_str_digits.
Proof.
  intros Hn. unfold Conv.digits_of.
  pose proof (digits_of_fuel_length (S (Z.to_nat (Z.log2 n))) 309 n "") as H.
  cbn [String.length] in H.
  assert (2 ^ 1024 < 10 ^ Z.of_nat 309) by (vm_compute; reflexivity).
  unfold Conv.max_str_digits. lia.
Qed.

(** [str] of an int below [2 ^ 1024] in magnitude returns. *)
Lemma str_of_int_returns (n : Z) :
  Z.abs n < 2 ^ 1024 → Conv.str_of_int n = Ok (Conv.text_of_int n).
Proof.
  intros Hn. unfold Conv.str_of_int.
  pose proof (digits_of_length (Z.abs n) ltac:(lia)) as H.
  apply Z.ltb_ge in H. rewrite H. reflexivity.
Qed.

Lemma str_of_int_Ok (n : Z) (s : string) :
  Conv.str_of_int n = Ok s →
  s = Conv.text_of_int n
  ∧ Z.of_nat (String.length (Conv.digits_of (Z.abs n))) <= Conv.max_str_digits.
Proof.
  unfold Conv.str_of_int. destruct (_ <? _) eqn:E; [discriminate|].
  apply Z.ltb_ge in E. intros [= <-]. split; [reflexivity | exact E].
Qed.

(** Inversion of a successful bind. *)
Lemma bind_Ok {A B} (r : result A) (k : A → result B) (b : B) :
  (r ≫= k) = Ok b → ∃ a, r = Ok a ∧ k a = Ok b.
Proof. destruct r as [a|e]; [eauto | discriminate]. Qed.

Ltac bind_inv H :=
  repeat
    (let x := fresh "x" in
     let Hx := fresh "Hx" in
     apply bind_Ok in H; destruct H as (x & Hx & H)).

(** The dimensions that the geometry computation returns are written
    out by an f-string without an exception: the rounded one is below
    [2 ^ 1024] in magnitude, far from the limit on the digits. *)
Lemma compute_brain_ref_formats (params : gmap string string) (g : brain_ref) :
  compute_brain_ref params = Ok g →
  ∀ a, format_num (dim g a) = Ok (fmt (dim g a)).
Proof.
  intros H. unfold compute_brain_ref in H. bind_inv H.
  destruct x18 as [[[[[nd1 nd2] nd3] np1] np2] np3].
  injection H as <-.
  assert (Hint : ∀ x y q n, Num.div x y = Ok q → Num.round q = Ok n →
                            format_num (Int n) = Ok (fmt (Int n))).
  { intros u v q n Hq Hn. cbn [format_num fmt].
    apply str_of_int_returns, (round_bound q n); [|exact Hn].
    exact (div_in_range u v q Hq). }
  destruct (Str.eqb (Str.lower (get params "slcselect" "z")) "x");
    [|destruct (Str.eqb (Str.lower (get params "slcselect" "z")) "y")];
    bind_inv Hx18; injection Hx18 as <- <- <- <- <- <-;
    intros []; cbn [dim]; first [reflexivity | eapply Hint; eassumption].
Qed.

(** One [let] of the builder at a time: the bound term is brought to the
    form [cmds ++ stage] before it is substituted. *)
Ltac zeta_step :=
  lazymatch goal with
  | |- (let x := ?a in @?b x) = ?r =>
      let a' := eval cbv zeta in a in
      change (b a' = r); cbv beta;
      rewrite ?fold_left_append, ?if_app, ?if_app3, ?if_app2
  end.

Lemma pulse_command_cases params slcthk :
  pulse_command params slcthk
  = ((if is_epi params then pulse_head params +:+ pulse_trslc params
      else pulse_head params) +:+ pulse_tail params slcthk)
    +:+ log_redirect params.
Proof.
  unfold pulse_command. destruct (is_epi params); [reflexivity|].
  rewrite string_app_nil_r. reflexivity.
Qed.

Lemma generate_shell_commands_staged params :
  generate_shell_commands params
  = g ← compute_brain_ref params; Ok (staged params g).
Proof.
  cbv beta delta [generate_shell_commands].
  do 29 zeta_step.
  destruct (compute_brain_ref params) as [g|e] eqn:Hg; [|reflexivity].
  pose proof (compute_brain_ref_formats params g Hg) as Hf.
  pose proof (Hf AxisX) as H1. pose proof (Hf AxisY) as H2.
  pose proof (Hf AxisZ) as H3. clear Hf Hg.
  destruct g as [[[[[[[d1 d2] d3] nt] p1] p2] p3] p4]. cbn [dim] in H1, H2, H3.
  cbv beta iota delta [mbind result_bind].
  repeat zeta_step.
  rewrite H1, H2, H3. cbv beta iota delta [mbind result_bind].
  repeat zeta_step.
  f_equal. unfold staged, before_pulse, reference_cmds. rewrite <- !app_assoc. cbn [app].
  do 3 (apply (f_equal2 cons); [reflexivity|]).
  do 6 (apply (f_equal2 app);
        [unfold file_cmds; destruct (Str.truthy _); reflexivity|]).
  apply (f_equal2 app).
  { unfold pulse_stage, is_standard, is_epi, is_ge, pixdim.
    destruct (_ || _); [|reflexivity].
    rewrite pulse_command_cases. reflexivity. }
  apply (f_equal2 app); [|reflexivity].
  unfold noise_stage. destruct (Str.eqb _ "1"); reflexivity.
Qed.

(** ** The geometry computation *)


Lemma compute_brain_ref_inv
    (params : gmap string string) (g : brain_ref) :
  compute_brain_ref params = Ok g →
  ∃ (inN vc outd : axis → spec_float) (factor : spec_float),
    (∀ a, Conv.float_of_str (get params (in_dim_key a) "0") = Ok (inN a)) ∧
    (∀ a, Conv.float_of_str (get params (in_vox_key a) "1") = Ok (vc a)) ∧
    (∀ a, Conv.float_of_str (get params (out_vox_key a) "1") = Ok (outd a)) ∧
    Conv.float_of_str (get params "slcsampfactor" "1") = Ok factor ∧
    let sel := selected_axis params in
    Num.div (outd sel) factor = Ok (pixdim g sel) ∧
    (∃ q n, Num.div (Num.mul (inN sel) (vc sel)) (pixdim g sel) = Ok q
            ∧ Num.round q = Ok n ∧ dim g sel = Int n) ∧
    ∀ a, a ≠ sel → dim g a = Float (inN a) ∧ pixdim g a = vc a.
Proof.
  intros H. unfold compute_brain_ref in H.
  bind_inv H.
  rename x into inNx, x0 into inNy, x1 into inNz, x2 into vcX, x3 into vcY,
    x4 into vcZ, x14 into odx, x15 into ody, x16 into odz, x17 into factor.
  exists (fun a => match a with AxisX => inNx | AxisY => inNy | AxisZ => inNz end),
         (fun a => match a with AxisX => vcX | AxisY => vcY | AxisZ => vcZ end),
         (fun a => match a with AxisX => odx | AxisY => ody | AxisZ => odz end),
         factor.
  split; [intros []; assumption|].
  split; [intros []; assumption|].
  split; [intros []; assumption|].
  split; [assumption|].
  unfold selected_axis.
  destruct x18 as [[[[[nd1 nd2] nd3] np1] np2] np3].
  injection H as <-.
  destruct (Str.eqb (Str.lower (get params "slcselect" "z")) "x");
    [|destruct (Str.eqb (Str.lower (get params "slcselect" "z")) "y")];
    bind_inv Hx18; injection Hx18 as <- <- <- <- <- <-; cbn;
    (split; [assumption|]);
    (split; [eauto|]);
    intros [] Hne; try congruence; split; reflexivity.
Qed.

(** C1. Whenever the geometry computation returns, exactly one axis has
    been recomputed: the one [slcselect] names, compared without case,
    anything but x and y standing for z.  Its voxel size is the output
    voxel size on that axis divided by the sampling factor and its
    dimension is [round (input_dim * input_voxel / new_voxel)]; on the two
    other axes the dimension and the voxel size are the input values. *)
Theorem compute_brain_ref_recomputes_selected_axis
    (params : gmap string string) (g : brain_ref) :
  compute_brain_ref params = Ok g →
  ∃ (inN vc outd : axis → spec_float) (factor : spec_float),
    (∀ a, Conv.float_of_str (get params (in_dim_key a) "0") = Ok (inN a)) ∧
    (∀ a, Conv.float_of_str (get params (in_vox_key a) "1") = Ok (vc a)) ∧
    (∀ a, Conv.float_of_str (get params (out_vox_key a) "1") = Ok (outd a)) ∧
    Conv.float_of_str (get params "slcsampfactor" "1") = Ok factor ∧
    let sel := selected_axis params in
    Num.div (outd sel) factor = Ok (pixdim g sel) ∧
    (∃ q n, Num.div (Num.mul (inN sel) (vc sel)) (pixdim g sel) = Ok q
            ∧ Num.round q = Ok n ∧ dim g sel = Int n) ∧
    ∀ a, a ≠ sel → dim g a = Float (inN a) ∧ pixdim g a = vc a.
Proof. apply compute_brain_ref_inv. Qed.

(** C1, on the scenario of the specification. *)
Lemma compute_brain_ref_recomputes_selected_axis_witness :
  ∃ (inN vc outd : axis → spec_float) (factor : spec_float),
    (∀ a, Conv.float_of_str (get scenario (in_dim_key a) "0") = Ok (inN a)) ∧
    (∀ a, Conv.float_of_str (get scenario (in_vox_key a) "1") = Ok (vc a)) ∧
    (∀ a, Conv.float_of_str (get scenario (out_vox_key a) "1") = Ok (outd a)) ∧
    Conv.float_of_str (get scenario "slcsampfactor" "1") = Ok factor ∧
    let sel := selected_axis scenario in
    Num.div (outd sel) factor = Ok (pixdim scenario_geometry sel) ∧
    (∃ q n, Num.div (Num.mul (inN sel) (vc sel)) (pixdim scenario_geometry sel)
            = Ok q
            ∧ Num.round q = Ok n ∧ dim scenario_geometry sel = Int n) ∧
    ∀ a, a ≠ sel →
      dim scenario_geometry a = Float (inN a) ∧ pixdim scenario_geometry a = vc a.
Proof.
  apply (compute_brain_ref_recomputes_selected_axis scenario).
  vm_compute. reflexivity.
Defined.

(** The constants of the scenario are the floats their texts denote. *)
Example scenario_constants :
  Conv.float_of_str "64" = Ok f64 ∧ Conv.float_of_str "30" = Ok f30
  ∧ Conv.float_of_str "3.0" = Ok f3
  ∧ Conv.float_of_str "4.0" = Ok f4
  ∧ Repr.repr f64 = "64.0" ∧ Repr.repr f3 = "3.0" ∧ Repr.repr f4 = "4.0".
Proof. vm_compute. repeat split. Qed.

(** C2, as the specification has it: the scenario would give a third
    dimension of 23.  It gives 22: the quotient 30 * 3.0 / 4.0 is 22.5,
    half-way between two integers, and [round] takes the even one. *)
Lemma scenario_newdim3_is_not_23 :
  ¬ ∃ g, compute_brain_ref scenario = Ok g
         ∧ pixdim g AxisZ = f4 ∧ dim g AxisZ = Int 23.
Proof.
  intros (g & H & _ & Hd).
  assert (Hg : compute_brain_ref scenario = Ok scenario_geometry)
    by (vm_compute; reflexivity).
  rewrite Hg in H. injection H as <-. discriminate Hd.
Qed.

(** C2, amended.  On the scenario (input dimensions 64, 64, 30, input
    voxel sizes 3.0, output size 64, 64, 30, output voxel sizes 3.0, 3.0,
    4.0, sampling factor 1, slice selection z) the geometry computation
    returns the voxel size 4.0 and the dimension 22 on the third axis. *)
Theorem scenario_newdim3_is_22 :
  compute_brain_ref scenario = Ok scenario_geometry
  ∧ pixdim scenario_geometry AxisZ = f4
  ∧ dim scenario_geometry AxisZ = Int 22
  ∧ (∃ q, Num.div (Num.mul f30 f3) f4 = Ok q
          ∧ Repr.repr q = "22.5" ∧ Num.round q = Ok 22).
Proof.
  split; [vm_compute; reflexivity|].
  split; [reflexivity|]. split; [reflexivity|].
  eexists. split; [vm_compute; reflexivity|].
  split; vm_compute; reflexivity.
Qed.

(** ** What each stage reads

    Two parameter sets that agree on the keys a stage reads give the same
    commands for it. *)

Lemma get_ext (params params' : gmap string string) k :
  params' !! k = params !! k → get params' k = get params k.
Proof. intros H. unfold get. rewrite H. reflexivity. Qed.

Ltac same_gets H p p' :=
  repeat match goal with
    | |- context [get p' ?k] =>
        rewrite (get_ext p p' k) by (apply H; compute_done)
    end.

Section Reads.
Variables params params' : gmap string string.

Lemma compute_brain_ref_ext :
  same_on geometry_keys params params' →
  compute_brain_ref params' = compute_brain_ref params.
Proof.
  intros H. unfold compute_brain_ref. same_gets H params params'.
  reflexivity.
Qed.

Lemma reference_cmds_ext g :
  same_on reference_keys params params' →
  reference_cmds params' g = reference_cmds params g.
Proof.
  intros H. unfold reference_cmds, out_dir, fsl_dir.
  same_gets H params params'. reflexivity.
Qed.

Lemma file_cmds_ext k :
  same_on (k :: field_keys) params params' →
  file_cmds k params' = file_cmds k params.
Proof.
  intros H.
  unfold file_cmds, field_cmds, field_in_ppm, flirt_cmd, fslroi_cmd,
    fslmaths_cmd, copy_cmd, out_dir, fsl_dir.
  rewrite (get_ext params params' k) by (apply H; left).
  assert (H' : same_on field_keys params params')
    by (intros k' Hk'; apply H; right; exact Hk').
  same_gets H' params params'. reflexivity.
Qed.

Lemma pulse_stage_ext g :
  same_on pulse_keys params params' →
  pulse_stage params' g = pulse_stage params g.
Proof.
  intros H.
  unfold pulse_stage, is_standard, is_epi, is_ge, pulse_command, pulse_head,
    pulse_trslc, pulse_tail, log_redirect, pulse_copies, is_epi,
    possum_dir, out_dir, fsl_dir.
  same_gets H params params'. reflexivity.
Qed.

Lemma noise_stage_ext :
  same_on noise_keys params params' →
  noise_stage params' = noise_stage params.
Proof.
  intros H. unfold noise_stage, noise_line, noise_write, out_dir.
  same_gets H params params'. reflexivity.
Qed.

Lemma final_cmds_ext :
  same_on final_keys params params' →
  final_cmds params' = final_cmds params.
Proof.
  intros H. unfold final_cmds, possum_dir, out_dir, fsl_dir.
  same_gets H params params'. reflexivity.
Qed.

End Reads.

(** A parameter set changed at one key agrees with the original on a list
    of keys that does not have it. *)
Lemma same_on_but (keys : list string) (params params' : gmap string string) key :
  (∀ k, k ≠ key → params' !! k = params !! k) →
  key ∉ keys → same_on keys params params'.
Proof. intros H Hkey k Hk. apply H. intros ->. contradiction. Qed.

(** ** Leaving an optional file out *)

Lemma file_cmds_empty (params : gmap string string) key :
  get params key "" = "" → file_cmds key params = [].
Proof. intros H. unfold file_cmds. rewrite H. reflexivity. Qed.

(** The sequence around the commands of [key]. *)
Lemma staged_frame (params params' : gmap string string) (key : string) g :
  key ∈ file_keys →
  (∀ k, k ≠ key → params' !! k = params !! k) →
  get params' key "" = "" →
  ∃ pre post,
    staged params g = pre ++ file_cmds key params ++ post
    ∧ staged params' g = pre ++ post.
Proof.
  intros Hkey Hfixed Hempty. unfold staged, before_pulse.
  rewrite <- !app_assoc.
  pose proof (file_cmds_empty params' key Hempty) as Hnil.
  unfold file_keys in Hkey.
  repeat (apply elem_of_cons in Hkey as [->|Hkey]);
    [..|apply elem_of_nil in Hkey; contradiction];
    rewrite Hnil;
    rewrite ?(reference_cmds_ext params params'), ?(pulse_stage_ext params params'),
      ?(noise_stage_ext params params'), ?(final_cmds_ext params params'),
      ?(file_cmds_ext params params')
      by (eapply same_on_but; [exact Hfixed | compute_done]).
  - exists (reference_cmds params g). eexists. split; reflexivity.
  - exists (reference_cmds params g ++ file_cmds "mrpar" params).
    eexists. rewrite <- !app_assoc. split; reflexivity.
  - exists (reference_cmds params g ++ file_cmds "mrpar" params
            ++ file_cmds "slcprof" params).
    eexists. rewrite <- !app_assoc. split; reflexivity.
  - exists (reference_cmds params g ++ file_cmds "mrpar" params
            ++ file_cmds "slcprof" params ++ file_cmds "mot" params).
    eexists. rewrite <- !app_assoc. split; reflexivity.
  - exists (reference_cmds params g ++ file_cmds "mrpar" params
            ++ file_cmds "slcprof" params ++ file_cmds "mot" params
            ++ file_cmds "act1" params).
    eexists. rewrite <- !app_assoc. split; reflexivity.
  - exists (reference_cmds params g ++ file_cmds "mrpar" params
            ++ file_cmds "slcprof" params ++ file_cmds "mot" params
            ++ file_cmds "act1" params ++ file_cmds "act2" params).
    eexists. rewrite <- !app_assoc. split; reflexivity.
Qed.

Lemma file_parameter_frame
    (params params' : gmap string string) (key : string) (cmds : list string) :
  key ∈ file_keys →
  (∀ k, k ≠ key → params' !! k = params !! k) →
  get params' key "" = "" →
  generate_shell_commands params = Ok cmds →
  ∃ pre post,
    cmds = pre ++ file_cmds key params ++ post
    ∧ generate_shell_commands params' = Ok (pre ++ post).
Proof.
  intros Hkey Hfixed Hempty Hgen.
  rewrite generate_shell_commands_staged in Hgen |- *.
  rewrite (compute_brain_ref_ext params params').
  2:{ eapply same_on_but; [exact Hfixed|].
      intros Hin. revert Hkey. unfold file_keys, geometry_keys in *.
      repeat (apply elem_of_cons in Hin as [->|Hin]);
        [..|apply elem_of_nil in Hin; contradiction]; compute_done. }
  destruct (compute_brain_ref params) as [g|e]; [|discriminate].
  injection Hgen as <-.
  destruct (staged_frame params params' key g Hkey Hfixed Hempty)
    as (pre & post & H1 & H2).
  exists pre, post. split; [exact H1|]. cbn. rewrite H2. reflexivity.
Qed.

(** C7. Making one optional file-path parameter (MR parameters, slice
    profile, motion, activation image, activation time course, field file)
    empty, the other parameters being the same, removes the commands that
    go with it from the sequence and nothing else: the commands before and
    after them stay, in the same order. *)
Theorem empty_file_parameter_removes_its_commands
    (params params' : gmap string string) (key : string) (cmds : list string) :
  key ∈ file_keys →
  (∀ k, k ≠ key → params' !! k = params !! k) →
  get params' key "" = "" →
  generate_shell_commands params = Ok cmds →
  ∃ pre post,
    cmds = pre ++ file_cmds key params ++ post
    ∧ generate_shell_commands params' = Ok (pre ++ post).
Proof. apply file_parameter_frame. Qed.

(** ** The shapes of the commands *)

Lemma ends_agree (p q s : string) :
  Str.ends p s → Str.ends q s → Str.agree (Str.rev p) (Str.rev q) = true.
Proof.
  intros Hp Hq. destruct (Str.agree _ _) eqn:E; [reflexivity|].
  exfalso. exact (ends_differ p q s s E Hp Hq eq_refl).
Qed.

Lemma clash_sound (es es' : list string) (c : string) :
  clash es es' = true → has_end es c → has_end es' c → False.
Proof.
  intros H (e & He & Hc) (e' & He' & Hc').
  unfold clash in H. rewrite forallb_forall in H.
  apply list_elem_of_In in He, He'.
  specialize (H e He). rewrite forallb_forall in H. specialize (H e' He').
  rewrite (ends_agree e e' c Hc Hc') in H. discriminate H.
Qed.

Ltac solve_ends :=
  lazymatch goal with
  | |- Str.ends ?p ?c => first [apply ends_refl | apply ends_app; solve_ends]
  end.

Ltac ends_with e := exists e; split; [compute_done | solve_ends].

Ltac elems H :=
  repeat (apply elem_of_cons in H as [->|H]);
  try (apply elem_of_nil in H; contradiction).

Lemma reference_cmds_shape params g c :
  c ∈ reference_cmds params g →
  Str.starts "mkdir -p " c ∨ has_end plain_endings c.
Proof.
  destruct g as [[[[[[[d1 d2] d3] nt] p1] p2] p3] p4].
  unfold reference_cmds. intros H. elems H.
  - left. apply starts_intro.
  - right. ends_with "/brainref".
  - right. ends_with "/brain".
Qed.

Lemma field_cmds_shape params b0f c :
  c ∈ field_cmds params b0f → has_end plain_endings c.
Proof.
  unfold field_cmds, flirt_cmd, fslroi_cmd, fslmaths_cmd. intros H.
  apply elem_of_app in H as [H|H].
  - elems H; [ends_with "/b0newref" | ends_with "/b0z_dz.nii.gz 0 1"].
  - destruct (field_in_ppm params); elems H. ends_with "/b0z_dz.nii.gz".
Qed.

Lemma file_cmds_shape key params c :
  c ∈ file_cmds key params → has_end plain_endings c.
Proof.
  unfold file_cmds, copy_cmd, flirt_cmd. intros H.
  destruct (negb _); [elems H|].
  repeat (destruct (Str.eqb key _);
          [first [ apply field_cmds_shape in H; exact H | elems H ]|]);
    [ends_with "/MRpar" | ends_with "/slcprof" | ends_with "/motion"
    | ends_with "/T2" | ends_with "/T2timecourse" | elems H].
Qed.

Lemma pulse_command_shape params slcthk :
  has_end plain_endings (pulse_command params slcthk).
Proof. unfold pulse_command, log_redirect. ends_with "/possum.log 2>&1". Qed.

Lemma pulse_copies_shape params cuspulse c :
  c ∈ pulse_copies params cuspulse →
  copies_pulse params c ∧ has_end pulse_endings c.
Proof.
  unfold pulse_copies, pulse_exts. cbn [map]. intros H.
  elems H;
    lazymatch goal with
    | |- _ ∧ has_end _ (_ +:+ _ +:+ ?ext +:+ _) =>
        split;
        [ exists (cuspulse +:+ ext), ext;
          split; [compute_done | rewrite (string_app_assoc cuspulse); reflexivity]
        | exists ("/pulse" +:+ ext); split; [compute_done | solve_ends] ]
    end.
Qed.

Lemma final_cmds_shape params c :
  c ∈ final_cmds params → has_end plain_endings c.
Proof.
  unfold final_cmds. intros H.
  elems H; [ends_with "/possum.log 2>&1" | ends_with "/possum.fsf"].
Qed.

Lemma writes_noise_shape params c :
  writes_noise params c → Str.starts "echo " c ∧ has_end noise_endings c.
Proof.
  intros [line ->]. unfold noise_write. split.
  - apply starts_intro.
  - ends_with "/noise".
Qed.

Lemma copies_pulse_shape params c :
  copies_pulse params c → Str.starts "cp " c ∧ has_end pulse_endings c.
Proof.
  intros (src & ext & Hext & ->). split; [apply starts_intro|].
  unfold pulse_exts in Hext.
  elems Hext;
    lazymatch goal with
    | |- has_end _ (_ +:+ _ +:+ _ +:+ _ +:+ _ +:+ ?ext) =>
        exists ("/pulse" +:+ ext); (split; [compute_done | solve_ends])
    end.
Qed.

Lemma plain_not_noise params c : plain c → ¬ writes_noise params c.
Proof.
  intros [Hs|He] [Hs' He']%writes_noise_shape.
  - exact (starts_differ "mkdir -p " "echo " c c eq_refl Hs Hs' eq_refl).
  - exact (clash_sound plain_endings noise_endings c eq_refl He He').
Qed.

Lemma plain_not_pulse_copy params c : plain c → ¬ copies_pulse params c.
Proof.
  intros [Hs|He] [Hs' He']%copies_pulse_shape.
  - exact (starts_differ "mkdir -p " "cp " c c eq_refl Hs Hs' eq_refl).
  - exact (clash_sound plain_endings pulse_endings c eq_refl He He').
Qed.

Lemma pulse_copy_not_noise params c : copies_pulse params c → ¬ writes_noise params c.
Proof.
  intros [_ He]%copies_pulse_shape [_ He']%writes_noise_shape.
  exact (clash_sound pulse_endings noise_endings c eq_refl He He').
Qed.

Lemma before_pulse_plain params g c : c ∈ before_pulse params g → plain c.
Proof.
  unfold before_pulse. rewrite !elem_of_app. intros H.
  destruct H as [H|H]; [exact (reference_cmds_shape _ _ _ H)|]. right.
  repeat (destruct H as [H|H]; [exact (file_cmds_shape _ _ _ H)|]).
  exact (file_cmds_shape _ _ _ H).
Qed.

Lemma pulse_stage_shape params g c :
  c ∈ pulse_stage params g → plain c ∨ copies_pulse params c.
Proof.
  unfold pulse_stage. intros H.
  destruct (is_standard params).
  - elems H. left. right. apply pulse_command_shape.
  - destruct (Str.truthy _); [|elems H].
    right. exact (proj1 (pulse_copies_shape _ _ _ H)).
Qed.

(** ** The noise stage *)

Lemma eqb_true (a b : string) : Str.eqb a b = true ↔ a = b.
Proof. unfold Str.eqb. apply bool_decide_eq_true. Qed.

Lemma eqb_false (a b : string) : Str.eqb a b = false ↔ a ≠ b.
Proof. unfold Str.eqb. apply bool_decide_eq_false. Qed.

(** C4. The sequence has a command that writes a line into the noise file
    exactly when the noise flag is the text 1, and then it has one: the
    line is [snr <value>] when the noise units are snr, whatever the case
    of the letters, and [sigma <value>] for any other units. *)
Theorem noise_file_written_iff_flag_is_1
    (params : gmap string string) (cmds : list string) :
  generate_shell_commands params = Ok cmds →
  (get params "noise_yn" "0" = "1" →
   ∃ pre line post,
     cmds = pre ++ [noise_write (out_dir params) line] ++ post
     ∧ (∀ c, c ∈ pre ++ post → ¬ writes_noise params c)
     ∧ (Str.lower (get params "noiseunits" "sigma") = "snr" →
        line = "snr " +:+ get params "noisesnr" "10")
     ∧ (Str.lower (get params "noiseunits" "sigma") ≠ "snr" →
        line = "sigma " +:+ get params "noisesigma" "0"))
  ∧ (get params "noise_yn" "0" ≠ "1" →
     ∀ c, c ∈ cmds → ¬ writes_noise params c).
Proof.
  intros Hgen. rewrite generate_shell_commands_staged in Hgen.
  destruct (compute_brain_ref params) as [g|e]; [|discriminate].
  injection Hgen as <-.
  assert (Hothers : ∀ c, c ∈ (before_pulse params g ++ pulse_stage params g)
                             ++ final_cmds params → ¬ writes_noise params c).
  { intros c. rewrite !elem_of_app. intros [[H|H]|H].
    - apply plain_not_noise, (before_pulse_plain _ _ _ H).
    - destruct (pulse_stage_shape _ _ _ H);
        [apply plain_not_noise | apply pulse_copy_not_noise]; assumption.
    - apply plain_not_noise. right. exact (final_cmds_shape _ _ H). }
  unfold staged, noise_stage. split.
  - intros Hyn. apply eqb_true in Hyn. rewrite Hyn.
    exists (before_pulse params g ++ pulse_stage params g),
      (noise_line params), (final_cmds params).
    split; [rewrite <- !app_assoc; reflexivity|].
    split; [exact Hothers|].
    unfold noise_line. split.
    + intros Hu. apply eqb_true in Hu. rewrite Hu. reflexivity.
    + intros Hu. apply eqb_false in Hu. rewrite Hu. reflexivity.
  - intros Hyn. apply eqb_false in Hyn. rewrite Hyn.
    intros c Hc. apply Hothers. rewrite <- !app_assoc. exact Hc.
Qed.

(** ** The custom pulse sequence *)

Lemma before_pulse_ext (params params' : gmap string string) g :
  same_on before_pulse_keys params params' →
  before_pulse params' g = before_pulse params g.
Proof.
  intros H. unfold before_pulse.
  rewrite (reference_cmds_ext params params'), !(file_cmds_ext params params');
    [reflexivity|..];
    intros k Hk; apply H; revert Hk;
    unfold before_pulse_keys, file_keys, reference_keys, field_keys;
    cbn [app]; rewrite !elem_of_cons; tauto.
Qed.

Lemma is_standard_ext (params params' : gmap string string) :
  params' !! "seqtype" = params !! "seqtype" →
  is_standard params' = is_standard params.
Proof.
  intros H. unfold is_standard, is_epi, is_ge.
  rewrite (get_ext params params' "seqtype" H). reflexivity.
Qed.

Lemma get_insert (params : gmap string string) k v d :
  get (<[k:=v]> params) k d = v.
Proof. unfold get. rewrite lookup_insert_eq. reflexivity. Qed.

Lemma insert_others (params : gmap string string) key v :
  ∀ k, k ≠ key → <[key:=v]> params !! k = params !! k.
Proof. intros k Hk. apply lookup_insert_ne. congruence. Qed.

(** C6. When the sequence type is neither epi nor ge, in any case of the
    letters, and the custom pulse path is not empty, the sequence has
    seven copy commands for the pulse file and its companions [.info],
    [.readme], [.posx], [.posy], [.posz] and [.com], all of them whatever
    files exist; with an empty custom pulse path it has the other commands
    only, none of which copies a pulse file. *)
Theorem custom_pulse_copies_family
    (params : gmap string string) (cmds : list string) :
  is_standard params = false →
  generate_shell_commands params = Ok cmds →
  let cuspulse := get params "cuspulse" "" in
  let copies :=
    map (fun ext => "cp " +:+ cuspulse +:+ ext +:+ " " +:+ out_dir params
                      +:+ "/pulse" +:+ ext)
        [""; ".info"; ".readme"; ".posx"; ".posy"; ".posz"; ".com"] in
  ∃ pre post,
    cmds = pre ++ (if Str.truthy cuspulse then copies else []) ++ post
    ∧ length copies = 7%nat
    ∧ (∀ c, c ∈ copies → copies_pulse params c)
    ∧ (∀ c, c ∈ pre ++ post → ¬ copies_pulse params c)
    ∧ generate_shell_commands (<["cuspulse" := ""]> params) = Ok (pre ++ post).
Proof.
  intros Hstd Hgen cuspulse copies.
  rewrite generate_shell_commands_staged in Hgen |- *.
  pose proof (insert_others params "cuspulse" "") as Hfixed.
  rewrite (compute_brain_ref_ext params _)
    by (eapply same_on_but; [exact Hfixed | compute_done]).
  destruct (compute_brain_ref params) as [g|e]; [|discriminate].
  injection Hgen as <-.
  exists (before_pulse params g), (noise_stage params ++ final_cmds params).
  split; [|split; [reflexivity|split; [|split]]].
  - unfold staged, pulse_stage. rewrite Hstd. reflexivity.
  - intros c Hc. exact (proj1 (pulse_copies_shape params cuspulse c Hc)).
  - intros c. rewrite !elem_of_app. intros [H|[H|H]].
    + apply plain_not_pulse_copy, (before_pulse_plain _ _ _ H).
    + intros Hp. unfold noise_stage in H.
      destruct (Str.eqb _ "1"); [|elems H]. elems H.
      refine (pulse_copy_not_noise params _ Hp _). eexists. reflexivity.
    + apply plain_not_pulse_copy. right. exact (final_cmds_shape _ _ H).
  - cbn. f_equal. unfold staged.
    rewrite (before_pulse_ext params _), (noise_stage_ext params _),
      (final_cmds_ext params _)
      by (eapply same_on_but; [exact Hfixed | compute_done]).
    f_equal. unfold pulse_stage.
    rewrite (is_standard_ext params) by (apply Hfixed; discriminate).
    rewrite Hstd, get_insert. reflexivity.
Qed.

(** ** The field file *)

Lemma length_app_str (a b : string) :
  String.length (a +:+ b) = (String.length a + String.length b)%nat.
Proof.
  induction a as [|c a IH]; [reflexivity|].
  rewrite string_app_cons. cbn [String.length]. rewrite IH. reflexivity.
Qed.

Lemma scales_field_shape params c :
  scales_field params c → has_end scaling_endings c.
Proof. intros [strength ->]. unfold fslmaths_cmd. ends_with "/b0z_dz.nii.gz". Qed.

Lemma unscaled_not_scaling params c :
  has_end unscaled_endings c → ¬ scales_field params c.
Proof.
  intros He He'%scales_field_shape.
  exact (clash_sound unscaled_endings scaling_endings c eq_refl He He').
Qed.

(** The first command is shorter than a scaling of the field in the same
    output directory. *)
Lemma mkdir_not_scaling params :
  ¬ scales_field params ("mkdir -p " +:+ out_dir params).
Proof.
  intros [strength H]. apply (f_equal String.length) in H.
  unfold fslmaths_cmd in H. rewrite !length_app_str in H.
  cbn [String.length] in H. lia.
Qed.

Lemma reference_cmds_unscaled params g c :
  c ∈ reference_cmds params g → ¬ scales_field params c.
Proof.
  destruct g as [[[[[[[d1 d2] d3] nt] p1] p2] p3] p4].
  unfold reference_cmds. intros H. elems H.
  - apply mkdir_not_scaling.
  - apply unscaled_not_scaling. ends_with "/brainref".
  - apply unscaled_not_scaling. ends_with "/brain".
Qed.

Lemma copy_cmds_unscaled key params c :
  key ∈ ["mrpar"; "slcprof"; "mot"; "act1"; "act2"] →
  c ∈ file_cmds key params → ¬ scales_field params c.
Proof.
  intros Hkey H. apply unscaled_not_scaling. revert H.
  unfold file_cmds, copy_cmd, flirt_cmd.
  destruct (negb _); [intros H; elems H|].
  elems Hkey; cbn [Str.eqb]; intros H; elems H;
    [ends_with "/MRpar" | ends_with "/slcprof" | ends_with "/motion"
    | ends_with "/T2" | ends_with "/T2timecourse"].
Qed.

Lemma pulse_stage_unscaled params g c :
  c ∈ pulse_stage params g → ¬ scales_field params c.
Proof.
  unfold pulse_stage. intros H. apply unscaled_not_scaling.
  destruct (is_standard params).
  - elems H. unfold pulse_command, log_redirect. ends_with "/possum.log 2>&1".
  - destruct (Str.truthy _); [|elems H].
    unfold pulse_copies, pulse_exts in H. cbn [map] in H.
    elems H;
      lazymatch goal with
      | |- has_end _ (_ +:+ _ +:+ _ +:+ _ +:+ _ +:+ _ +:+ ?ext) =>
          exists ("/pulse" +:+ ext); (split; [compute_done | solve_ends])
      end.
Qed.

Lemma noise_stage_unscaled params c :
  c ∈ noise_stage params → ¬ scales_field params c.
Proof.
  unfold noise_stage, noise_write. intros H. apply unscaled_not_scaling.
  destruct (Str.eqb _ "1"); elems H. ends_with "/noise".
Qed.

Lemma final_cmds_unscaled params c :
  c ∈ final_cmds params → ¬ scales_field params c.
Proof.
  unfold final_cmds. intros H. apply unscaled_not_scaling.
  elems H; [ends_with "/possum.log 2>&1" | ends_with "/possum.fsf"].
Qed.

(** The sequence around the commands of the field file: no command
    before or after them scales the field. *)
Lemma field_frame (params : gmap string string) (g : brain_ref) :
  ∃ pre post,
    staged params g = pre ++ file_cmds "b0f" params ++ post
    ∧ staged (<["b0f" := ""]> params) g = pre ++ post
    ∧ ∀ c, c ∈ pre ++ post → ¬ scales_field params c.
Proof.
  exists (reference_cmds params g ++ file_cmds "mrpar" params
          ++ file_cmds "slcprof" params ++ file_cmds "mot" params
          ++ file_cmds "act1" params ++ file_cmds "act2" params),
    (pulse_stage params g ++ noise_stage params ++ final_cmds params).
  split; [unfold staged, before_pulse; rewrite <- !app_assoc; reflexivity|].
  split.
  - unfold staged, before_pulse.
    rewrite (file_cmds_empty (<["b0f" := ""]> params) "b0f")
      by apply get_insert.
    rewrite ?(reference_cmds_ext params (<["b0f" := ""]> params)),
      ?(pulse_stage_ext params (<["b0f" := ""]> params)),
      ?(noise_stage_ext params (<["b0f" := ""]> params)),
      ?(final_cmds_ext params (<["b0f" := ""]> params)),
      ?(file_cmds_ext params (<["b0f" := ""]> params))
      by (eapply same_on_but; [apply insert_others | compute_done]).
    rewrite <- !app_assoc. reflexivity.
  - intros c. rewrite !elem_of_app.
    intros [[H|[H|[H|[H|[H|H]]]]]|[H|[H|H]]];
      first [ exact (reference_cmds_unscaled _ _ _ H)
            | eapply copy_cmds_unscaled; [|exact H]; compute_done
            | exact (pulse_stage_unscaled _ _ _ H)
            | exact (noise_stage_unscaled _ _ H)
            | exact (final_cmds_unscaled _ _ H) ].
Qed.

(** C8. With a field file, the sequence has, in this order: the
    registration of the field file against the reference volume, the
    extraction of one slice (start 0, count 1) of the result and, exactly
    when the field units (ppm when absent) are ppm in any case of the
    letters, the scaling of the slice in place by the field strength
    divided by 1000000; these commands are what the field file adds to the
    sequence, no other command of the sequence scales the slice, and
    with any other units no command at all does. *)
Theorem field_file_commands (params : gmap string string) (cmds : list string) :
  get params "b0f" "" ≠ "" →
  generate_shell_commands params = Ok cmds →
  let out := get params "out" "./simdir" in
  let FSLDIR := get params "FSLDIR" "/usr/local/fsl" in
  ∃ pre post,
    cmds = pre
      ++ [ FSLDIR +:+ "/bin/flirt -in " +:+ get params "b0f" "" +:+ " -ref "
             +:+ out +:+ "/brainref -applyxfm -out " +:+ out +:+ "/b0newref";
           FSLDIR +:+ "/bin/fslroi " +:+ out +:+ "/b0newref " +:+ out
             +:+ "/b0z_dz.nii.gz 0 1" ]
      ++ (if Str.eqb (Str.lower (get params "b0units" "ppm")) "ppm"
          then [ FSLDIR +:+ "/bin/fslmaths " +:+ out +:+ "/b0z_dz.nii.gz -mul "
                   +:+ get params "b0fieldstrength" "1.5" +:+ " -div 1000000 "
                   +:+ out +:+ "/b0z_dz.nii.gz" ]
          else [])
      ++ post
    ∧ generate_shell_commands (<["b0f" := ""]> params) = Ok (pre ++ post)
    ∧ (∀ c, c ∈ pre ++ post → ¬ scales_field params c)
    ∧ (Str.lower (get params "b0units" "ppm") ≠ "ppm" →
       ∀ c, c ∈ cmds → ¬ scales_field params c).
Proof.
  intros Hb0f Hgen out FSLDIR.
  rewrite generate_shell_commands_staged in Hgen |- *.
  rewrite (compute_brain_ref_ext params (<["b0f" := ""]> params))
    by (eapply same_on_but; [apply insert_others | compute_done]).
  destruct (compute_brain_ref params) as [g|e]; [|discriminate].
  injection Hgen as <-.
  destruct (field_frame params g) as (pre & post & H1 & H2 & H3).
  exists pre, post.
  assert (Hfield : file_cmds "b0f" params
                   = [ FSLDIR +:+ "/bin/flirt -in " +:+ get params "b0f" ""
                         +:+ " -ref " +:+ out +:+ "/brainref -applyxfm -out "
                         +:+ out +:+ "/b0newref";
                       FSLDIR +:+ "/bin/fslroi " +:+ out +:+ "/b0newref "
                         +:+ out +:+ "/b0z_dz.nii.gz 0 1" ]
                     ++ (if Str.eqb (Str.lower (get params "b0units" "ppm")) "ppm"
                         then [ FSLDIR +:+ "/bin/fslmaths " +:+ out
                                  +:+ "/b0z_dz.nii.gz -mul "
                                  +:+ get params "b0fieldstrength" "1.5"
                                  +:+ " -div 1000000 "
                                  +:+ out +:+ "/b0z_dz.nii.gz" ]
                         else [])).
  { unfold file_cmds.
    destruct (get params "b0f" "") eqn:E; [contradiction|]. reflexivity. }
  split; [rewrite H1, Hfield, <- !app_assoc; reflexivity|].
  split; [cbn; rewrite H2; reflexivity|].
  split; [exact H3|].
  intros Hunits c. rewrite H1, Hfield.
  apply eqb_false in Hunits. rewrite Hunits, app_nil_r.
  rewrite !elem_of_app. intros [H|[H|H]].
  - apply H3, elem_of_app. left. exact H.
  - apply unscaled_not_scaling. subst out FSLDIR.
    elems H; [ends_with "/b0newref" | ends_with "/b0z_dz.nii.gz 0 1"].
  - apply H3, elem_of_app. right. exact H.
Qed.

(** ** The pulse command *)

Lemma pulse_command_slcthk params :
  ∃ a b, ∀ t, pulse_command params t = a +:+ " --slcthk=" +:+ t +:+ " " +:+ b.
Proof.
  eexists (pulse_head params
           +:+ (if is_epi params then pulse_trslc params else "")
           +:+ "--nx=" +:+ get params "outsize_nx" "64"
           +:+ " --ny=" +:+ get params "outsize_ny" "64" +:+ " "
           +:+ "--numslc=" +:+ get params "outsize_nz" "1"
           +:+ " --dx=" +:+ get params "outsize_dx" "4.0" +:+ " "
           +:+ "--dy=" +:+ get params "outsize_dy" "4.0"), _.
  intros t. unfold pulse_command, pulse_tail.
  rewrite !string_app_assoc. reflexivity.
Qed.

Lemma standard_sequence_staged params cmds :
  is_standard params = true →
  generate_shell_commands params = Ok cmds →
  ∃ g, compute_brain_ref params = Ok g
       ∧ cmds = before_pulse params g
                ++ [pulse_command params (Repr.repr (pixdim g AxisZ))]
                ++ noise_stage params ++ final_cmds params.
Proof.
  intros Hstd Hgen. rewrite generate_shell_commands_staged in Hgen.
  destruct (compute_brain_ref params) as [g|e]; [|discriminate].
  injection Hgen as <-. exists g. split; [reflexivity|].
  unfold staged, pulse_stage. rewrite Hstd. reflexivity.
Qed.

(** C3, as the specification has it: the slice thickness of the pulse
    command would be the voxel size recomputed on the selected axis.  With
    slices selected along x and an output voxel size of 2 there, the
    recomputed voxel size is 2.0 and the command says [--slcthk=1.0], the
    input voxel size along z. *)
Lemma slcthk_is_not_on_selected_axis :
  ∃ g cmds,
    is_standard params_x = true
    ∧ compute_brain_ref params_x = Ok g
    ∧ generate_shell_commands params_x = Ok cmds
    ∧ selected_axis params_x = AxisX
    ∧ Repr.repr (pixdim g AxisX) = "2.0"
    ∧ (pulse_command params_x (Repr.repr (pixdim g (selected_axis params_x)))
       ∉ cmds)
    ∧ (pulse_command params_x "1.0" ∈ cmds).
Proof.
  eexists _, _.
  split; [vm_compute; reflexivity|].
  split; [vm_compute; reflexivity|].
  split; [vm_compute; reflexivity|].
  split; [vm_compute; reflexivity|].
  split; [vm_compute; reflexivity|].
  split; compute_done.
Qed.

(** C3, amended.  For a standard sequence type (epi or ge, in any case of
    the letters) the slice thickness of the pulse command is the third
    voxel size of the geometry computation, [newpixdim3], whatever the
    slice selection: the voxel size recomputed from the output voxel size
    and the sampling factor when the selected axis is z, and the input
    voxel size along z when it is x or y. *)
Theorem slcthk_is_newpixdim3 (params : gmap string string) (cmds : list string) :
  is_standard params = true →
  generate_shell_commands params = Ok cmds →
  ∃ g,
    compute_brain_ref params = Ok g
    ∧ cmds = before_pulse params g
             ++ [pulse_command params (Repr.repr (pixdim g AxisZ))]
             ++ noise_stage params ++ final_cmds params
    ∧ (∃ a b, ∀ t,
          pulse_command params t = a +:+ " --slcthk=" +:+ t +:+ " " +:+ b)
    ∧ (selected_axis params = AxisZ →
       ∃ outd factor,
         Conv.float_of_str (get params "outsize_dz" "1") = Ok outd
         ∧ Conv.float_of_str (get params "slcsampfactor" "1") = Ok factor
         ∧ Num.div outd factor = Ok (pixdim g AxisZ))
    ∧ (selected_axis params ≠ AxisZ →
       Conv.float_of_str (get params "vcZ" "1") = Ok (pixdim g AxisZ)).
Proof.
  intros Hstd Hgen.
  destruct (standard_sequence_staged params cmds Hstd Hgen) as (g & Hg & ->).
  exists g. split; [exact Hg|]. split; [reflexivity|].
  split; [apply pulse_command_slcthk|].
  destruct (compute_brain_ref_inv params g Hg)
    as (inN & vc & outd & factor & _ & Hvc & Hout & Hf & Hsel & _ & Hrest).
  split.
  - intros HZ. rewrite HZ in Hsel. exists (outd AxisZ), factor.
    split; [exact (Hout AxisZ)|]. split; [exact Hf | exact Hsel].
  - intros HZ. destruct (Hrest AxisZ) as [_ ->]; [congruence|].
    exact (Hvc AxisZ).
Qed.

(** ** Occurrences of a text in a concatenation *)

Lemma scan_app (rn seen a b : string) :
  Str.scan rn seen (a +:+ b)
  = Str.scan rn seen a || Str.scan rn (Str.rev_onto a seen) b.
Proof.
  revert seen. induction a as [|c a IH]; intros seen; [reflexivity|].
  rewrite string_app_cons. cbn.
  destruct (Str.drop_prefix rn (String c seen)); [reflexivity | apply IH].
Qed.

Lemma string_snoc (n : string) :
  n ≠ "" → ∃ n' c, n = n' +:+ String c "".
Proof.
  induction n as [|x n IH]; [congruence|]. intros _.
  destruct n as [|y n].
  - exists "", x. reflexivity.
  - destruct IH as (n' & c & E); [discriminate|].
    exists (String x n'), c. rewrite E. reflexivity.
Qed.

Lemma scan_self (n seen : string) : n ≠ "" → Str.scan (Str.rev n) seen n = true.
Proof.
  intros Hn. destruct (string_snoc n Hn) as (n' & c & ->).
  rewrite scan_app. apply orb_true_iff. right. cbn.
  replace (String c (Str.rev_onto n' seen))
    with (Str.rev (n' +:+ String c "") +:+ seen).
  - rewrite drop_prefix_app. reflexivity.
  - unfold Str.rev. rewrite <- rev_onto_acc, rev_onto_app. reflexivity.
Qed.

Lemma contains_scan (n s : string) :
  n ≠ "" → Str.contains n s = true → Str.scan (Str.rev n) "" s = true.
Proof.
  intros Hn (a & b & ->)%contains_elim.
  rewrite !scan_app, (scan_self n _ Hn).
  destruct (Str.scan _ _ a); reflexivity.
Qed.

Lemma never_not_contains (n s : string) :
  n ≠ "" → Str.never (Str.rev n) s → Str.contains n s = false.
Proof.
  intros Hn Hs. destruct (Str.contains n s) eqn:E; [|reflexivity].
  apply (contains_scan n s Hn) in E. rewrite Hs in E. discriminate E.
Qed.

Lemma never_app (rn a b : string) :
  Str.never rn a → Str.never rn b → Str.never rn (a +:+ b).
Proof. intros Ha Hb seen. rewrite scan_app, Ha, Hb. reflexivity. Qed.

Lemma never_all (x : ascii) (rn v : string) :
  Str.all (is_not x) v = true → Str.never (String x rn) v.
Proof.
  induction v as [|c v IH]; intros H seen; [reflexivity|].
  cbn in H. apply andb_true_iff in H as [Hc Hv].
  cbn. unfold is_not in Hc. rewrite Ascii.eqb_sym in Hc.
  apply negb_true_iff in Hc. rewrite Hc. apply IH. exact Hv.
Qed.

Lemma drop_prefix_agree (p a b r : string) :
  Str.drop_prefix p (a +:+ b) = Some r → Str.agree p a = true.
Proof.
  intros H%drop_prefix_Some. symmetry in H.
  exact (app_eq_agree p a r b H).
Qed.

Lemma safe_never_from (rn u p seen : string) :
  Str.safe rn u p = true → Str.scan rn (u +:+ seen) p = false.
Proof.
  revert u. induction p as [|c p IH]; intros u H; [reflexivity|].
  cbn in H. apply andb_true_iff in H as [Hc Hp]. cbn.
  change (String c (u +:+ seen)) with (String c u +:+ seen).
  destruct (Str.drop_prefix rn (String c u +:+ seen)) eqn:E.
  - apply drop_prefix_agree in E. rewrite E in Hc. discriminate Hc.
  - apply IH. exact Hp.
Qed.

Lemma safe_never (rn p : string) : Str.safe rn "" p = true → Str.never rn p.
Proof. intros H seen. exact (safe_never_from rn "" p seen H). Qed.

Lemma all_app (P : ascii → bool) (a b : string) :
  Str.all P (a +:+ b) = Str.all P a && Str.all P b.
Proof.
  induction a as [|c a IH]; [reflexivity|].
  rewrite string_app_cons. cbn. rewrite IH. apply andb_assoc.
Qed.

Lemma not_contains_all (x : ascii) (v : string) :
  Str.contains (String x "") v = false → Str.all (is_not x) v = true.
Proof.
  induction v as [|c v IH]; [reflexivity|]. cbn.
  unfold is_not. rewrite (Ascii.eqb_sym c x).
  destruct (Ascii.eqb x c); [discriminate|]. exact IH.
Qed.

(** ** The characters of a number written out *)

Lemma digit_char_no_eq (n : Z) :
  no_eq (ascii_of_nat (48 + Z.to_nat (n mod 10))) = true.
Proof.
  pose proof (Z.mod_pos_bound n 10 eq_refl) as H.
  assert (Hk : (Z.to_nat (n mod 10) < 10)%nat) by lia.
  revert Hk. generalize (Z.to_nat (n mod 10)). intros k Hk.
  do 10 (destruct k as [|k]; [reflexivity|]). lia.
Qed.

Lemma digits_of_fuel_no_eq (fuel : nat) (n : Z) (acc : string) :
  Str.all no_eq acc = true →
  Str.all no_eq (Conv.digits_of_fuel fuel n acc) = true.
Proof.
  revert n acc. induction fuel as [|fuel IH]; intros n acc Hacc; [exact Hacc|].
  cbn [Conv.digits_of_fuel].
  assert (Hacc' : Str.all no_eq
                    (String (ascii_of_nat (48 + Z.to_nat (n mod 10))) acc) = true).
  { cbn [Str.all]. rewrite digit_char_no_eq. exact Hacc. }
  destruct (n <? 10); [exact Hacc' | apply IH, Hacc'].
Qed.

Lemma digits_of_no_eq (n : Z) : Str.all no_eq (Conv.digits_of n) = true.
Proof. apply digits_of_fuel_no_eq. reflexivity. Qed.

Lemma zeros_no_eq (n : nat) : Str.all no_eq (Repr.zeros n) = true.
Proof. induction n as [|n IH]; [reflexivity | exact IH]. Qed.

Lemma take_no_eq (n : nat) (s : string) :
  Str.all no_eq s = true → Str.all no_eq (Repr.take n s) = true.
Proof.
  revert s. induction n as [|n IH]; intros [|c s] H; try reflexivity.
  cbn in *. apply andb_true_iff in H as [-> H]. apply IH, H.
Qed.

Lemma drop_no_eq (n : nat) (s : string) :
  Str.all no_eq s = true → Str.all no_eq (Repr.drop n s) = true.
Proof.
  revert s. induction n as [|n IH]; intros [|c s] H; try exact H.
  cbn in *. apply andb_true_iff in H as [_ H]. apply IH, H.
Qed.

Ltac no_eq_pieces :=
  rewrite ?all_app, ?andb_true_iff;
  repeat split;
  first [ reflexivity | assumption | apply digits_of_no_eq | apply zeros_no_eq
        | apply take_no_eq; assumption | apply drop_no_eq; assumption ].

Lemma fixed_no_eq (ds : string) (k : Z) :
  Str.all no_eq ds = true → Str.all no_eq (Repr.fixed ds k) = true.
Proof.
  intros H. unfold Repr.fixed.
  destruct (k <=? 0); [|destruct (_ <=? k)]; no_eq_pieces.
Qed.

Lemma scientific_no_eq (ds : string) (k : Z) :
  Str.all no_eq ds = true → Str.all no_eq (Repr.scientific ds k) = true.
Proof.
  intros H. unfold Repr.scientific.
  assert (Hm : Str.all no_eq
                 match ds with
                 | String d "" => String d ""
                 | String d rest => String d ("." +:+ rest)
                 | "" => ""
                 end = true).
  { destruct ds as [|d [|d' rest]]; [reflexivity | exact H |].
    cbn in H |- *. apply andb_true_iff in H as [-> H]. exact H. }
  destruct (k - 1 <? 0), (Z.abs (k - 1) <? 10); no_eq_pieces.
Qed.

Lemma repr_no_eq (x : spec_float) : Str.all no_eq (Repr.repr x) = true.
Proof.
  destruct x as [[]|[]| |s m e]; try reflexivity.
  unfold Repr.repr, Repr.shortest.
  destruct (Repr.fraction m e) as [num den].
  destruct (Repr.shortest_from _ _ _ _ _ _) as [c e10].
  destruct (Repr.strip_zeros _ _ _) as [c' e10'].
  rewrite all_app. apply andb_true_iff. split; [destruct s; reflexivity|].
  destruct (_ && _);
    [apply fixed_no_eq | apply scientific_no_eq]; apply digits_of_no_eq.
Qed.

(** ** The per-slice repetition time *)

Lemma never_value (v : string) :
  Str.all no_eq v = true → Str.never (Str.rev trslc) v.
Proof. exact (never_all "=" "clsrt--" v). Qed.

Lemma never_literal (p : string) :
  Str.safe (Str.rev trslc) "" p = true → Str.never (Str.rev trslc) p.
Proof. apply safe_never. Qed.

Lemma lower_no_eq (s : string) :
  Str.all no_eq (Str.lower s) = true → Str.all no_eq s = true.
Proof.
  induction s as [|c s IH]; [reflexivity|]. cbn.
  intros [Hc Hs]%andb_true_iff. rewrite (IH Hs), andb_true_r.
  unfold no_eq, is_not in *. destruct (Ascii.eqb c "=") eqn:E; [|reflexivity].
  apply Ascii.eqb_eq in E. subst c. discriminate Hc.
Qed.

Lemma get_no_eq (params : gmap string string) (k d : string) :
  (∀ v, params !! k = Some v → Str.contains "=" v = false) →
  Str.all no_eq d = true →
  Str.all no_eq (get params k d) = true.
Proof.
  intros H Hd. unfold get. destruct (params !! k) as [v|]; [|exact Hd].
  apply not_contains_all, H. reflexivity.
Qed.

Section NoTrslc.
Variable params : gmap string string.
Hypothesis values_plain :
  ∀ k v, k ∈ pulse_value_keys → params !! k = Some v →
         Str.contains "=" v = false.
Hypothesis ge : is_ge params = true.

Ltac plain_value :=
  lazymatch goal with
  | |- Str.all no_eq (get params ?k ?d) = true =>
      apply get_no_eq;
      [ intros v Hv; apply (values_plain k v); [compute_done | exact Hv]
      | first [reflexivity | plain_value] ]
  end.

Lemma seqtype_no_eq : Str.all no_eq (get params "seqtype" "epi") = true.
Proof.
  apply lower_no_eq. unfold is_ge in ge. apply eqb_true in ge.
  rewrite ge. reflexivity.
Qed.

Ltac never_pieces :=
  repeat apply never_app;
  first [ apply never_literal; reflexivity
        | apply never_value;
          first [ apply repr_no_eq | apply seqtype_no_eq | plain_value ] ].

Lemma never_pulse_head : Str.never (Str.rev trslc) (pulse_head params).
Proof. unfold pulse_head, possum_dir, fsl_dir, out_dir. never_pieces. Qed.

Lemma never_pulse_tail x :
  Str.never (Str.rev trslc) (pulse_tail params (Repr.repr x)).
Proof. unfold pulse_tail. never_pieces. Qed.

Lemma never_log_redirect : Str.never (Str.rev trslc) (log_redirect params).
Proof. unfold log_redirect, out_dir. never_pieces. Qed.

End NoTrslc.

Lemma is_ge_not_epi params : is_ge params = true → is_epi params = false.
Proof.
  unfold is_ge, is_epi. intros H%eqb_true. rewrite H. reflexivity.
Qed.

Lemma ge_pulse_command params slcthk :
  is_ge params = true →
  pulse_command params slcthk
  = (pulse_head params +:+ pulse_tail params slcthk) +:+ log_redirect params.
Proof.
  intros H. unfold pulse_command. rewrite (is_ge_not_epi params H).
  rewrite string_app_nil_r. reflexivity.
Qed.

Lemma epi_pulse_command_contains params slcthk :
  is_epi params = true →
  Str.contains trslc (pulse_command params slcthk) = true.
Proof.
  intros H. unfold pulse_command, pulse_trslc. rewrite H.
  rewrite !string_app_assoc. apply contains_intro.
Qed.

(** C5, as the specification has it: with the sequence type ge the pulse
    command would never contain [--trslc=].  The values of the parameters
    are written into the command as they are: an echo time that carries
    the text brings it into the command. *)
Lemma ge_pulse_command_may_contain_trslc :
  ∃ g cmds,
    is_ge params_ge = true
    ∧ compute_brain_ref params_ge = Ok g
    ∧ generate_shell_commands params_ge = Ok cmds
    ∧ (pulse_command params_ge (Repr.repr (pixdim g AxisZ)) ∈ cmds)
    ∧ Str.contains "--trslc="
        (pulse_command params_ge (Repr.repr (pixdim g AxisZ))) = true.
Proof.
  eexists _, _.
  split; [vm_compute; reflexivity|].
  split; [vm_compute; reflexivity|].
  split; [vm_compute; reflexivity|].
  split; [compute_done | vm_compute; reflexivity].
Qed.

(** C5, amended.  When the sequence type is epi, in any case of the
    letters, the pulse command contains a [--trslc=] argument.  When it is
    ge, in any case of the letters, the builder leaves that argument out:
    the command is the one of epi without it, and it does not contain
    [--trslc=] provided none of the parameter values written into the
    command contains the character [=]. *)
Theorem trslc_for_epi_only (params : gmap string string) (cmds : list string) :
  is_standard params = true →
  generate_shell_commands params = Ok cmds →
  ∃ g,
    compute_brain_ref params = Ok g
    ∧ let slcthk := Repr.repr (pixdim g AxisZ) in
      cmds = before_pulse params g ++ [pulse_command params slcthk]
             ++ noise_stage params ++ final_cmds params
      ∧ (is_epi params = true →
         pulse_command params slcthk
         = ((pulse_head params
             +:+ "--trslc=" +:+ get params "trslc" "0.12" +:+ " ")
            +:+ pulse_tail params slcthk) +:+ log_redirect params
         ∧ Str.contains "--trslc=" (pulse_command params slcthk) = true)
      ∧ (is_ge params = true →
         pulse_command params slcthk
         = (pulse_head params +:+ pulse_tail params slcthk)
           +:+ log_redirect params
         ∧ ((∀ k v, k ∈ pulse_value_keys → params !! k = Some v →
                    Str.contains "=" v = false) →
            Str.contains "--trslc=" (pulse_command params slcthk) = false)).
Proof.
  intros Hstd Hgen.
  destruct (standard_sequence_staged params cmds Hstd Hgen) as (g & Hg & ->).
  exists g. split; [exact Hg|]. cbn zeta.
  split; [reflexivity|]. split.
  - intros Hepi. split; [|exact (epi_pulse_command_contains params _ Hepi)].
    unfold pulse_command, pulse_trslc. rewrite Hepi. reflexivity.
  - intros Hge. split; [exact (ge_pulse_command params _ Hge)|].
    intros Hvalues. rewrite (ge_pulse_command params _ Hge).
    apply (never_not_contains trslc); [discriminate|].
    apply never_app; [apply never_app|].
    + exact (never_pulse_head params Hvalues Hge).
    + exact (never_pulse_tail params Hvalues _).
    + exact (never_log_redirect params Hvalues).
Qed.

(** ** The pattern of the setup file *)

Lemma take_drop_while (cls : ascii → bool) (s : string) :
  s = Str.take_while cls s +:+ Str.drop_while cls s.
Proof.
  induction s as [|c s IH]; [reflexivity|]. cbn.
  destruct (cls c); [|reflexivity].
  rewrite string_app_cons. f_equal. exact IH.
Qed.

Lemma take_while_all (cls : ascii → bool) (s : string) :
  Str.all cls (Str.take_while cls s) = true.
Proof.
  induction s as [|c s IH]; [reflexivity|]. cbn.
  destruct (cls c) eqn:E; [|reflexivity]. cbn. rewrite E. exact IH.
Qed.

(** A run of [cls] followed by another character is what [take_while]
    takes. *)
Lemma take_while_stop (cls : ascii → bool) (a : string) c (r : string) :
  Str.all cls a = true → cls c = false →
  Str.take_while cls (a +:+ String c r) = a
  ∧ Str.drop_while cls (a +:+ String c r) = String c r.
Proof.
  intros Ha Hc. induction a as [|x a IH].
  - change ("" +:+ String c r) with (String c r). cbn. rewrite Hc.
    split; reflexivity.
  - cbn in Ha. apply andb_true_iff in Ha as [Hx Ha].
    rewrite string_app_cons. cbn. rewrite Hx.
    destruct (IH Ha) as [-> ->]. split; reflexivity.
Qed.

Lemma drop_while_head (cls : ascii → bool) (s : string) c r :
  Str.drop_while cls s = String c r → cls c = false.
Proof.
  induction s as [|x s IH]; [discriminate|]. cbn.
  destruct (cls x) eqn:E; [exact IH|]. intros [= <- _]. exact E.
Qed.

Lemma rev_onto_length (a acc : string) :
  String.length (Str.rev_onto a acc) = (String.length a + String.length acc)%nat.
Proof.
  revert acc. induction a as [|c a IH]; intros acc; [reflexivity|].
  cbn. rewrite IH. cbn. lia.
Qed.

Lemma rev_involutive_onto (a b c : string) :
  Str.rev_onto (Str.rev_onto a b) c = Str.rev_onto b (a +:+ c).
Proof.
  revert b c. induction a as [|x a IH]; intros b c; [reflexivity|].
  cbn. rewrite IH. reflexivity.
Qed.

(** A repetition whose continuation fails on a character of its class
    gives nothing back: it takes all it can. *)
Lemma greedy_takes_all {R} (cls : ascii → bool)
    (k : string → string → option R) (taken s : string) :
  (∀ t c r, cls c = true → k t (String c r) = None) →
  Re.greedy cls k taken s
  = k (Str.rev_onto (Str.take_while cls s) taken) (Str.drop_while cls s).
Proof.
  intros Hk. revert taken. induction s as [|c s IH]; intros taken; [reflexivity|].
  cbn. destruct (cls c) eqn:E; [|reflexivity].
  rewrite IH. cbn.
  destruct (k _ (Str.drop_while cls s)) eqn:Ek; [reflexivity|].
  apply Hk, E.
Qed.

Lemma drop_prefix_char_None (x c : ascii) (r : string) :
  Ascii.eqb x c = false → Str.drop_prefix (String x "") (String c r) = None.
Proof. intros H. cbn. rewrite H. reflexivity. Qed.

Lemma match_at_fsf (s : string) :
  Re.match_at fsf_pattern s
  = (fun kv : string * string => [kv.1; kv.2]) <$> match_fsf s.
Proof.
  unfold fsf_pattern, match_fsf. cbn [Re.match_at].
  destruct (Str.drop_prefix "set entries($w," s) as [r1|]; [|reflexivity].
  cbn [mbind option_bind].
  rewrite greedy_takes_all.
  2:{ intros t c r Hc. cbn [Nat.leb].
      rewrite drop_prefix_char_None; [reflexivity|].
      unfold is_not in Hc. apply negb_true_iff in Hc.
      rewrite Ascii.eqb_sym. exact Hc. }
  cbn [Nat.leb].
  destruct (Str.drop_prefix ")" _) as [r2|]; [|reflexivity].
  cbn [mbind option_bind].
  rewrite greedy_takes_all.
  2:{ intros t c r Hc.
      rewrite drop_prefix_char_None;
        [destruct (String.length t); reflexivity|].
      destruct (Ascii.eqb (ascii_of_nat 34) c) eqn:E; [|reflexivity].
      apply Ascii.eqb_eq in E. subst c. discriminate Hc. }
  rewrite rev_onto_length, Nat.add_0_r.
  destruct (String.length (Str.take_while Str.isspace r2)); [reflexivity|].
  change (String (ascii_of_nat 34) "") with dq.
  destruct (Str.drop_prefix dq (Str.drop_while Str.isspace r2)) as [r3|];
    [|reflexivity].
  cbn [mbind option_bind].
  rewrite greedy_takes_all.
  2:{ intros t c r Hc. unfold dq.
      rewrite drop_prefix_char_None; [reflexivity|].
      unfold is_not in Hc. apply negb_true_iff in Hc.
      rewrite Ascii.eqb_sym. exact Hc. }
  destruct (Str.drop_prefix dq _) as [r4|]; [|reflexivity].
  cbn. rewrite !(rev_involutive_onto _ "" ""), !string_app_nil_r. reflexivity.
Qed.

Lemma match_fsf_sound (s k v : string) :
  match_fsf s = Some (k, v) → matches_here s k v.
Proof.
  unfold match_fsf.
  destruct (Str.drop_prefix "set entries($w," s) as [r1|] eqn:E1; [|discriminate].
  cbn [mbind option_bind].
  destruct (Str.drop_prefix ")" _) as [r2|] eqn:E2; [|discriminate].
  cbn [mbind option_bind].
  destruct (1 <=? _)%nat eqn:El; [|discriminate].
  destruct (Str.drop_prefix dq (Str.drop_while Str.isspace r2)) as [r3|] eqn:E3;
    [|discriminate].
  cbn [mbind option_bind].
  destruct (Str.drop_prefix dq (Str.drop_while _ r3)) as [r4|] eqn:E4;
    [|discriminate].
  cbn [mbind option_bind]. intros [= <- <-].
  apply drop_prefix_Some in E1, E2, E3, E4.
  exists (Str.take_while Str.isspace r2), r4. split.
  - unfold assignment. change ("" +:+ ?x) with x.
    rewrite <- E4, <- (take_drop_while _ r3), <- E3,
      <- (take_drop_while _ r2), <- E2, <- (take_drop_while _ r1).
    exact E1.
  - split; [apply take_while_all|]. split.
    + intros Hnil. rewrite Hnil in El. discriminate El.
    + split; apply take_while_all.
Qed.

Lemma char_app (c : ascii) (x : string) : String c "" +:+ x = String c x.
Proof. reflexivity. Qed.

Lemma drop_prefix_char (c : ascii) (x : string) :
  Str.drop_prefix (String c "") (String c x) = Some x.
Proof. cbn. rewrite Ascii.eqb_refl. reflexivity. Qed.

Lemma match_fsf_complete (s k v : string) :
  matches_here s k v → match_fsf s = Some (k, v).
Proof.
  intros (ws & post & -> & Hk & Hws & Hsp & Hv).
  unfold match_fsf, assignment, dq. change ("" +:+ ?x) with x.
  rewrite drop_prefix_app. cbn [mbind option_bind].
  rewrite !char_app.
  destruct (take_while_stop (is_not ")"%char) k ")"%char
              (ws +:+ String (ascii_of_nat 34)
                        (v +:+ String (ascii_of_nat 34) post))
              Hk eq_refl) as [-> ->].
  rewrite drop_prefix_char. cbn [mbind option_bind].
  destruct (take_while_stop Str.isspace ws (ascii_of_nat 34)
              (v +:+ String (ascii_of_nat 34) post) Hsp eq_refl) as [-> ->].
  destruct ws as [|w ws]; [contradiction|]. cbn [String.length Nat.leb].
  rewrite drop_prefix_char. cbn [mbind option_bind].
  destruct (take_while_stop (is_not (ascii_of_nat 34)) v (ascii_of_nat 34)
              post Hv eq_refl) as [-> ->].
  rewrite drop_prefix_char. reflexivity.
Qed.

Lemma search_Some (p : Re.pattern) (line : string) gs :
  Re.search p line = Some gs →
  ∃ pre rest,
    line = pre +:+ rest ∧ Re.match_at p rest = Some gs
    ∧ ∀ pre' rest', line = pre' +:+ rest' →
        (String.length pre' < String.length pre)%nat →
        Re.match_at p rest' = None.
Proof.
  induction line as [|c line IH]; cbn.
  - destruct (Re.match_at p "") eqn:E; [|discriminate]. intros [= ->].
    exists "", "". split; [reflexivity|]. split; [exact E|].
    intros pre' rest' _ Hlt. cbn in Hlt. lia.
  - destruct (Re.match_at p (String c line)) eqn:E.
    + intros [= ->]. exists "", (String c line).
      split; [reflexivity|]. split; [exact E|].
      intros pre' rest' _ Hlt. cbn in Hlt. lia.
    + intros H. destruct (IH H) as (pre & rest & -> & Hm & Hleft).
      exists (String c pre), rest. split; [reflexivity|]. split; [exact Hm|].
      intros [|c' pre'] rest' Heq Hlt.
      * change ("" +:+ rest') with rest' in Heq. subst rest'. exact E.
      * rewrite !string_app_cons in Heq. injection Heq as _ Heq.
        apply (Hleft pre' rest' Heq). cbn in Hlt. lia.
Qed.

Lemma search_None (p : Re.pattern) (line : string) :
  Re.search p line = None →
  ∀ pre rest, line = pre +:+ rest → Re.match_at p rest = None.
Proof.
  induction line as [|c line IH]; cbn.
  - destruct (Re.match_at p "") eqn:E; [discriminate|].
    intros _ [|c' pre] rest Heq; [|discriminate].
    change ("" +:+ rest) with rest in Heq. subst rest. exact E.
  - destruct (Re.match_at p (String c line)) eqn:E; [discriminate|].
    intros H [|c' pre] rest Heq.
    + change ("" +:+ rest) with rest in Heq. subst rest. exact E.
    + rewrite string_app_cons in Heq. injection Heq as _ Heq.
      exact (IH H pre rest Heq).
Qed.

Lemma assignment_split (pre k ws v post : string) :
  assignment pre k ws v post = pre +:+ assignment "" k ws v post.
Proof. reflexivity. Qed.

(** What a line contributes to the parameter set. *)
Lemma parse_line_binding (params : gmap string string) (line : string) :
  parse_line params line
  = match line_binding line with
    | Some (key, value) => <[key := value]> params
    | None => params
    end.
Proof.
  unfold parse_line, line_binding.
  destruct (Re.search fsf_pattern line) as [[|g1 [|g2 [|g3 gs]]]|]; reflexivity.
Qed.

Lemma line_binding_spec (line : string) :
  (line_binding line = None
   ∧ ∀ pre k ws v post,
       well_formed k ws v → line ≠ assignment pre k ws v post)
  ∨ (∃ pre k ws v post,
       line = assignment pre k ws v post ∧ well_formed k ws v
       ∧ (∀ pre' k' ws' v' post',
             well_formed k' ws' v' → line = assignment pre' k' ws' v' post' →
             (String.length pre <= String.length pre')%nat)
       ∧ line_binding line = Some (Str.strip k, Str.strip v)).
Proof.
  unfold line_binding.
  destruct (Re.search fsf_pattern line) as [gs|] eqn:E.
  - right. apply search_Some in E as (pre & rest & -> & Hm & Hleft).
    rewrite match_at_fsf in Hm.
    destruct (match_fsf rest) as [[k v]|] eqn:Em; [|discriminate].
    injection Hm as <-.
    destruct (match_fsf_sound rest k v Em) as (ws & post & -> & Hwf).
    exists pre, k, ws, v, post.
    split; [reflexivity|]. split; [exact Hwf|]. split; [|reflexivity].
    intros pre' k' ws' v' post' Hwf' Heq.
    destruct (Nat.le_gt_cases (String.length pre) (String.length pre'))
      as [Hle|Hlt]; [exact Hle|].
    rewrite (assignment_split pre') in Heq.
    specialize (Hleft pre' _ Heq Hlt).
    rewrite match_at_fsf, (match_fsf_complete _ k' v') in Hleft;
      [discriminate|].
    exists ws', post'. split; [reflexivity | exact Hwf'].
  - left. split; [reflexivity|].
    intros pre k ws v post Hwf ->.
    pose proof (search_None _ _ E pre _ (assignment_split pre k ws v post)) as Hm.
    rewrite match_at_fsf, (match_fsf_complete _ k v) in Hm; [discriminate|].
    exists ws, post. split; [reflexivity | exact Hwf].
Qed.

(** C9, as the specification has it: the value stored would be the text
    between the quotes as it is.  White space at both ends of it is
    dropped. *)
Lemma stored_value_is_not_the_quoted_text :
  let line := "set entries($w,te) " +:+ dq +:+ " 0.03 " +:+ dq in
  line = assignment "" "te" " " " 0.03 " ""
  ∧ well_formed "te" " " " 0.03 "
  ∧ parse_fsf [line] !! "te" = Some "0.03"
  ∧ parse_fsf [line] !! "te" ≠ Some " 0.03 ".
Proof.
  cbn zeta. split; [reflexivity|]. split.
  - repeat split. discriminate.
  - split; [vm_compute; reflexivity | vm_compute; discriminate].
Qed.

(** C9, amended.  A line contributes a pair to the parameter set exactly
    when some part of it reads [set entries($w,KEY)], white space, and a
    VALUE between double quotes (KEY without closing parenthesis, VALUE
    without double quote); any other line adds nothing.  The pair comes
    from the leftmost such part; the key stored is KEY and the value
    stored is VALUE, each without the white space at its two ends and
    otherwise as written: nothing is unescaped. *)
Theorem parse_line_contribution (params : gmap string string) (line : string) :
  (parse_line params line = params
   ∧ ∀ pre k ws v post,
       well_formed k ws v → line ≠ assignment pre k ws v post)
  ∨ (∃ pre k ws v post,
       line = assignment pre k ws v post ∧ well_formed k ws v
       ∧ (∀ pre' k' ws' v' post',
             well_formed k' ws' v' → line = assignment pre' k' ws' v' post' →
             (String.length pre <= String.length pre')%nat)
       ∧ parse_line params line = <[Str.strip k := Str.strip v]> params).
Proof.
  rewrite parse_line_binding.
  destruct (line_binding_spec line)
    as [[-> Hnot]|(pre & k & ws & v & post & Hl & Hwf & Hleft & ->)].
  - left. split; [reflexivity | exact Hnot].
  - right. exists pre, k, ws, v, post. repeat split; try assumption.
    all: apply Hwf.
Qed.

(** ** A key on several lines *)

Lemma lookup_parse_lines (f : list string) (params : gmap string string) key :
  fold_left parse_line f params !! key = fold_left (rebind key) f (params !! key).
Proof.
  revert params. induction f as [|line f IH]; intros params; [reflexivity|].
  cbn [fold_left]. rewrite IH. f_equal.
  rewrite parse_line_binding. unfold rebind.
  destruct (line_binding line) as [[k v]|]; [|reflexivity].
  destruct (decide (k = key)) as [->|Hne].
  - apply lookup_insert_eq.
  - apply lookup_insert_ne. exact Hne.
Qed.

Lemma rebind_none (key : string) (f : list string) acc :
  (∀ l v, l ∈ f → line_binding l ≠ Some (key, v)) →
  fold_left (rebind key) f acc = acc.
Proof.
  revert acc. induction f as [|l f IH]; intros acc H; [reflexivity|].
  cbn [fold_left]. rewrite IH.
  - unfold rebind. destruct (line_binding l) as [[k v]|] eqn:E; [|reflexivity].
    destruct (decide (k = key)) as [->|]; [|reflexivity].
    exfalso. apply (H l v); [left | exact E].
  - intros l' v Hl'. apply H. right. exact Hl'.
Qed.

Lemma rebind_same (key : string) (line : string) v acc :
  line_binding line = Some (key, v) → rebind key acc line = Some v.
Proof.
  intros H. unfold rebind. rewrite H.
  destruct (decide (key = key)); [reflexivity | contradiction].
Qed.

Lemma rebind_overwritten (key k : string) (early line : string) v0 v
    (f : list string) acc :
  line_binding early = Some (key, v0) →
  line_binding line = Some (key, v) →
  rebind k (fold_left (rebind k) f (rebind k acc early)) line
  = rebind k (fold_left (rebind k) f acc) line.
Proof.
  intros He Hl. destruct (decide (key = k)) as [->|Hne].
  - rewrite !(rebind_same k line v _ Hl). reflexivity.
  - f_equal. f_equal. unfold rebind. rewrite He.
    destruct (decide (key = k)); [contradiction | reflexivity].
Qed.

Lemma parse_fsf_overwritten (f0 f1 f2 : list string) (early line : string)
    key v0 v :
  line_binding early = Some (key, v0) →
  line_binding line = Some (key, v) →
  parse_fsf (f0 ++ early :: f1 ++ line :: f2) = parse_fsf (f0 ++ f1 ++ line :: f2).
Proof.
  intros He Hl. apply map_eq. intros k. unfold parse_fsf.
  rewrite !lookup_parse_lines.
  rewrite !fold_left_app. cbn [fold_left]. rewrite !fold_left_app.
  cbn [fold_left]. f_equal.
  exact (rebind_overwritten key k early line v0 v f1 _ He Hl).
Qed.

(** C10. When a key is on more than one matching line, the parameter set
    binds it to the value of the last of these lines; an earlier line for
    the key changes neither the parameter set nor the command sequence. *)
Theorem last_line_of_a_key_wins
    (f0 f1 f2 : list string) (early line : string) (key v0 value : string) :
  line_binding early = Some (key, v0) →
  line_binding line = Some (key, value) →
  (∀ l v, l ∈ f2 → line_binding l ≠ Some (key, v)) →
  parse_fsf (f0 ++ early :: f1 ++ line :: f2) !! key = Some value
  ∧ parse_fsf (f0 ++ early :: f1 ++ line :: f2)
    = parse_fsf (f0 ++ f1 ++ line :: f2)
  ∧ generate_shell_commands (parse_fsf (f0 ++ early :: f1 ++ line :: f2))
    = generate_shell_commands (parse_fsf (f0 ++ f1 ++ line :: f2)).
Proof.
  intros He Hl Hlast.
  pose proof (parse_fsf_overwritten f0 f1 f2 early line key v0 value He Hl) as Heq.
  split; [|split; [exact Heq | rewrite Heq; reflexivity]].
  unfold parse_fsf. rewrite lookup_parse_lines.
  rewrite fold_left_app. cbn [fold_left]. rewrite fold_left_app.
  cbn [fold_left]. rewrite (rebind_none key f2 _ Hlast).
  exact (rebind_same key line value _ Hl).
Qed.

(** * The properties on the examples *)

Example study_commands :
  generate_shell_commands study = Ok study_cmds
  ∧ study_cmds =
    [ "mkdir -p ./simdir";
      "/usr/local/fsl/bin/fslcreatehd 64.0 64.0 22 1 3.0 3.0 4.0 1 0 0 0 16 ./simdir/brainref";
      "/usr/local/fsl/bin/flirt -in  -ref ./simdir/brainref -applyxfm -out ./simdir/brain";
      "cp /data/MRpar_3T ./simdir/MRpar";
      "cp /data/slcprof ./simdir/slcprof";
      "cp /data/motion ./simdir/motion";
      "/usr/local/fsl/bin/flirt -in /data/activation.nii.gz -ref ./simdir/brainref -applyxfm -out ./simdir/T2";
      "cp /data/timecourse ./simdir/T2timecourse";
      "/usr/local/fsl/bin/flirt -in /data/b0.nii.gz -ref ./simdir/brainref -applyxfm -out ./simdir/b0newref";
      "/usr/local/fsl/bin/fslroi ./simdir/b0newref ./simdir/b0z_dz.nii.gz 0 1";
      "/usr/local/fsl/bin/fslmaths ./simdir/b0z_dz.nii.gz -mul 1.5 -div 1000000 ./simdir/b0z_dz.nii.gz";
      "/usr/local/fsl/bin/pulse -i ./simdir/brain -o ./simdir/pulse --seq=GE --te=0.03 --tr=3 --nx=64 --ny=64 --numslc=30 --dx=3.0 --dy=3.0 --slcthk=4.0 --numvol=1 --zstart=0 --bw=100000 --readdir=x+ --phasedir=y+ --slcdir=z+ --maxG=0.055 --riset=0.00022 -v >> ./simdir/possum.log 2>&1";
      "echo " +:+ dq +:+ "snr 20" +:+ dq +:+ " > ./simdir/noise";
      "/usr/local/fsl/bin/possumX ./simdir -n 1 -t 0 -s 10000 >> ./simdir/possum.log 2>&1";
      "echo 'POSSUM setup file generated.' > ./simdir/possum.fsf" ].
Proof. split; vm_compute; reflexivity. Qed.

(** Texts and floats: what [float] reads and [repr] writes. *)
Example float_texts :
  map (fun s => match Conv.float_of_str s with
                | Ok x => Repr.repr x
                | Raise _ => "error"
                end)
      [ "3.0"; " 0.1 "; "22.5"; "4"; "1e16"; "1e15"; "123456789012345678";
        "0.00001"; "5e-324"; "1.7976931348623157e308"; "0.30000000000000004";
        "-2.5"; "1_0e-1"; "-inf"; "NaN"; "1e400"; "-0"; "1e"; "."; "0x10"; "" ]
  = [ "3.0"; "0.1"; "22.5"; "4.0"; "1e+16"; "1000000000000000.0";
      "1.2345678901234568e+17"; "1e-05"; "5e-324"; "1.7976931348623157e+308";
      "0.30000000000000004"; "-2.5"; "1.0"; "-inf"; "nan"; "inf"; "-0.0";
      "error"; "error"; "error"; "error" ].
Proof. vm_compute. reflexivity. Qed.

Example round_ties_to_even :
  (x ← Conv.float_of_str "22.5"; Num.round x) = Ok 22
  ∧ (x ← Conv.float_of_str "23.5"; Num.round x) = Ok 24
  ∧ (x ← Conv.float_of_str "-0.5"; Num.round x) = Ok 0
  ∧ (x ← Conv.float_of_str "2.5000000000000004"; Num.round x) = Ok 3
  ∧ (x ← Conv.float_of_str "inf"; Num.round x) = Raise OverflowError.
Proof. vm_compute. repeat split. Qed.

(** C3 on the study. *)
Lemma slcthk_is_newpixdim3_witness :
  is_standard study = true
  ∧ generate_shell_commands study = Ok study_cmds
  ∧ ∃ g,
      compute_brain_ref study = Ok g
      ∧ study_cmds = before_pulse study g
                     ++ [pulse_command study (Repr.repr (pixdim g AxisZ))]
                     ++ noise_stage study ++ final_cmds study
      ∧ (∃ a b, ∀ t,
            pulse_command study t = a +:+ " --slcthk=" +:+ t +:+ " " +:+ b)
      ∧ (selected_axis study = AxisZ →
         ∃ outd factor,
           Conv.float_of_str (get study "outsize_dz" "1") = Ok outd
           ∧ Conv.float_of_str (get study "slcsampfactor" "1") = Ok factor
           ∧ Num.div outd factor = Ok (pixdim g AxisZ))
      ∧ (selected_axis study ≠ AxisZ →
         Conv.float_of_str (get study "vcZ" "1") = Ok (pixdim g AxisZ)).
Proof.
  split; [vm_compute; reflexivity|]. split; [vm_compute; reflexivity|].
  apply (slcthk_is_newpixdim3 study study_cmds); vm_compute; reflexivity.
Defined.

(** C4 on the study. *)
Lemma noise_file_written_iff_flag_is_1_witness :
  generate_shell_commands study = Ok study_cmds
  ∧ (get study "noise_yn" "0" = "1" →
     ∃ pre line post,
       study_cmds = pre ++ [noise_write (out_dir study) line] ++ post
       ∧ (∀ c, c ∈ pre ++ post → ¬ writes_noise study c)
       ∧ (Str.lower (get study "noiseunits" "sigma") = "snr" →
          line = "snr " +:+ get study "noisesnr" "10")
       ∧ (Str.lower (get study "noiseunits" "sigma") ≠ "snr" →
          line = "sigma " +:+ get study "noisesigma" "0"))
  ∧ (get study "noise_yn" "0" ≠ "1" →
     ∀ c, c ∈ study_cmds → ¬ writes_noise study c).
Proof.
  split; [vm_compute; reflexivity|].
  apply (noise_file_written_iff_flag_is_1 study study_cmds).
  vm_compute. reflexivity.
Defined.

(** C5 on the study: its sequence is ge and no value has an equals sign. *)
Lemma trslc_for_epi_only_witness :
  is_standard study = true
  ∧ generate_shell_commands study = Ok study_cmds
  ∧ is_ge study = true
  ∧ (∀ k v, k ∈ pulse_value_keys → study !! k = Some v →
            Str.contains "=" v = false)
  ∧ ∃ g,
      compute_brain_ref study = Ok g
      ∧ Str.contains "--trslc="
          (pulse_command study (Repr.repr (pixdim g AxisZ))) = false.
Proof.
  assert (Hstd : is_standard study = true) by (vm_compute; reflexivity).
  assert (Hgen : generate_shell_commands study = Ok study_cmds)
    by (vm_compute; reflexivity).
  assert (Hge : is_ge study = true) by (vm_compute; reflexivity).
  assert (Hval : ∀ k v, k ∈ pulse_value_keys → study !! k = Some v →
                        Str.contains "=" v = false).
  { intros k v Hk Hv. unfold pulse_value_keys in Hk.
    elems Hk; vm_compute in Hv; first [discriminate Hv | injection Hv as <-];
      reflexivity. }
  split; [exact Hstd|]. split; [exact Hgen|]. split; [exact Hge|].
  split; [exact Hval|].
  destruct (trslc_for_epi_only study study_cmds Hstd Hgen)
    as (g & Hg & _ & _ & Hno).
  exists g. split; [exact Hg|]. exact (proj2 (Hno Hge) Hval).
Defined.

(** C6 on the study with a pulse sequence of its own. *)
Lemma custom_pulse_copies_family_witness :
  is_standard custom_study = false
  ∧ generate_shell_commands custom_study = Ok custom_study_cmds
  ∧ let cuspulse := get custom_study "cuspulse" "" in
    let copies :=
      map (fun ext => "cp " +:+ cuspulse +:+ ext +:+ " " +:+ out_dir custom_study
                        +:+ "/pulse" +:+ ext)
          [""; ".info"; ".readme"; ".posx"; ".posy"; ".posz"; ".com"] in
    ∃ pre post,
      custom_study_cmds
      = pre ++ (if Str.truthy cuspulse then copies else []) ++ post
      ∧ length copies = 7%nat
      ∧ (∀ c, c ∈ copies → copies_pulse custom_study c)
      ∧ (∀ c, c ∈ pre ++ post → ¬ copies_pulse custom_study c)
      ∧ generate_shell_commands (<["cuspulse" := ""]> custom_study)
        = Ok (pre ++ post).
Proof.
  split; [vm_compute; reflexivity|]. split; [vm_compute; reflexivity|].
  apply (custom_pulse_copies_family custom_study custom_study_cmds);
    vm_compute; reflexivity.
Defined.

(** C7 on the study, the motion file left out. *)
Lemma empty_file_parameter_removes_its_commands_witness :
  "mot" ∈ file_keys
  ∧ (∀ k, k ≠ "mot" → delete "mot" study !! k = study !! k)
  ∧ get (delete "mot" study) "mot" "" = ""
  ∧ generate_shell_commands study = Ok study_cmds
  ∧ ∃ pre post,
      study_cmds = pre ++ file_cmds "mot" study ++ post
      ∧ generate_shell_commands (delete "mot" study) = Ok (pre ++ post).
Proof.
  assert (H1 : "mot" ∈ file_keys) by compute_done.
  assert (H2 : ∀ k, k ≠ "mot" → delete "mot" study !! k = study !! k).
  { intros k Hk. apply lookup_delete_ne. congruence. }
  assert (H3 : get (delete "mot" study) "mot" "" = "")
    by (vm_compute; reflexivity).
  assert (H4 : generate_shell_commands study = Ok study_cmds)
    by (vm_compute; reflexivity).
  split; [exact H1|]. split; [exact H2|]. split; [exact H3|].
  split; [exact H4|].
  exact (empty_file_parameter_removes_its_commands
           study (delete "mot" study) "mot" study_cmds H1 H2 H3 H4).
Defined.

(** C8 on the study. *)
Lemma field_file_commands_witness :
  get study "b0f" "" ≠ ""
  ∧ generate_shell_commands study = Ok study_cmds
  ∧ ∃ pre post,
      study_cmds = pre
        ++ [ "/usr/local/fsl/bin/flirt -in /data/b0.nii.gz -ref ./simdir/brainref -applyxfm -out ./simdir/b0newref";
             "/usr/local/fsl/bin/fslroi ./simdir/b0newref ./simdir/b0z_dz.nii.gz 0 1";
             "/usr/local/fsl/bin/fslmaths ./simdir/b0z_dz.nii.gz -mul 1.5 -div 1000000 ./simdir/b0z_dz.nii.gz" ]
        ++ post
      ∧ generate_shell_commands (<["b0f" := ""]> study) = Ok (pre ++ post)
      ∧ (∀ c, c ∈ pre ++ post → ¬ scales_field study c)
      ∧ (Str.lower (get study "b0units" "ppm") ≠ "ppm" →
         ∀ c, c ∈ study_cmds → ¬ scales_field study c).
Proof.
  assert (H1 : get study "b0f" "" ≠ "") by (vm_compute; discriminate).
  assert (H2 : generate_shell_commands study = Ok study_cmds)
    by (vm_compute; reflexivity).
  split; [exact H1|]. split; [exact H2|].
  destruct (field_file_commands study study_cmds H1 H2)
    as (pre & post & Hc & Hg & Hn & Hu).
  exists pre, post.
  split; [exact Hc|]. split; [exact Hg|]. split; [exact Hn | exact Hu].
Defined.

(** C10 on a setup file with two echo times. *)
Lemma last_line_of_a_key_wins_witness :
  line_binding te_early = Some ("te", "0.03")
  ∧ line_binding te_late = Some ("te", "0.05")
  ∧ (∀ l v, l ∈ [tr_line] → line_binding l ≠ Some ("te", v))
  ∧ parse_fsf ([] ++ te_early :: ["# POSSUM"] ++ te_late :: [tr_line]) !! "te"
    = Some "0.05"
  ∧ parse_fsf ([] ++ te_early :: ["# POSSUM"] ++ te_late :: [tr_line])
    = parse_fsf ([] ++ ["# POSSUM"] ++ te_late :: [tr_line])
  ∧ generate_shell_commands
      (parse_fsf ([] ++ te_early :: ["# POSSUM"] ++ te_late :: [tr_line]))
    = generate_shell_commands
        (parse_fsf ([] ++ ["# POSSUM"] ++ te_late :: [tr_line])).
Proof.
  assert (H1 : line_binding te_early = Some ("te", "0.03"))
    by (vm_compute; reflexivity).
  assert (H2 : line_binding te_late = Some ("te", "0.05"))
    by (vm_compute; reflexivity).
  assert (H3 : ∀ l v, l ∈ [tr_line] → line_binding l ≠ Some ("te", v)).
  { intros l v Hl. elems Hl. vm_compute. discriminate. }
  split; [exact H1|]. split; [exact H2|]. split; [exact H3|].
  exact (last_line_of_a_key_wins [] ["# POSSUM"] [tr_line] te_early te_late
           "te" "0.03" "0.05" H1 H2 H3).
Defined.

(** * Further properties *)

(** ** White space *)

(** * Further properties *)

(** ** Stripping *)

Lemma all_lstrip (P : ascii → bool) (s : string) :
  Str.all P s = true → Str.all P (Str.lstrip s) = true.
Proof.
  induction s as [|c s IH]; [trivial|]. intros H. cbn.
  destruct (Str.isspace c); [|exact H].
  cbn in H. apply andb_true_iff in H as [_ H]. exact (IH H).
Qed.

Lemma all_rstrip (P : ascii → bool) (s : string) :
  Str.all P s = true → Str.all P (Str.rstrip s) = true.
Proof.
  induction s as [|c s IH]; [trivial|]. intros H.
  cbn in H. apply andb_true_iff in H as [Hc H]. specialize (IH H). cbn.
  destruct (Str.rstrip s) as [|d r].
  - destruct (Str.isspace c); [reflexivity|]. cbn. rewrite Hc. reflexivity.
  - cbn [Str.all]. rewrite Hc. exact IH.
Qed.

Lemma all_strip (P : ascii → bool) (s : string) :
  Str.all P s = true → Str.all P (Str.strip s) = true.
Proof. intros H. apply all_rstrip, all_lstrip, H. Qed.

Lemma rstrip_idempotent (s : string) : Str.rstrip (Str.rstrip s) = Str.rstrip s.
Proof.
  induction s as [|c s IH]; [reflexivity|]. cbn.
  destruct (Str.rstrip s) as [|d r] eqn:E.
  - destruct (Str.isspace c) eqn:Ec; [reflexivity|]. cbn. rewrite Ec.
    reflexivity.
  - cbn [Str.rstrip] in IH |- *. fold (Str.rstrip r) in IH |- *.
    rewrite IH. reflexivity.
Qed.


Lemma lstrip_starts_clean (s : string) : starts_clean (Str.lstrip s) = true.
Proof.
  induction s as [|c s IH]; [reflexivity|]. cbn.
  destruct (Str.isspace c) eqn:E; [exact IH|]. cbn. rewrite E. reflexivity.
Qed.

Lemma lstrip_clean (s : string) : starts_clean s = true → Str.lstrip s = s.
Proof.
  destruct s as [|c s]; [reflexivity|]. cbn. intros H.
  apply negb_true_iff in H. rewrite H. reflexivity.
Qed.

Lemma rstrip_starts_clean (s : string) :
  starts_clean s = true → starts_clean (Str.rstrip s) = true.
Proof.
  destruct s as [|c s]; [reflexivity|]. cbn. intros H.
  destruct (Str.rstrip s).
  - apply negb_true_iff in H. rewrite H. cbn. rewrite H. reflexivity.
  - exact H.
Qed.

Lemma strip_idempotent (s : string) : Str.strip (Str.strip s) = Str.strip s.
Proof.
  unfold Str.strip.
  rewrite (lstrip_clean (Str.rstrip (Str.lstrip s))).
  - apply rstrip_idempotent.
  - apply rstrip_starts_clean, lstrip_starts_clean.
Qed.

Lemma rstrip_last (s r : string) (c : ascii) :
  Str.rstrip s = r +:+ String c "" → Str.isspace c = false.
Proof.
  revert r. induction s as [|x s IH]; intros r H.
  - destruct r; discriminate H.
  - cbn in H. destruct (Str.rstrip s) as [|d t] eqn:E.
    + destruct (Str.isspace x) eqn:Ex; [destruct r; discriminate H|].
      destruct r as [|y [|z r]]; try discriminate H.
      injection H as <-. exact Ex.
    + destruct r as [|y r]; [discriminate H|].
      rewrite string_app_cons in H. injection H as _ H. exact (IH r H).
Qed.

(** ** What the parser stores *)

(** What a line binds is stripped, the key has no
    closing parenthesis and the value no double quote. *)
Lemma line_binding_clean (line key value : string) :
  line_binding line = Some (key, value) → clean (key, value).
Proof.
  intros H.
  destruct (line_binding_spec line)
    as [[Hn _]|(pre & k & ws & v & post & _ & Hwf & _ & Hb)].
  - rewrite Hn in H. discriminate H.
  - rewrite Hb in H. injection H as <- <-.
    destruct Hwf as (Hk & _ & _ & Hv). unfold clean. cbn [fst snd].
    rewrite !strip_idempotent.
    repeat split; [exact (all_strip _ _ Hk) | exact (all_strip _ _ Hv)].
Qed.

Lemma rebind_Some (key : string) (f : list string) acc value :
  fold_left (rebind key) f acc = Some value →
  acc = Some value ∨ ∃ line, line ∈ f ∧ line_binding line = Some (key, value).
Proof.
  revert acc. induction f as [|l f IH]; intros acc H; [left; exact H|].
  cbn [fold_left] in H. destruct (IH _ H) as [Hl|(line & Hin & Hb)].
  - unfold rebind in Hl. destruct (line_binding l) as [[k v]|] eqn:E.
    + destruct (decide (k = key)) as [->|].
      * right. exists l. split; [left|]. rewrite E. f_equal. f_equal.
        congruence.
      * left. exact Hl.
    + left. exact Hl.
  - right. exists line. split; [right; exact Hin | exact Hb].
Qed.

Lemma rebind_None (key : string) (f : list string) acc :
  fold_left (rebind key) f acc = None →
  acc = None ∧ ∀ line v, line ∈ f → line_binding line ≠ Some (key, v).
Proof.
  revert acc. induction f as [|l f IH]; intros acc H.
  - split; [exact H|]. intros line v Hin. inversion Hin.
  - cbn [fold_left] in H. destruct (IH _ H) as [Hl Hf].
    unfold rebind in Hl. destruct (line_binding l) as [[k v]|] eqn:E.
    + destruct (decide (k = key)) as [->|Hne]; [discriminate Hl|].
      split; [exact Hl|]. intros line v' Hin.
      apply elem_of_cons in Hin as [->|Hin]; [|exact (Hf line v' Hin)].
      rewrite E. congruence.
    + split; [exact Hl|]. intros line v' Hin.
      apply elem_of_cons in Hin as [->|Hin]; [|exact (Hf line v' Hin)].
      rewrite E. discriminate.
Qed.

(** X3. Every key and every value of the parsed parameter set is
    stripped: stripping it again changes nothing, and it neither begins
    nor ends with white space; no key has a closing parenthesis and no
    value has a double quote. *)
Theorem parsed_entries_are_clean (f : list string) (key value : string) :
  parse_fsf f !! key = Some value →
  Str.strip key = key ∧ Str.strip value = value
  ∧ starts_clean key = true ∧ starts_clean value = true
  ∧ (∀ r c, key = r +:+ String c "" → Str.isspace c = false)
  ∧ (∀ r c, value = r +:+ String c "" → Str.isspace c = false)
  ∧ Str.all (is_not ")"%char) key = true
  ∧ Str.all (is_not (ascii_of_nat 34)) value = true.
Proof.
  unfold parse_fsf. rewrite lookup_parse_lines, lookup_empty.
  intros [H|(line & _ & Hb)]%rebind_Some; [discriminate H|].
  destruct (line_binding_clean line key value Hb) as (Hk & Hv & Hpk & Hqv).
  cbn [fst snd] in Hk, Hv, Hpk, Hqv.
  split; [exact Hk|]. split; [exact Hv|].
  split; [rewrite <- Hk; apply rstrip_starts_clean, lstrip_starts_clean|].
  split; [rewrite <- Hv; apply rstrip_starts_clean, lstrip_starts_clean|].
  split; [intros r c E; rewrite <- Hk in E; exact (rstrip_last _ r c E)|].
  split; [intros r c E; rewrite <- Hv in E; exact (rstrip_last _ r c E)|].
  split; assumption.
Qed.

(** X2. A key is missing from the parsed parameter set exactly when no
    line of the file binds it. *)
Theorem parsed_key_missing_iff (f : list string) (key : string) :
  parse_fsf f !! key = None
  ↔ ∀ line v, line ∈ f → line_binding line ≠ Some (key, v).
Proof.
  unfold parse_fsf. rewrite lookup_parse_lines, lookup_empty. split.
  - intros H. exact (proj2 (rebind_None key f None H)).
  - intros H. exact (rebind_none key f None H).
Qed.

Lemma rebind_from (key : string) (f : list string) acc :
  fold_left (rebind key) f acc
  = match fold_left (rebind key) f None with
    | Some v => Some v
    | None => acc
    end.
Proof.
  revert acc. induction f as [|l f IH]; intros acc; [reflexivity|].
  cbn [fold_left]. rewrite (IH (rebind key acc l)), (IH (rebind key None l)).
  destruct (fold_left (rebind key) f None); [reflexivity|].
  unfold rebind. destruct (line_binding l) as [[k v]|]; [|reflexivity].
  destruct (decide (k = key)); reflexivity.
Qed.

(** X1. Parsing a file in two parts: the parameter set of the whole is
    the one of the second part, completed with the one of the first
    part for the keys the second part does not bind. *)
Theorem parse_fsf_app (f1 f2 : list string) :
  parse_fsf (f1 ++ f2) = parse_fsf f2 ∪ parse_fsf f1.
Proof.
  apply map_eq. intros key. rewrite lookup_union. unfold parse_fsf.
  rewrite !lookup_parse_lines, fold_left_app, lookup_empty, rebind_from.
  destruct (fold_left (rebind key) f2 None) as [v|];
    destruct (fold_left (rebind key) f1 None); reflexivity.
Qed.

(** X4. A line that does not have the text [set entries($w,] adds
    nothing to the parameter set: headers, comments and other statements
    of the setup file are passed over. *)
Theorem line_without_assignment_is_ignored
    (params : gmap string string) (line : string) :
  Str.contains "set entries($w," line = false →
  parse_line params line = params.
Proof.
  intros H. rewrite parse_line_binding.
  destruct (line_binding_spec line)
    as [[-> _]|(pre & k & ws & v & post & -> & _)]; [reflexivity|].
  unfold assignment in H. rewrite contains_intro in H. discriminate H.
Qed.

Lemma search_here (p : Re.pattern) (s : string) gs :
  Re.match_at p s = Some gs → Re.search p s = Some gs.
Proof. intros H. destruct s; cbn; rewrite H; reflexivity. Qed.

Lemma line_binding_here (key spaces value post : string) :
  well_formed key spaces value →
  line_binding (assignment "" key spaces value post)
  = Some (Str.strip key, Str.strip value).
Proof.
  intros Hwf. unfold line_binding.
  rewrite (search_here _ _ [key; value]); [reflexivity|].
  rewrite match_at_fsf, (match_fsf_complete _ key value); [reflexivity|].
  exists spaces, post. split; [reflexivity | exact Hwf].
Qed.

Lemma fsf_line_binding (kv : string * string) :
  clean kv → line_binding (fsf_line kv) = Some kv.
Proof.
  destruct kv as [k v]. intros (Hk & Hv & Hpk & Hqv). cbn [fst snd] in *.
  change (fsf_line (k, v)) with (assignment "" k " " v nl).
  rewrite line_binding_here, Hk, Hv; [reflexivity|].
  repeat split; try assumption. discriminate.
Qed.

Lemma parse_fsf_lines (es : list (string * string)) (params : gmap string string) :
  Forall clean es →
  fold_left parse_line (fsf_line <$> es) params
  = fold_left (fun m kv => <[kv.1 := kv.2]> m) es params.
Proof.
  intros H. revert params. induction H as [|kv es Hkv _ IH]; intros params;
    [reflexivity|].
  cbn [fmap list_fmap fold_left]. rewrite IH. f_equal.
  rewrite parse_line_binding, (fsf_line_binding kv Hkv).
  destruct kv; reflexivity.
Qed.

Lemma fold_left_insert (es : list (string * string)) (params : gmap string string) :
  fold_left (fun m kv => <[kv.1 := kv.2]> m) es params
  = list_to_map (reverse es) ∪ params.
Proof.
  revert params. induction es as [|[k v] es IH]; intros params.
  - cbn. rewrite (left_id_L ∅ (∪)). reflexivity.
  - cbn [fold_left]. rewrite IH, reverse_cons, list_to_map_app.
    rewrite <- (assoc_L (∪)). f_equal.
    change (list_to_map [(k, v)]) with (<[k:=v]> (∅ : gmap string string)).
    rewrite insert_empty. apply insert_union_singleton_l.
Qed.

(** The lines written for a parameter set, parsed, give it back. *)
Lemma parse_fsf_lines_back (params : gmap string string) :
  (∀ key value, params !! key = Some value → clean (key, value)) →
  parse_fsf (fsf_line <$> map_to_list params) = params.
Proof.
  intros Hclean. unfold parse_fsf.
  rewrite parse_fsf_lines, fold_left_insert.
  - rewrite (right_id_L ∅ (∪)).
    rewrite <- (list_to_map_to_list params) at 2.
    apply list_to_map_proper.
    + rewrite fmap_reverse, reverse_Permutation. apply NoDup_fst_map_to_list.
    + apply reverse_Permutation.
  - apply Forall_forall. intros [k v] Hin.
    apply Hclean, elem_of_map_to_list. exact Hin.
Qed.

(** ** The characters of the numbers written out, in general *)

Lemma all_impl (P Q : ascii → bool) (s : string) :
  (∀ c, P c = true → Q c = true) → Str.all P s = true → Str.all Q s = true.
Proof.
  intros HPQ. induction s as [|c s IH]; [trivial|]. cbn.
  intros [Hc Hs]%andb_true_iff. rewrite (HPQ c Hc), (IH Hs). reflexivity.
Qed.

Section Digits.
Variable P : ascii → bool.
Hypothesis digit_chars : Str.all P "0123456789" = true.

Lemma P_digit (n : Z) : P (ascii_of_nat (48 + Z.to_nat (n mod 10))) = true.
Proof.
  pose proof (Z.mod_pos_bound n 10 eq_refl) as H.
  assert (Hk : (Z.to_nat (n mod 10) < 10)%nat) by lia.
  revert Hk. generalize (Z.to_nat (n mod 10)). intros k Hk.
  cbn in digit_chars.
  repeat (apply andb_true_iff in digit_chars as [? digit_chars]).
  do 10 (destruct k as [|k]; [assumption|]). lia.
Qed.

Lemma digits_of_fuel_all (fuel : nat) (n : Z) (acc : string) :
  Str.all P acc = true → Str.all P (Conv.digits_of_fuel fuel n acc) = true.
Proof.
  revert n acc. induction fuel as [|fuel IH]; intros n acc Hacc; [exact Hacc|].
  cbn [Conv.digits_of_fuel].
  assert (Hacc' : Str.all P
                    (String (ascii_of_nat (48 + Z.to_nat (n mod 10))) acc) = true).
  { cbn [Str.all]. rewrite P_digit. exact Hacc. }
  destruct (n <? 10); [exact Hacc' | apply IH, Hacc'].
Qed.

Lemma digits_of_all (n : Z) : Str.all P (Conv.digits_of n) = true.
Proof. apply digits_of_fuel_all. reflexivity. Qed.

End Digits.

Lemma text_of_int_all (P : ascii → bool) (n : Z) :
  Str.all P "0123456789-" = true → Str.all P (Conv.text_of_int n) = true.
Proof.
  intros H. assert (Hd : Str.all P "0123456789" = true).
  { cbn in H |- *. repeat (apply andb_true_iff in H as [-> H]). reflexivity. }
  unfold Conv.text_of_int. destruct (n <? 0); [|apply digits_of_all, Hd].
  rewrite all_app, (digits_of_all P Hd), andb_true_r.
  cbn in H |- *. do 10 (apply andb_true_iff in H as [_ H]). exact H.
Qed.

Section Chars.
Variable P : ascii → bool.
Hypothesis number_chars : Str.all P "0123456789.e+-infa" = true.

Lemma P_literal (s : string) :
  Str.all (fun c => bool_decide (c ∈ list_ascii_of_string "0123456789.e+-infa")) s
  = true → Str.all P s = true.
Proof.
  apply all_impl. intros c Hc. apply bool_decide_eq_true in Hc.
  cbn in number_chars.
  repeat (apply andb_true_iff in number_chars as [? number_chars]).
  cbn in Hc. repeat (apply elem_of_cons in Hc as [->|Hc]; [assumption|]).
  inversion Hc.
Qed.

Lemma number_digits_all (n : Z) : Str.all P (Conv.digits_of n) = true.
Proof. apply digits_of_all, P_literal. reflexivity. Qed.

Lemma zeros_all (n : nat) : Str.all P (Repr.zeros n) = true.
Proof.
  induction n as [|n IH]; [reflexivity|]. cbn [Repr.zeros Str.all].
  rewrite IH, andb_true_r.
  pose proof (P_literal "0" eq_refl) as H0. cbn [Str.all] in H0.
  rewrite andb_true_r in H0. exact H0.
Qed.

Lemma take_all (n : nat) (s : string) :
  Str.all P s = true → Str.all P (Repr.take n s) = true.
Proof.
  revert s. induction n as [|n IH]; intros [|c s] H; try reflexivity.
  cbn in *. apply andb_true_iff in H as [-> H]. apply IH, H.
Qed.

Lemma drop_all (n : nat) (s : string) :
  Str.all P s = true → Str.all P (Repr.drop n s) = true.
Proof.
  revert s. induction n as [|n IH]; intros [|c s] H; try exact H.
  cbn in *. apply andb_true_iff in H as [_ H]. apply IH, H.
Qed.

Ltac all_pieces :=
  rewrite ?all_app, ?andb_true_iff;
  repeat split;
  first [ assumption | apply number_digits_all | apply zeros_all
        | apply take_all; assumption | apply drop_all; assumption
        | apply P_literal; reflexivity ].

Lemma fixed_all (ds : string) (k : Z) :
  Str.all P ds = true → Str.all P (Repr.fixed ds k) = true.
Proof.
  intros H. unfold Repr.fixed.
  destruct (k <=? 0); [|destruct (_ <=? k)]; all_pieces.
Qed.

Lemma scientific_all (ds : string) (k : Z) :
  Str.all P ds = true → Str.all P (Repr.scientific ds k) = true.
Proof.
  intros H. unfold Repr.scientific.
  assert (Hm : Str.all P
                 match ds with
                 | String d "" => String d ""
                 | String d rest => String d ("." +:+ rest)
                 | "" => ""
                 end = true).
  { destruct ds as [|d [|d' rest]]; [reflexivity | exact H |].
    change (P d && Str.all P (String d' rest) = true) in H.
    apply andb_true_iff in H as [Hd H].
    change (P d && Str.all P ("." +:+ String d' rest) = true).
    rewrite Hd, all_app, H, andb_true_r. apply P_literal. reflexivity. }
  destruct (k - 1 <? 0), (Z.abs (k - 1) <? 10); all_pieces.
Qed.

Lemma repr_all (x : spec_float) : Str.all P (Repr.repr x) = true.
Proof.
  destruct x as [[]|[]| |s m e]; try (apply P_literal; reflexivity).
  unfold Repr.repr, Repr.shortest.
  destruct (Repr.fraction m e) as [num den].
  destruct (Repr.shortest_from _ _ _ _ _ _) as [c e10].
  destruct (Repr.strip_zeros _ _ _) as [c' e10'].
  rewrite all_app. apply andb_true_iff. split.
  - destruct s; apply P_literal; reflexivity.
  - destruct (_ && _);
      [apply fixed_all | apply scientific_all]; apply number_digits_all.
Qed.

Lemma fmt_all (v : num) : Str.all P (fmt v) = true.
Proof.
  destruct v; [|apply repr_all].
  apply text_of_int_all, P_literal. reflexivity.
Qed.

End Chars.

(** ** [str] of an int and [int] of its text *)

Lemma digit_val_char (d : Z) :
  0 <= d < 10 → Conv.digit_val (ascii_of_nat (48 + Z.to_nat d)) = Some d.
Proof.
  intros H. assert (Hd : d = Z.of_nat (Z.to_nat d)) by lia.
  assert (Hk : (Z.to_nat d < 10)%nat) by lia.
  revert Hd Hk. generalize (Z.to_nat d). intros k -> Hk.
  do 10 (destruct k as [|k]; [reflexivity|]). lia.
Qed.

Lemma digits_of_fuel_read (fuel : nat) (n : Z) (acc : string) (a cnt : Z) :
  0 <= n < 2 ^ Z.of_nat fuel →
  ∃ k, (0 < n → 0 < k) ∧ 0 <= k
       ∧ ((0 < fuel)%nat → 0 < k)
       ∧ Conv.digits a cnt (Conv.digits_of_fuel fuel n acc)
         = Conv.digits (a * 10 ^ k + n) (cnt + k) acc.
Proof.
  revert n acc. induction fuel as [|fuel IH]; intros n acc Hn.
  - exists 0. change (2 ^ Z.of_nat 0) with 1 in Hn.
    assert (n = 0) as -> by lia. cbn [Conv.digits_of_fuel].
    repeat split; try lia. f_equal; lia.
  - cbn [Conv.digits_of_fuel].
    assert (Hd : Conv.digit_val (ascii_of_nat (48 + Z.to_nat (n mod 10)))
                 = Some (n mod 10))
      by (apply digit_val_char, Z.mod_pos_bound; lia).
    destruct (n <? 10) eqn:E.
    + apply Z.ltb_lt in E. exists 1. repeat split; try lia.
      cbn [Conv.digits]. rewrite Hd, Z.mod_small by lia. f_equal; lia.
    + apply Z.ltb_ge in E.
      assert (Hq : 0 <= n / 10 < 2 ^ Z.of_nat fuel).
      { rewrite Nat2Z.inj_succ, Z.pow_succ_r in Hn by lia.
        split; [apply Z.div_pos; lia|].
        apply Z.div_lt_upper_bound; lia. }
      destruct (IH (n / 10)
                  (String (ascii_of_nat (48 + Z.to_nat (n mod 10))) acc) Hq)
        as (k & Hk & Hk0 & _ & Hread).
      assert (0 < n / 10) by (apply Z.div_str_pos; lia).
      exists (k + 1). repeat split; try lia.
      rewrite Hread. cbn [Conv.digits]. rewrite Hd.
      f_equal; [|lia].
      rewrite Z.pow_add_r, Z.pow_1_r by lia.
      pose proof (Z.div_mod n 10 ltac:(lia)). lia.
Qed.

Lemma digits_of_read (n : Z) :
  0 <= n → ∃ k, 0 < k ∧ Conv.digits 0 0 (Conv.digits_of n) = (n, k, "").
Proof.
  intros Hn. unfold Conv.digits_of.
  destruct (digits_of_fuel_read (S (Z.to_nat (Z.log2 n))) n "" 0 0)
    as (k & _ & _ & Hk & Hread).
  - split; [exact Hn|].
    rewrite Nat2Z.inj_succ, Z2Nat.id by apply Z.log2_nonneg.
    destruct (Z.eq_dec n 0) as [->|Hne]; [reflexivity|].
    apply Z.log2_spec. lia.
  - exists k. split; [apply Hk; lia|]. rewrite Hread. cbn [Conv.digits].
    rewrite Z.mul_0_l, !Z.add_0_l. reflexivity.
Qed.


Lemma digit_or_minus_spec (c : ascii) :
  digit_or_minus c = true →
  Conv.is_numspace c = false ∧ Ascii.eqb c "_" = false.
Proof.
  destruct c as [[] [] [] [] [] [] [] []]; cbn; intros H;
    first [discriminate H | split; reflexivity].
Qed.

Lemma lskip_id (s : string) :
  Str.all digit_or_minus s = true → Conv.lskip s = s.
Proof.
  destruct s as [|c s]; [reflexivity|]. cbn.
  intros [Hc _]%andb_true_iff.
  rewrite (proj1 (digit_or_minus_spec c Hc)). reflexivity.
Qed.

Lemma rskip_id (s : string) :
  Str.all digit_or_minus s = true → Conv.rskip s = s.
Proof.
  induction s as [|c s IH]; [reflexivity|]. cbn.
  intros [Hc Hs]%andb_true_iff. rewrite (IH Hs).
  destruct s; [|reflexivity].
  rewrite (proj1 (digit_or_minus_spec c Hc)). reflexivity.
Qed.

Lemma drop_underscores_id (prev : ascii) (s : string) :
  Ascii.eqb prev "_" = false →
  Str.all digit_or_minus s = true → Conv.drop_underscores prev s = Some s.
Proof.
  revert prev. induction s as [|c s IH]; intros prev Hp.
  - intros _. cbn. rewrite Hp. reflexivity.
  - cbn. intros [Hc Hs]%andb_true_iff.
    destruct (digit_or_minus_spec c Hc) as [_ Hu]. rewrite Hu, Hp. cbn.
    rewrite (IH c Hu Hs). reflexivity.
Qed.

Lemma digits_of_digits (n : Z) : Str.all Conv.is_digit (Conv.digits_of n) = true.
Proof. apply digits_of_all. reflexivity. Qed.

Lemma sign_of_digits (s : string) :
  Str.all Conv.is_digit s = true → Conv.sign s = (false, s).
Proof.
  destruct s as [|c s]; [reflexivity|]. cbn. intros [Hc _]%andb_true_iff.
  destruct c as [[] [] [] [] [] [] [] []]; first [discriminate Hc | reflexivity].
Qed.

Lemma digits_count (s : string) (acc cnt x k : Z) (r : string) :
  Conv.digits acc cnt s = (x, k, r) →
  k = cnt + Z.of_nat (String.length s) - Z.of_nat (String.length r).
Proof.
  revert acc cnt. induction s as [|c s IH]; intros acc cnt; cbn [Conv.digits].
  - intros [= <- <- <-]. lia.
  - destruct (Conv.digit_val c) as [d|].
    + intros H. apply IH in H. cbn [String.length]. lia.
    + intros [= <- <- <-]. lia.
Qed.

Lemma text_of_int_reads_back (n : Z) :
  Z.of_nat (String.length (Conv.digits_of (Z.abs n))) <= Conv.max_str_digits →
  Conv.int_of_str (Conv.text_of_int n) = Ok n.
Proof.
  intros Hlen.
  assert (Hall : Str.all digit_or_minus (Conv.text_of_int n) = true).
  { apply text_of_int_all. reflexivity. }
  unfold Conv.int_of_str.
  rewrite (lskip_id _ Hall), (rskip_id _ Hall),
    (drop_underscores_id "000" _ eq_refl Hall).
  unfold Conv.text_of_int. destruct (n <? 0) eqn:E.
  - apply Z.ltb_lt in E. change (Conv.sign ("-" +:+ ?s)) with (true, s).
    rewrite Z.abs_neq in Hlen by lia.
    destruct (digits_of_read (- n)) as (k & Hk & Hr); [lia|].
    rewrite Hr. apply digits_count in Hr. cbn [String.length] in Hr.
    apply Z.ltb_lt in Hk. rewrite Hk.
    assert (Hl : (Conv.max_str_digits <? k) = false) by (apply Z.ltb_ge; lia).
    rewrite Hl. f_equal. lia.
  - apply Z.ltb_ge in E. rewrite (sign_of_digits _ (digits_of_digits n)).
    rewrite Z.abs_eq in Hlen by lia.
    destruct (digits_of_read n E) as (k & Hk & Hr).
    rewrite Hr. apply digits_count in Hr. cbn [String.length] in Hr.
    apply Z.ltb_lt in Hk. rewrite Hk.
    assert (Hl : (Conv.max_str_digits <? k) = false) by (apply Z.ltb_ge; lia).
    rewrite Hl. reflexivity.
Qed.

(** What [str] returns for an int, [int] reads back as that int. *)
Lemma str_of_int_reads_back (n : Z) (s : string) :
  Conv.str_of_int n = Ok s → Conv.int_of_str s = Ok n.
Proof.
  intros [-> H]%str_of_int_Ok. exact (text_of_int_reads_back n H).
Qed.

(** The default of an output size: the integer part of a float read
    from a text has a text, which reads back as that int. *)
Lemma trunc_text (text : string) (x : spec_float) (n : Z) :
  Conv.float_of_str text = Ok x → Num.trunc x = Ok n →
  Conv.str_of_int n = Ok (Conv.text_of_int n)
  ∧ Conv.int_of_str (Conv.text_of_int n) = Ok n.
Proof.
  intros Hx Hn.
  pose proof (trunc_bound x n (float_of_str_in_range text x Hx) Hn) as Hb.
  pose proof (str_of_int_returns n Hb) as Hs.
  split; [exact Hs | exact (str_of_int_reads_back n _ Hs)].
Qed.

(** X6. The default that [compute_brain_ref] builds for a missing
    output size, [str(int(inNx))], always converts: for a float read
    from a text whose integer part exists, [str] returns (the integer
    part is below [2 ^ 1024] in magnitude, far from the limit on the
    digits) and [int] reads the text back as the same int. *)
Theorem default_output_size_converts (text : string) (x : spec_float) (n : Z) :
  Conv.float_of_str text = Ok x → Num.trunc x = Ok n →
  ∃ s, Conv.str_of_int n = Ok s ∧ Conv.int_of_str s = Ok n.
Proof.
  intros Hx Hn. exists (Conv.text_of_int n). exact (trunc_text text x n Hx Hn).
Qed.

(** ** When the geometry computation returns, and when it raises *)

Lemma trunc_finite (x : spec_float) :
  not_finite x = false → ∃ n, Num.trunc x = Ok n.
Proof. destruct x; try discriminate; intros _; eexists; reflexivity. Qed.

Lemma trunc_not_finite (x : spec_float) n :
  Num.trunc x = Ok n → not_finite x = false.
Proof. destruct x; try discriminate; reflexivity. Qed.

Lemma out_dim_converts (params : gmap string string) (a : axis)
    (text : string) (x : spec_float) (n : Z) :
  Conv.float_of_str text = Ok x → Num.trunc x = Ok n →
  (∀ v, params !! out_dim_key a = Some v → ∃ z, Conv.int_of_str v = Ok z) →
  Conv.str_of_int n = Ok (Conv.text_of_int n)
  ∧ ∃ z, Conv.int_of_str (get params (out_dim_key a) (Conv.text_of_int n))
         = Ok z.
Proof.
  intros Hx Hn H. destruct (trunc_text text x n Hx Hn) as [Hs Hr].
  split; [exact Hs|]. unfold get.
  destruct (params !! out_dim_key a) as [v|].
  - exact (H v eq_refl).
  - exists n. exact Hr.
Qed.

(** The conversions at the head of [compute_brain_ref], done. *)
Lemma compute_brain_ref_converted (params : gmap string string)
    (inN vc outd : axis → spec_float) (factor : spec_float) :
  converts params inN vc outd factor →
  compute_brain_ref params
  = let slcselect := get params "slcselect" "z" in
    let inNt := get params "inNt" "1" in
    '(newdim1, newdim2, newdim3, newpixdim1, newpixdim2, newpixdim3) ←
      (if Str.eqb (Str.lower slcselect) "x" then
         newpixdim1 ← Num.div (outd AxisX) factor;
         q ← Num.div (Num.mul (inN AxisX) (vc AxisX)) newpixdim1;
         newdim1 ← Num.round q;
         Ok (Int newdim1, Float (inN AxisY), Float (inN AxisZ),
             newpixdim1, vc AxisY, vc AxisZ)
       else if Str.eqb (Str.lower slcselect) "y" then
         newpixdim2 ← Num.div (outd AxisY) factor;
         q ← Num.div (Num.mul (inN AxisY) (vc AxisY)) newpixdim2;
         newdim2 ← Num.round q;
         Ok (Float (inN AxisX), Int newdim2, Float (inN AxisZ),
             vc AxisX, newpixdim2, vc AxisZ)
       else
         newpixdim3 ← Num.div (outd AxisZ) factor;
         q ← Num.div (Num.mul (inN AxisZ) (vc AxisZ)) newpixdim3;
         newdim3 ← Num.round q;
         Ok (Float (inN AxisX), Float (inN AxisY), Int newdim3,
             vc AxisX, vc AxisY, newpixdim3));
    Ok (newdim1, newdim2, newdim3, inNt,
        newpixdim1, newpixdim2, newpixdim3, inNt).
Proof.
  intros (HN & Hvc & Hout & Hf & Hfin & Hdim).
  unfold compute_brain_ref.
  pose proof (HN AxisX) as H1. pose proof (HN AxisY) as H2.
  pose proof (HN AxisZ) as H3. cbn [in_dim_key] in H1, H2, H3.
  pose proof (Hvc AxisX) as H4. pose proof (Hvc AxisY) as H5.
  pose proof (Hvc AxisZ) as H6. cbn [in_vox_key] in H4, H5, H6.
  pose proof (Hout AxisX) as H7. pose proof (Hout AxisY) as H8.
  pose proof (Hout AxisZ) as H9. cbn [out_vox_key] in H7, H8, H9.
  rewrite H1, H2, H3, H4, H5, H6. cbn [mbind result_bind].
  destruct (trunc_finite _ (Hfin AxisX)) as [ix Hix].
  rewrite Hix. cbn [mbind result_bind].
  destruct (out_dim_converts params AxisX _ _ ix H1 Hix (Hdim AxisX))
    as [Hsix [nx Hnx]].
  rewrite Hsix. cbn [mbind result_bind].
  cbn [out_dim_key] in Hnx. rewrite Hnx. cbn [mbind result_bind].
  destruct (trunc_finite _ (Hfin AxisY)) as [iy Hiy].
  rewrite Hiy. cbn [mbind result_bind].
  destruct (out_dim_converts params AxisY _ _ iy H2 Hiy (Hdim AxisY))
    as [Hsiy [ny Hny]].
  rewrite Hsiy. cbn [mbind result_bind].
  cbn [out_dim_key] in Hny. rewrite Hny. cbn [mbind result_bind].
  destruct (trunc_finite _ (Hfin AxisZ)) as [iz Hiz].
  rewrite Hiz. cbn [mbind result_bind].
  destruct (out_dim_converts params AxisZ _ _ iz H3 Hiz (Hdim AxisZ))
    as [Hsiz [nz Hnz]].
  rewrite Hsiz. cbn [mbind result_bind].
  cbn [out_dim_key] in Hnz. rewrite Hnz. cbn [mbind result_bind].
  rewrite H7, H8, H9, Hf. reflexivity.
Qed.

(** X7. The geometry computation returns whenever its conversions
    succeed, the sampling factor is not zero, the voxel size recomputed
    on the selected axis is not zero and the quotient to round is finite;
    its result is then the recomputed axis, the two other axes as they
    were read, and the text of the temporal extent, unconverted, in both
    its places. *)
Theorem compute_brain_ref_returns (params : gmap string string)
    (inN vc outd : axis → spec_float) (factor newpix q : spec_float) (n : Z) :
  converts params inN vc outd factor →
  let sel := selected_axis params in
  Num.div (outd sel) factor = Ok newpix →
  Num.div (Num.mul (inN sel) (vc sel)) newpix = Ok q →
  Num.round q = Ok n →
  ∃ g, compute_brain_ref params = Ok g
       ∧ dim g sel = Int n ∧ pixdim g sel = newpix
       ∧ (∀ a, a ≠ sel → dim g a = Float (inN a) ∧ pixdim g a = vc a)
       ∧ extent g = get params "inNt" "1"
       ∧ pixdim4 g = get params "inNt" "1".
Proof.
  intros Hc sel. rewrite (compute_brain_ref_converted _ _ _ _ _ Hc).
  subst sel. unfold selected_axis. cbn zeta.
  destruct (Str.eqb (Str.lower (get params "slcselect" "z")) "x");
    [|destruct (Str.eqb (Str.lower (get params "slcselect" "z")) "y")];
    intros H1 H2 H3; rewrite H1; cbn [mbind result_bind];
    rewrite H2; cbn [mbind result_bind]; rewrite H3; cbn [mbind result_bind];
    eexists; (split; [reflexivity|]);
    (split; [reflexivity|]); (split; [reflexivity|]);
    (split; [|split; reflexivity]);
    intros [] Hne; try congruence; split; reflexivity.
Qed.

(** X8. With its conversions done, the geometry computation raises
    [ZeroDivisionError] when the sampling factor is zero, and when the
    voxel size recomputed on the selected axis is zero (an output voxel
    size of zero, for one). *)
Theorem compute_brain_ref_zero_division (params : gmap string string)
    (inN vc outd : axis → spec_float) (factor : spec_float) :
  converts params inN vc outd factor →
  (is_zero factor = true
   ∨ ∃ newpix, Num.div (outd (selected_axis params)) factor = Ok newpix
               ∧ is_zero newpix = true) →
  compute_brain_ref params = Raise ZeroDivisionError.
Proof.
  intros Hc Hz. rewrite (compute_brain_ref_converted _ _ _ _ _ Hc).
  cbn zeta. unfold selected_axis in Hz.
  assert (Hdiv : ∀ x, is_zero factor = true →
                      Num.div x factor = Raise ZeroDivisionError).
  { intros x. unfold Num.div. destruct factor; try discriminate. reflexivity. }
  assert (Hdiv' : ∀ x y, is_zero y = true →
                         Num.div x y = Raise ZeroDivisionError).
  { intros x y. unfold Num.div. destruct y; try discriminate. reflexivity. }
  destruct (Str.eqb (Str.lower (get params "slcselect" "z")) "x");
    [|destruct (Str.eqb (Str.lower (get params "slcselect" "z")) "y")];
    (destruct Hz as [Hz|(newpix & -> & Hz)];
     [rewrite (Hdiv _ Hz); reflexivity
     |cbn [mbind result_bind]; rewrite (Hdiv' _ _ Hz); reflexivity]).
Qed.

(** X9. The geometry computation does not return when an input
    dimension reads as an infinity or as not a number, whether the output
    size on that axis is given or not (its default, the integer part of
    the input dimension, is computed before the output size is looked
    up); nor when an output size that is given does not read as an int,
    although the output sizes take no part in the result. *)
Theorem compute_brain_ref_rejects (params : gmap string string) (a : axis) :
  (∃ x, Conv.float_of_str (get params (in_dim_key a) "0") = Ok x
        ∧ not_finite x = true)
  ∨ (∃ v e, params !! out_dim_key a = Some v
            ∧ Conv.int_of_str v = Raise e) →
  ∀ g, compute_brain_ref params ≠ Ok g.
Proof.
  intros Hbad g H. unfold compute_brain_ref in H. bind_inv H.
  destruct Hbad as [(y & Hy & Hinf)|(v & e & Hv & He)].
  - destruct a; cbn [in_dim_key] in Hy;
      [ rewrite Hx in Hy; injection Hy as <-;
        apply trunc_not_finite in Hx5
      | rewrite Hx0 in Hy; injection Hy as <-;
        apply trunc_not_finite in Hx8
      | rewrite Hx1 in Hy; injection Hy as <-;
        apply trunc_not_finite in Hx11 ]; congruence.
  - unfold get in Hx7, Hx10, Hx13.
    destruct a; cbn [out_dim_key] in Hv; rewrite Hv in *; congruence.
Qed.

(** ** The command sequence as a whole *)

(** X10. The builder raises exactly when the geometry computation does,
    and the same exception.  The f-strings that write the three
    dimensions into the command of the reference volume call [str] on
    the rounded one, which raises for an int of more than 4300 digits:
    they never do, since the rounded dimension is the nearest integer of
    a float of the format, below [2 ^ 1024] in magnitude; nothing else
    in the builder can fail, whatever the parameters. *)
Theorem generation_raises_as_geometry (params : gmap string string) (e : exn) :
  generate_shell_commands params = Raise e ↔ compute_brain_ref params = Raise e.
Proof.
  rewrite generate_shell_commands_staged.
  destruct (compute_brain_ref params) as [g|e']; cbn; split; congruence.
Qed.

Lemma file_cmds_length (key : string) (params : gmap string string) :
  key ∈ ["mrpar"; "slcprof"; "mot"; "act1"; "act2"] →
  length (file_cmds key params)
  = if Str.truthy (get params key "") then 1%nat else 0%nat.
Proof.
  intros H. unfold file_cmds.
  destruct (Str.truthy (get params key "")); [|reflexivity].
  elems H; reflexivity.
Qed.

Lemma staged_length (params : gmap string string) (g : brain_ref) :
  length (staged params g) = (3 + middle_count params + 2)%nat.
Proof.
  unfold staged, before_pulse, middle_count.
  rewrite !length_app.
  rewrite !file_cmds_length by compute_done.
  assert (Hb : length (file_cmds "b0f" params)
               = if Str.truthy (get params "b0f" "")
                 then if field_in_ppm params then 3%nat else 2%nat
                 else 0%nat).
  { unfold file_cmds, field_cmds.
    destruct (Str.truthy (get params "b0f" "")); [|reflexivity].
    destruct (field_in_ppm params); reflexivity. }
  assert (Hp : length (pulse_stage params g)
               = if is_standard params then 1%nat
                 else if Str.truthy (get params "cuspulse" "")
                      then 7%nat else 0%nat).
  { unfold pulse_stage. destruct (is_standard params); [reflexivity|].
    destruct (Str.truthy (get params "cuspulse" "")); reflexivity. }
  assert (Hn : length (noise_stage params)
               = if noise_on params then 1%nat else 0%nat).
  { unfold noise_stage, noise_on. destruct (Str.eqb _ "1"); reflexivity. }
  rewrite Hb, Hp, Hn.
  destruct g as [[[[[[[d1 d2] d3] nt] p1] p2] p3] p4]. cbn [reference_cmds length].
  unfold final_cmds. cbn [length]. lia.
Qed.

(** X11. A command sequence begins with the creation of the output
    directory, the creation of the reference volume and the registration
    of the input object, and ends with the simulation and the marker of
    the setup file; between them it has one command for each of the
    optional files that is present (two or three for the field file),
    one pulse command or seven copies or none, and one noise command or
    none: from 5 to 21 commands in all. *)
Theorem command_sequence_frame (params : gmap string string) (cmds : list string) :
  generate_shell_commands params = Ok cmds →
  ∃ g middle,
    compute_brain_ref params = Ok g
    ∧ cmds = reference_cmds params g ++ middle ++ final_cmds params
    ∧ head cmds = Some ("mkdir -p " +:+ get params "out" "./simdir")
    ∧ last cmds = Some ("echo 'POSSUM setup file generated.' > "
                          +:+ get params "out" "./simdir" +:+ "/possum.fsf")
    ∧ length middle = middle_count params
    ∧ (5 <= length cmds <= 21)%nat.
Proof.
  intros H. rewrite generate_shell_commands_staged in H.
  destruct (compute_brain_ref params) as [g|e]; [|discriminate].
  injection H as <-.
  exists g,
    (file_cmds "mrpar" params ++ file_cmds "slcprof" params
     ++ file_cmds "mot" params ++ file_cmds "act1" params
     ++ file_cmds "act2" params ++ file_cmds "b0f" params
     ++ pulse_stage params g ++ noise_stage params).
  split; [reflexivity|].
  assert (Hs : staged params g
               = reference_cmds params g
                 ++ (file_cmds "mrpar" params ++ file_cmds "slcprof" params
                     ++ file_cmds "mot" params ++ file_cmds "act1" params
                     ++ file_cmds "act2" params ++ file_cmds "b0f" params
                     ++ pulse_stage params g ++ noise_stage params)
                 ++ final_cmds params).
  { unfold staged, before_pulse. rewrite <- !app_assoc. reflexivity. }
  pose proof (staged_length params g) as Hlen.
  split; [exact Hs|]. split.
  { rewrite Hs. destruct g as [[[[[[[d1 d2] d3] nt] p1] p2] p3] p4].
    reflexivity. }
  split.
  { rewrite Hs, !app_assoc. unfold final_cmds.
    rewrite (app_assoc _ [_] [_]) || idtac.
    change [?a; ?b] with ([a] ++ [b]). rewrite !app_assoc.
    apply last_snoc. }
  split.
  { rewrite Hs, !length_app in Hlen.
    destruct g as [[[[[[[d1 d2] d3] nt] p1] p2] p3] p4].
    cbn [reference_cmds final_cmds length] in Hlen. unfold final_cmds in Hlen.
    cbn [length] in Hlen. rewrite !length_app. lia. }
  rewrite Hlen. unfold middle_count.
  destruct (Str.truthy (get params "mrpar" "")),
    (Str.truthy (get params "slcprof" "")), (Str.truthy (get params "mot" "")),
    (Str.truthy (get params "act1" "")), (Str.truthy (get params "act2" "")),
    (Str.truthy (get params "b0f" "")), (field_in_ppm params),
    (is_standard params), (Str.truthy (get params "cuspulse" "")),
    (noise_on params); cbn; lia.
Qed.

(** ** Which keys matter *)

Lemma same_on_app (ks ks' : list string) (params params' : gmap string string) :
  same_on (ks ++ ks') params params' ↔
  same_on ks params params' ∧ same_on ks' params params'.
Proof.
  unfold same_on. split.
  - intros H. split; intros k Hk; apply H, elem_of_app; auto.
  - intros [H1 H2] k [Hk|Hk]%elem_of_app; auto.
Qed.

Lemma file_cmds_same (params params' : gmap string string) key :
  key ∈ file_keys →
  same_on file_keys params params' → same_on field_keys params params' →
  file_cmds key params' = file_cmds key params.
Proof.
  intros Hkey H1 H2. apply file_cmds_ext.
  intros k [->|Hk]%elem_of_cons; [apply H1, Hkey | apply H2, Hk].
Qed.

Lemma staged_ext (params params' : gmap string string) (g : brain_ref) :
  same_on read_keys params params' → staged params' g = staged params g.
Proof.
  unfold read_keys. rewrite !same_on_app.
  intros (_ & Hfile & Href & Hfield & Hpulse & Hnoise & Hfinal).
  unfold staged, before_pulse.
  rewrite (reference_cmds_ext params params' g Href),
    (pulse_stage_ext params params' g Hpulse),
    (noise_stage_ext params params' Hnoise),
    (final_cmds_ext params params' Hfinal),
    !(file_cmds_same params params') by (assumption || compute_done).
  reflexivity.
Qed.

(** X12. The command sequence depends on the parameter set through the
    keys that the script reads only: two parameter sets that agree on
    these keys, whatever other keys they bind, give the same commands or
    the same exception. *)
Theorem only_read_keys_matter (params params' : gmap string string) :
  same_on read_keys params params' →
  generate_shell_commands params' = generate_shell_commands params.
Proof.
  intros H. rewrite !generate_shell_commands_staged.
  rewrite (compute_brain_ref_ext params params')
    by (unfold read_keys in H; apply same_on_app in H as [H _]; exact H).
  destruct (compute_brain_ref params) as [g|e]; [|reflexivity].
  cbn. rewrite (staged_ext params params' g H). reflexivity.
Qed.

(** ** Defaults *)

Lemma get_union_default (params D : gmap string string) (k d : string) :
  D !! k = Some d → get (params ∪ D) k d = get params k d.
Proof.
  intros H. unfold get. rewrite lookup_union.
  destruct (params !! k); rewrite H; reflexivity.
Qed.

Lemma get_union_none (params D : gmap string string) (k : string) :
  D !! k = None → get (params ∪ D) k = get params k.
Proof.
  intros H. unfold get. rewrite lookup_union, H.
  destruct (params !! k); reflexivity.
Qed.

Ltac default_gets :=
  repeat match goal with
    | |- context [get (?p ∪ defaults) ?k ?d] =>
        rewrite (get_union_default p defaults k d) by reflexivity
    | |- context [get (?p ∪ defaults) ?k] =>
        rewrite (get_union_none p defaults k) by reflexivity
    end.

Ltac unfold_stages :=
  unfold staged, before_pulse, reference_cmds, file_cmds, field_cmds,
    field_in_ppm, flirt_cmd, fslroi_cmd, fslmaths_cmd, copy_cmd,
    pulse_stage, pulse_command, pulse_head, pulse_trslc, pulse_tail,
    log_redirect, pulse_copies, is_standard, is_epi, is_ge,
    noise_stage, noise_line, noise_write, final_cmds,
    possum_dir, out_dir, fsl_dir.

(** X13. Writing the defaults into a parameter set changes nothing: for
    each of the forty keys that have one default wherever the script
    reads them, a missing key and a key bound to its default give the
    same result. *)
Theorem defaults_are_what_missing_keys_mean (params : gmap string string) :
  generate_shell_commands (params ∪ defaults) = generate_shell_commands params.
Proof.
  rewrite !generate_shell_commands_staged.
  assert (Hg : compute_brain_ref (params ∪ defaults) = compute_brain_ref params).
  { unfold compute_brain_ref. default_gets. reflexivity. }
  rewrite Hg. destruct (compute_brain_ref params) as [g|e]; [|reflexivity].
  change (Ok (staged (params ∪ defaults) g) = Ok (staged params g)).
  f_equal. unfold_stages. default_gets. reflexivity.
Qed.

(** X14. A missing [POSSUMDIR] means the directory of [FSLDIR], itself
    [/usr/local/fsl] when missing. *)
Theorem possumdir_falls_back_to_fsldir (params : gmap string string) :
  params !! "POSSUMDIR" = None →
  generate_shell_commands
    (<["POSSUMDIR" := get params "FSLDIR" "/usr/local/fsl"]> params)
  = generate_shell_commands params.
Proof.
  intros Hnone. rewrite !generate_shell_commands_staged.
  set (params' := <["POSSUMDIR" := _]> params).
  assert (Hothers : ∀ k, k ≠ "POSSUMDIR" → params' !! k = params !! k)
    by (intros k Hk; apply lookup_insert_ne; congruence).
  rewrite (compute_brain_ref_ext params params')
    by (eapply same_on_but; [exact Hothers | compute_done]).
  destruct (compute_brain_ref params) as [g|e]; [|reflexivity].
  cbn. f_equal.
  assert (Hp : possum_dir params' = possum_dir params).
  { unfold possum_dir, params'. rewrite get_insert.
    unfold fsl_dir, get at 2. rewrite Hnone. reflexivity. }
  unfold staged.
  rewrite (before_pulse_ext params params'), (noise_stage_ext params params')
    by (eapply same_on_but; [exact Hothers | compute_done]).
  f_equal. f_equal; [|f_equal].
  - unfold pulse_stage, pulse_command, pulse_head. rewrite Hp.
    unfold is_standard, is_epi, is_ge, pulse_trslc, pulse_tail, log_redirect,
      pulse_copies, out_dir.
    repeat match goal with
      | |- context [get params' ?k] =>
          rewrite (get_ext params params' k) by (apply Hothers; discriminate)
      end.
    reflexivity.
  - unfold final_cmds. rewrite Hp. unfold out_dir.
    repeat match goal with
      | |- context [get params' ?k] =>
          rewrite (get_ext params params' k) by (apply Hothers; discriminate)
      end.
    reflexivity.
Qed.

(** ** Keys that are read in some cases only *)

Lemma get_insert_ne (params : gmap string string) (k k' v : string) :
  k ≠ k' → get (<[k:=v]> params) k' = get params k'.
Proof. intros H. apply get_ext, lookup_insert_ne, H. Qed.

Ltac insert_gets :=
  repeat match goal with
    | |- context [get (<[?k:=?v]> ?p) ?k ?d] => rewrite (get_insert p k v d)
    | |- context [get (<[?k:=?v]> ?p) ?k'] =>
        rewrite (get_insert_ne p k k' v) by discriminate
    end.

Section Conditional.
Variables params params' : gmap string string.

Lemma copy_cmds_ext (key : string) :
  key ∈ ["mrpar"; "slcprof"; "mot"; "act1"; "act2"] →
  same_on [key; "out"; "FSLDIR"] params params' →
  file_cmds key params' = file_cmds key params.
Proof.
  intros Hkey H.
  assert (Hk : get params' key = get params key)
    by (apply get_ext, H; left).
  assert (Ho : get params' "out" = get params "out")
    by (apply get_ext, H; right; left).
  assert (Hf : get params' "FSLDIR" = get params "FSLDIR")
    by (apply get_ext, H; right; right; left).
  unfold file_cmds, flirt_cmd, copy_cmd, out_dir, fsl_dir.
  rewrite Hk, Ho, Hf. elems Hkey; reflexivity.
Qed.

Lemma field_absent_ext :
  Str.truthy (get params "b0f" "") = false →
  same_on ["b0f"] params params' →
  file_cmds "b0f" params' = file_cmds "b0f" params.
Proof.
  intros Hc H. unfold file_cmds. same_gets H params params'.
  rewrite Hc. reflexivity.
Qed.

Lemma field_other_units_ext :
  field_in_ppm params = false →
  same_on ["b0f"; "out"; "FSLDIR"; "b0units"] params params' →
  file_cmds "b0f" params' = file_cmds "b0f" params.
Proof.
  intros Hc H. unfold field_in_ppm in Hc.
  unfold file_cmds, field_cmds, field_in_ppm, flirt_cmd, fslroi_cmd,
    out_dir, fsl_dir.
  same_gets H params params'. rewrite Hc. reflexivity.
Qed.

Lemma pulse_custom_ext (g : brain_ref) :
  is_standard params = false →
  same_on ["seqtype"; "cuspulse"; "out"] params params' →
  pulse_stage params' g = pulse_stage params g.
Proof.
  intros Hc H. unfold is_standard, is_epi, is_ge in Hc.
  unfold pulse_stage, pulse_copies, is_standard, is_epi, is_ge, out_dir.
  same_gets H params params'. rewrite Hc. reflexivity.
Qed.

Lemma pulse_standard_ext (g : brain_ref) :
  is_standard params = true →
  same_on
    ["POSSUMDIR"; "FSLDIR"; "out"; "seqtype"; "te"; "tr"; "trslc";
     "outsize_nx"; "outsize_ny"; "outsize_nz"; "outsize_dx"; "outsize_dy";
     "numvol"; "bw"; "readgrad"; "plus"; "phencode"; "slcselect";
     "maxG"; "riseT"] params params' →
  pulse_stage params' g = pulse_stage params g.
Proof.
  intros Hc H. unfold is_standard, is_epi, is_ge in Hc.
  unfold pulse_stage, pulse_command, pulse_head, pulse_trslc, pulse_tail,
    log_redirect, is_standard, is_epi, is_ge, possum_dir, out_dir, fsl_dir.
  same_gets H params params'. rewrite Hc. reflexivity.
Qed.

Lemma pulse_other_ext (g : brain_ref) :
  is_epi params = false →
  same_on
    ["POSSUMDIR"; "FSLDIR"; "out"; "seqtype"; "te"; "tr";
     "outsize_nx"; "outsize_ny"; "outsize_nz"; "outsize_dx"; "outsize_dy";
     "numvol"; "bw"; "readgrad"; "plus"; "phencode"; "slcselect";
     "maxG"; "riseT"; "cuspulse"] params params' →
  pulse_stage params' g = pulse_stage params g.
Proof.
  intros Hc H. unfold is_epi in Hc.
  unfold pulse_stage, pulse_command, pulse_head, pulse_trslc, pulse_tail,
    log_redirect, pulse_copies, is_standard, is_epi, is_ge, possum_dir,
    out_dir, fsl_dir.
  same_gets H params params'. rewrite Hc. reflexivity.
Qed.

Lemma noise_off_ext :
  noise_on params = false →
  same_on ["noise_yn"] params params' →
  noise_stage params' = noise_stage params.
Proof.
  intros Hc H. unfold noise_on in Hc. unfold noise_stage.
  same_gets H params params'. rewrite Hc. reflexivity.
Qed.

Lemma noise_snr_ext :
  noise_in_snr params = true →
  same_on ["noise_yn"; "noiseunits"; "noisesnr"; "out"] params params' →
  noise_stage params' = noise_stage params.
Proof.
  intros Hc H. unfold noise_in_snr in Hc.
  unfold noise_stage, noise_line, noise_write, out_dir.
  same_gets H params params'. rewrite Hc. reflexivity.
Qed.

Lemma noise_sigma_ext :
  noise_in_snr params = false →
  same_on ["noise_yn"; "noiseunits"; "noisesigma"; "out"] params params' →
  noise_stage params' = noise_stage params.
Proof.
  intros Hc H. unfold noise_in_snr in Hc.
  unfold noise_stage, noise_line, noise_write, out_dir.
  same_gets H params params'. rewrite Hc. reflexivity.
Qed.

End Conditional.

(** The result for two parameter sets that differ from [params] at one
    key, which the geometry, the first three stages, the copies and the
    last stage do not read. *)
Lemma generate_but (params p1 p2 : gmap string string) (key : string) :
  (∀ k, k ≠ key → p1 !! k = params !! k) →
  (∀ k, k ≠ key → p2 !! k = params !! k) →
  key ∉ geometry_keys ++ reference_keys
        ++ ["mrpar"; "slcprof"; "mot"; "act1"; "act2"] ++ final_keys →
  file_cmds "b0f" p1 = file_cmds "b0f" p2 →
  (∀ g, pulse_stage p1 g = pulse_stage p2 g) →
  noise_stage p1 = noise_stage p2 →
  generate_shell_commands p1 = generate_shell_commands p2.
Proof.
  intros H1 H2 Hkey Hfield Hpulse Hnoise.
  rewrite !elem_of_app in Hkey.
  assert (Hsame : ∀ p (keys : list string), (∀ k, k ≠ key → p !! k = params !! k) →
                            (∀ k, k ∈ keys → k ≠ key) → same_on keys params p)
    by (intros p keys Hp Hk k Hin; apply Hp, Hk, Hin).
  assert (Hks : ∀ keys : list string, (∀ k, k ∈ keys → k ∈ geometry_keys ∨ k ∈ reference_keys
                           ∨ k ∈ ["mrpar"; "slcprof"; "mot"; "act1"; "act2"]
                           ∨ k ∈ final_keys) →
                        ∀ k, k ∈ keys → k ≠ key)
    by (intros keys Hin k Hk ->; apply Hkey, Hin, Hk).
  assert (Hall : ∀ p, (∀ k, k ≠ key → p !! k = params !! k) →
            compute_brain_ref p = compute_brain_ref params
            ∧ (∀ g, reference_cmds p g = reference_cmds params g)
            ∧ (∀ k, k ∈ ["mrpar"; "slcprof"; "mot"; "act1"; "act2"] →
                    file_cmds k p = file_cmds k params)
            ∧ final_cmds p = final_cmds params).
  { intros p Hp. repeat split.
    - apply compute_brain_ref_ext, Hsame, Hks; [exact Hp|]. tauto.
    - intros g. apply reference_cmds_ext, Hsame, Hks; [exact Hp|]. tauto.
    - intros k Hk. apply copy_cmds_ext; [exact Hk|].
      apply Hsame, Hks; [exact Hp|].
      intros k' Hk'. elems Hk'; [tauto|right; left; compute_done..].
    - apply final_cmds_ext, Hsame, Hks; [exact Hp|]. tauto. }
  destruct (Hall p1 H1) as (Hg1 & Hr1 & Hc1 & Hf1).
  destruct (Hall p2 H2) as (Hg2 & Hr2 & Hc2 & Hf2).
  rewrite !generate_shell_commands_staged, Hg1, Hg2.
  destruct (compute_brain_ref params) as [g|e]; [|reflexivity].
  cbn. f_equal. unfold staged, before_pulse.
  rewrite Hr1, Hr2, Hf1, Hf2, Hfield, Hpulse, Hnoise.
  rewrite (Hc1 "mrpar"), (Hc1 "slcprof"), (Hc1 "mot"), (Hc1 "act1"),
    (Hc1 "act2"), (Hc2 "mrpar"), (Hc2 "slcprof"), (Hc2 "mot"), (Hc2 "act1"),
    (Hc2 "act2") by compute_done.
  reflexivity.
Qed.

Ltac others := intros ? ?; apply lookup_insert_ne; congruence.
Ltac untouched :=
  eapply same_on_but; [apply insert_others | compute_done].
Ltac by_base lemma :=
  etrans; [apply lemma; untouched | symmetry; apply lemma; untouched].

(** X15. The units of the noise and of the field are read without regard
    to the case of their letters: two values with the same lower-case
    form give the same result. *)
Theorem units_are_read_without_case
    (params : gmap string string) (key u u' : string) :
  key ∈ ["noiseunits"; "b0units"] →
  Str.lower u = Str.lower u' →
  generate_shell_commands (<[key:=u]> params)
  = generate_shell_commands (<[key:=u']> params).
Proof.
  intros Hkey Hlower. elems Hkey.
  - apply (generate_but params _ _ "noiseunits");
      [others | others | compute_done |..].
    + by_base (file_cmds_ext params).
    + intros g. by_base (pulse_stage_ext params).
    + unfold noise_stage, noise_line, noise_write, out_dir.
      insert_gets. rewrite Hlower. reflexivity.
  - apply (generate_but params _ _ "b0units");
      [others | others | compute_done |..].
    + unfold file_cmds, field_cmds, field_in_ppm, flirt_cmd, fslroi_cmd,
        fslmaths_cmd, out_dir, fsl_dir.
      insert_gets. rewrite Hlower. reflexivity.
    + intros g. by_base (pulse_stage_ext params).
    + by_base (noise_stage_ext params).
Qed.

Ltac idle_pulse lemma Hc :=
  apply (generate_but _ _ _ _ (insert_others _ _ _) (λ _ _, eq_refl));
  [compute_done
  |apply file_cmds_ext; untouched
  |intros g; apply (lemma _ _ g Hc); untouched
  |apply noise_stage_ext; untouched].
Ltac idle_noise lemma Hc :=
  apply (generate_but _ _ _ _ (insert_others _ _ _) (λ _ _, eq_refl));
  [compute_done
  |apply file_cmds_ext; untouched
  |intros g; apply pulse_stage_ext; untouched
  |apply (lemma _ _ Hc); untouched].
Ltac idle_field lemma Hc :=
  apply (generate_but _ _ _ _ (insert_others _ _ _) (λ _ _, eq_refl));
  [compute_done
  |apply (lemma _ _ Hc); untouched
  |intros g; apply pulse_stage_ext; untouched
  |apply noise_stage_ext; untouched].

(** X16. The parameters of a stage that does not run and of a branch that
    is not taken are not read: for a standard sequence the custom pulse
    path; for a custom one the timing, gradient and direction parameters
    of the pulse command (the slice direction and the plane sizes are
    read by the geometry computation); but for an echo-planar sequence
    the repetition time of a slice; without noise its units and levels,
    with it the level of the other unit; without a field file, or with
    units other than ppm, the field strength. *)
Theorem idle_parameters_are_not_read
    (params : gmap string string) (key v : string) :
  key ∈ idle_keys params →
  generate_shell_commands (<[key:=v]> params) = generate_shell_commands params.
Proof.
  unfold idle_keys. rewrite !elem_of_app. intros [H|[H|[H|H]]].
  - destruct (is_standard params) eqn:Hc; elems H;
      [idle_pulse pulse_standard_ext Hc | idle_pulse pulse_custom_ext Hc..].
  - destruct (is_epi params) eqn:Hc; elems H.
    idle_pulse pulse_other_ext Hc.
  - destruct (noise_on params) eqn:Hc;
      [destruct (noise_in_snr params) eqn:Hu|]; elems H;
      [idle_noise noise_snr_ext Hu | idle_noise noise_sigma_ext Hu
      |idle_noise noise_off_ext Hc..].
  - destruct (Str.truthy (get params "b0f" "")) eqn:Hc;
      [destruct (field_in_ppm params) eqn:Hu|]; elems H;
      [idle_field field_other_units_ext Hu | idle_field field_absent_ext Hc..].
Qed.

(** ** The lines of a file *)

Lemma universal_newlines_no_cr (s : string) :
  Str.all (is_not CR) (universal_newlines s) = true.
Proof.
  assert (H : ∀ n s, (String.length s < n)%nat →
                     Str.all (is_not CR) (universal_newlines s) = true).
  { clear s. induction n as [|n IH]; intros s Hn; [lia|].
    destruct s as [|c s]; [reflexivity|].
    cbn [universal_newlines]. cbn [String.length] in Hn.
    destruct (Ascii.eqb c CR) eqn:Ec.
    - destruct s as [|c' s]; [reflexivity|]. cbn [String.length] in Hn.
      destruct (Ascii.eqb c' LF);
        change (Str.all (is_not CR) (String LF ?x))
          with (Str.all (is_not CR) x);
        apply IH; cbn [String.length]; lia.
    - cbn [Str.all]. unfold is_not at 1. rewrite Ec. apply IH. lia. }
  apply (H (S (String.length s))). lia.
Qed.

Lemma no_eol_intro (c : ascii) :
  Ascii.eqb c LF = false → is_not CR c = true → no_eol c = true.
Proof.
  unfold no_eol, is_not. intros -> H. exact H.
Qed.

(** A line of a text without carriage returns has no line feed but at
    its end. *)
Lemma split_lines_line (t l : string) :
  Str.all (is_not CR) t = true → l ∈ split_lines t →
  ∃ body, Str.all no_eol body = true ∧ (l = body ∨ l = body +:+ nl).
Proof.
  revert l. induction t as [|c t IH]; intros l Ht Hl; [inversion Hl|].
  cbn [Str.all] in Ht. apply andb_true_iff in Ht as [Hc Ht].
  cbn [split_lines] in Hl. destruct (Ascii.eqb c LF) eqn:Ec.
  - apply elem_of_cons in Hl as [->|Hl]; [|exact (IH l Ht Hl)].
    apply Ascii.eqb_eq in Ec as ->. exists "". split; [reflexivity|].
    right. reflexivity.
  - destruct (split_lines t) as [|l0 ls] eqn:Et.
    + apply elem_of_cons in Hl as [->|Hl]; [|inversion Hl].
      exists (String c ""). split; [|left; reflexivity].
      cbn. rewrite (no_eol_intro c Ec Hc). reflexivity.
    + apply elem_of_cons in Hl as [->|Hl].
      * destruct (IH l0 Ht) as (body & Hb & Hl0); [left|].
        exists (String c body). split.
        -- cbn. rewrite (no_eol_intro c Ec Hc). exact Hb.
        -- destruct Hl0 as [->| ->]; [left | right]; reflexivity.
      * apply (IH l Ht). right. exact Hl.
Qed.

Lemma readlines_line (text l : string) :
  l ∈ readlines text →
  ∃ body, Str.all no_eol body = true ∧ (l = body ∨ l = body +:+ nl).
Proof. apply split_lines_line, universal_newlines_no_cr. Qed.

(** What comes before a character of a line, other than the last one of
    a line with its line feed, has no end of line. *)
Lemma before_in_line (P : ascii → bool) (body x : string) c (r : string) :
  Str.all P body = true →
  body = x +:+ String c r ∨ body +:+ nl = x +:+ String c r →
  Str.all P x = true.
Proof.
  revert body. induction x as [|y x IH]; intros body Hb H; [reflexivity|].
  rewrite string_app_cons in H.
  destruct body as [|b body].
  - destruct H as [H|H]; [discriminate H|].
    injection H as _ H. destruct x; discriminate H.
  - cbn [Str.all] in Hb. apply andb_true_iff in Hb as [Hb1 Hb2].
    rewrite string_app_cons in H.
    assert (b = y ∧ (body = x +:+ String c r ∨ body +:+ nl = x +:+ String c r))
      as [-> H'].
    { destruct H as [H|H]; injection H as -> H; auto. }
    cbn [Str.all]. rewrite Hb1. exact (IH body Hb2 H').
Qed.

Lemma line_binding_no_eol (text line key value : string) :
  line ∈ readlines text → line_binding line = Some (key, value) →
  Str.all no_eol key = true ∧ Str.all no_eol value = true.
Proof.
  intros Hl Hb.
  destruct (readlines_line text line Hl) as (body & Hbody & Hline).
  destruct (line_binding_spec line)
    as [[Hn _]|(pre & k & ws & v & post & Heq & _ & _ & Hb')].
  - rewrite Hn in Hb. discriminate Hb.
  - rewrite Hb' in Hb. injection Hb as <- <-.
    assert (Hx : Str.all no_eol
                   (pre +:+ "set entries($w," +:+ k +:+ ")" +:+ ws +:+ dq
                        +:+ v) = true).
    { apply (before_in_line no_eol body _ (ascii_of_nat 34) post Hbody).
      assert (Ha : assignment pre k ws v post
                   = (pre +:+ "set entries($w," +:+ k +:+ ")" +:+ ws +:+ dq
                          +:+ v) +:+ String (ascii_of_nat 34) post)
        by (unfold assignment, dq; rewrite !string_app_assoc; reflexivity).
      rewrite <- Ha, <- Heq.
      destruct Hline as [<-| <-]; [left | right]; reflexivity. }
    rewrite !all_app, !andb_true_iff in Hx.
    destruct Hx as (_ & _ & Hk & _ & _ & _ & Hv).
    split; apply all_strip; assumption.
Qed.

Lemma line_values_no_eol (text key value : string) :
  parse_fsf (readlines text) !! key = Some value →
  Str.all no_eol key = true ∧ Str.all no_eol value = true.
Proof.
  unfold parse_fsf. rewrite lookup_parse_lines, lookup_empty.
  intros [H|(line & Hin & Hb)]%rebind_Some; [discriminate H|].
  exact (line_binding_no_eol text line key value Hin Hb).
Qed.

(** X17. No key and no value read from a file has a line feed or a
    carriage return. *)
Theorem parsed_entries_have_no_line_break (text key value : string) :
  parse_fsf (readlines text) !! key = Some value →
  Str.all no_eol key = true ∧ Str.all no_eol value = true.
Proof. exact (line_values_no_eol text key value). Qed.

(** ** The characters of the commands *)

Lemma geometry_texts (params : gmap string string) (g : brain_ref) :
  compute_brain_ref params = Ok g →
  extent g = get params "inNt" "1" ∧ pixdim4 g = get params "inNt" "1".
Proof.
  intros H. unfold compute_brain_ref in H. bind_inv H.
  destruct x18 as [[[[[nd1 nd2] nd3] np1] np2] np3].
  injection H as <-. split; reflexivity.
Qed.

Lemma all_app_intro (P : ascii → bool) (a b : string) :
  Str.all P a = true → Str.all P b = true → Str.all P (a +:+ b) = true.
Proof. intros Ha Hb. rewrite all_app, Ha, Hb. reflexivity. Qed.

Section Commands.
Variable P : ascii → bool.
Variable params : gmap string string.
Hypothesis template : ∀ c, template_char c = true → P c = true.
Hypothesis values : ∀ k v, params !! k = Some v → Str.all P v = true.

Lemma literal_P (s : string) :
  Str.all template_char s = true → Str.all P s = true.
Proof. apply all_impl, template. Qed.

Lemma number_chars_P : Str.all P "0123456789.e+-infa" = true.
Proof. apply literal_P. reflexivity. Qed.

Lemma get_P (k d : string) :
  Str.all P d = true → Str.all P (get params k d) = true.
Proof.
  intros Hd. unfold get. destruct (params !! k) as [v|] eqn:E; [|exact Hd].
  exact (values k v E).
Qed.

Ltac P_pieces :=
  lazymatch goal with
  | |- Str.all _ (_ +:+ _) = true => apply all_app_intro; P_pieces
  | |- Str.all _ (get _ _ _) = true => apply get_P; P_pieces
  | |- Str.all _ (Repr.repr _) = true => apply (repr_all P number_chars_P)
  | |- Str.all _ (fmt _) = true => apply (fmt_all P number_chars_P)
  | |- Str.all _ (if ?b then _ else _) = true => destruct b; P_pieces
  | |- _ => apply literal_P; reflexivity
  end.

Lemma reference_cmds_P (g : brain_ref) (c : string) :
  compute_brain_ref params = Ok g →
  c ∈ reference_cmds params g → Str.all P c = true.
Proof.
  intros Hg. destruct (geometry_texts params g Hg) as [Hnt Hp4].
  destruct g as [[[[[[[d1 d2] d3] nt] p1] p2] p3] p4].
  cbn in Hnt, Hp4. subst nt p4.
  unfold reference_cmds, out_dir, fsl_dir. intros H. elems H; P_pieces.
Qed.

Lemma file_cmds_P (key c : string) :
  c ∈ file_cmds key params → Str.all P c = true.
Proof.
  unfold file_cmds, field_cmds, copy_cmd, flirt_cmd, fslroi_cmd, fslmaths_cmd,
    out_dir, fsl_dir.
  intros H. destruct (negb _); [elems H|].
  repeat (destruct (Str.eqb key _);
          [first [apply elem_of_app in H as [H|H];
                  [|destruct (field_in_ppm params)] | idtac];
           elems H; P_pieces|]).
  elems H.
Qed.

Lemma pulse_stage_P (g : brain_ref) (c : string) :
  c ∈ pulse_stage params g → Str.all P c = true.
Proof.
  unfold pulse_stage, pulse_command, pulse_head, pulse_trslc, pulse_tail,
    log_redirect, pulse_copies, pulse_exts, possum_dir, out_dir, fsl_dir.
  cbn [map]. intros H.
  destruct (is_standard params); [|destruct (Str.truthy _)];
    elems H; P_pieces.
Qed.

Lemma noise_stage_P (c : string) :
  c ∈ noise_stage params → Str.all P c = true.
Proof.
  unfold noise_stage, noise_write, noise_line, out_dir, dq. intros H.
  destruct (Str.eqb _ "1"); elems H. P_pieces.
Qed.

Lemma final_cmds_P (c : string) :
  c ∈ final_cmds params → Str.all P c = true.
Proof.
  unfold final_cmds, possum_dir, out_dir, fsl_dir. intros H.
  elems H; P_pieces.
Qed.

Lemma commands_P (cmds : list string) (c : string) :
  generate_shell_commands params = Ok cmds → c ∈ cmds → Str.all P c = true.
Proof.
  rewrite generate_shell_commands_staged. intros H.
  destruct (compute_brain_ref params) as [g|e] eqn:Hg; [|discriminate].
  injection H as <-. unfold staged, before_pulse. rewrite !elem_of_app.
  intros [H|H].
  - repeat (destruct H as [H|H];
            [first [ exact (reference_cmds_P g c Hg H)
                   | exact (file_cmds_P _ c H) ]|]).
    exact (file_cmds_P _ c H).
  - repeat (destruct H as [H|H];
            [first [ exact (pulse_stage_P g c H)
                   | exact (noise_stage_P c H) ]|]).
    exact (final_cmds_P c H).
Qed.

End Commands.

(** X18. Every character of a command is a character of a parameter
    value or one of the characters of the script's own texts (letters,
    digits, the double quote, the space and the marks of
    [template_marks]): a class of characters that has these and holds
    for the values holds for the commands, the numbers written out
    included. *)
Theorem command_characters (P : ascii → bool) (params : gmap string string)
    (cmds : list string) (c : string) :
  (∀ x, template_char x = true → P x = true) →
  (∀ k v, params !! k = Some v → Str.all P v = true) →
  generate_shell_commands params = Ok cmds →
  c ∈ cmds → Str.all P c = true.
Proof. intros Ht Hv. exact (commands_P P params Ht Hv cmds c). Qed.

(** ** The script *)

Lemma split_lines_nil (s : string) : split_lines s = [] → s = "".
Proof.
  destruct s as [|c s]; [reflexivity|]. cbn [split_lines].
  destruct (Ascii.eqb c LF); [discriminate|].
  destruct (split_lines s); discriminate.
Qed.

Lemma split_lines_app (a b : string) :
  split_lines ((a +:+ nl) +:+ b) = split_lines (a +:+ nl) ++ split_lines b.
Proof.
  induction a as [|c a IH]; [reflexivity|].
  rewrite !string_app_cons. cbn [split_lines].
  destruct (Ascii.eqb c LF); [rewrite IH; reflexivity|].
  rewrite IH. destruct (split_lines (a +:+ nl)) as [|l ls] eqn:E;
    [|reflexivity].
  apply split_lines_nil in E. destruct a; discriminate E.
Qed.

Lemma split_lines_one (c : string) :
  Str.all no_eol c = true → split_lines (c +:+ nl) = [c +:+ nl].
Proof.
  induction c as [|x c IH]; [reflexivity|]. cbn [Str.all].
  intros [Hx Hc]%andb_true_iff. rewrite string_app_cons. cbn [split_lines].
  unfold no_eol in Hx. apply andb_true_iff in Hx as [Hx _].
  apply negb_true_iff in Hx. rewrite Hx, (IH Hc). reflexivity.
Qed.

Lemma universal_newlines_id (s : string) :
  Str.all (is_not CR) s = true → universal_newlines s = s.
Proof.
  induction s as [|c s IH]; [reflexivity|]. cbn [Str.all].
  intros [Hc Hs]%andb_true_iff. cbn [universal_newlines].
  unfold is_not in Hc. apply negb_true_iff in Hc. rewrite Hc, (IH Hs).
  reflexivity.
Qed.

Lemma no_eol_no_cr (s : string) :
  Str.all no_eol s = true → Str.all (is_not CR) s = true.
Proof.
  apply all_impl. intros c [_ H]%andb_true_iff. exact H.
Qed.

Lemma written_lines (cmds : list string) (acc : string) :
  (∀ c, c ∈ cmds → Str.all no_eol c = true) →
  Str.all (is_not CR) (acc +:+ nl) = true →
  let text := fold_left (fun text cmd => text +:+ (cmd +:+ nl)) cmds (acc +:+ nl)
  in Str.all (is_not CR) text = true
     ∧ split_lines text
       = split_lines (acc +:+ nl) ++ map (fun c => c +:+ nl) cmds.
Proof.
  revert acc. induction cmds as [|c cmds IH]; intros acc Hcmds Hacc.
  - cbn. split; [exact Hacc | rewrite app_nil_r; reflexivity].
  - cbn [fold_left map].
    assert (Hc : Str.all no_eol c = true) by (apply Hcmds; left).
    rewrite <- string_app_assoc.
    destruct (IH ((acc +:+ nl) +:+ c)) as [H1 H2].
    + intros c' Hc'. apply Hcmds. right. exact Hc'.
    + rewrite all_app in Hacc. rewrite !all_app.
      apply andb_true_iff in Hacc as [Ha Hn].
      rewrite Ha, Hn, (no_eol_no_cr c Hc). reflexivity.
    + split; [exact H1|]. rewrite H2.
      rewrite string_app_assoc, split_lines_app, (split_lines_one c Hc).
      rewrite <- app_assoc. reflexivity.
Qed.

Lemma script_layout (cmds : list string) :
  (∀ c, c ∈ cmds → Str.all no_eol c = true) →
  readlines (script cmds)
  = ("#!/bin/sh" +:+ nl) :: nl :: map (fun c => c +:+ nl) cmds.
Proof.
  intros H. unfold readlines, script.
  destruct (written_lines cmds ("#!/bin/sh" +:+ nl) H eq_refl) as [H1 H2].
  cbn zeta in H1, H2.
  change ("#!/bin/sh" +:+ nl +:+ nl) with (("#!/bin/sh" +:+ nl) +:+ nl).
  rewrite (universal_newlines_id _ H1), H2. reflexivity.
Qed.

(** X19. The script written for commands without a line feed or a
    carriage return has, read back, the line of the interpreter, an empty
    line and one line for each command, in order. *)
Theorem script_lines (cmds : list string) :
  (∀ c, c ∈ cmds → Str.all no_eol c = true) →
  readlines (script cmds)
  = ("#!/bin/sh" +:+ nl) :: nl :: map (fun c => c +:+ nl) cmds.
Proof. exact (script_layout cmds). Qed.

(** ** A setup file written and read *)

Lemma readlines_fsf_text (es : list (string * string)) :
  Forall (fun kv => Str.all no_eol kv.1 = true ∧ Str.all no_eol kv.2 = true) es →
  Str.all (is_not CR) (fsf_text es) = true
  ∧ split_lines (fsf_text es) = fsf_line <$> es.
Proof.
  induction 1 as [|[k v] es [Hk Hv] _ [IH1 IH2]]; [split; reflexivity|].
  cbn [fst snd] in Hk, Hv. cbn [fsf_text foldr fmap list_fmap].
  fold (fsf_text es).
  assert (Hbody : Str.all no_eol
                    ("set entries($w," +:+ k +:+ ") " +:+ dq +:+ v +:+ dq)
                  = true)
    by (rewrite !all_app, Hk, Hv; reflexivity).
  assert (Hline : fsf_line (k, v)
                  = ("set entries($w," +:+ k +:+ ") " +:+ dq +:+ v +:+ dq)
                    +:+ nl)
    by (unfold fsf_line; cbn [fst snd]; rewrite !string_app_assoc; reflexivity).
  rewrite Hline. split.
  - apply all_app_intro; [apply all_app_intro|exact IH1];
      [exact (no_eol_no_cr _ Hbody) | reflexivity].
  - rewrite split_lines_app, (split_lines_one _ Hbody), IH2. reflexivity.
Qed.

(** X5. Round trip through a file: a parameter set written out as a
    text with one line [set entries($w,KEY) "VALUE"] for each key, and
    this text read line by line and parsed, gives the parameter set
    back, provided its keys and values are stripped and have no line
    feed or carriage return, its keys have no closing parenthesis and
    its values no double quote. *)
Theorem parse_fsf_reads_back (params : gmap string string) :
  (∀ key value, params !! key = Some value →
                clean (key, value)
                ∧ Str.all no_eol key = true ∧ Str.all no_eol value = true) →
  parse_fsf (readlines (fsf_text (map_to_list params))) = params.
Proof.
  intros H.
  destruct (readlines_fsf_text (map_to_list params)) as [H1 H2].
  { apply Forall_forall. intros [k v] Hin.
    apply elem_of_map_to_list, H in Hin. exact (proj2 Hin). }
  unfold readlines. rewrite (universal_newlines_id _ H1), H2.
  apply parse_fsf_lines_back. intros key value Hkv.
  exact (proj1 (H key value Hkv)).
Qed.

(** ** [main] *)



(** ** The output sizes *)

Lemma get_insert_fun (params : gmap string string) (k v : string) :
  get (<[k:=v]> params) k = fun _ => v.
Proof. unfold get. rewrite lookup_insert_eq. reflexivity. Qed.

Ltac same_step :=
  lazymatch goal with
  | |- mbind _ ?r = mbind _ ?r =>
      destruct r eqn:?; [cbn [mbind result_bind] | reflexivity]
  end.

Lemma out_dim_reads (params : gmap string string) (key s : string) (i : Z) :
  Conv.str_of_int i = Ok s →
  params !! key = None ∨ (∃ v n, params !! key = Some v ∧ Conv.int_of_str v = Ok n) →
  ∃ n, Conv.int_of_str (get params key s) = Ok n.
Proof.
  unfold get. intros Hs [->|(v & n & -> & Hn)].
  - exists i. exact (str_of_int_reads_back i s Hs).
  - exists n. exact Hn.
Qed.

(** X22. The output sizes take no part in the geometry: an output size
    that is missing or reads as an int can be set to any text that reads
    as an int (of at most 4300 digits, then), and the geometry
    computation gives the same result or the same exception. *)
Theorem output_size_is_only_checked
    (params : gmap string string) (a : axis) (v : string) (n : Z) :
  params !! out_dim_key a = None
  ∨ (∃ v0 n0, params !! out_dim_key a = Some v0 ∧ Conv.int_of_str v0 = Ok n0) →
  Conv.int_of_str v = Ok n →
  compute_brain_ref (<[out_dim_key a := v]> params) = compute_brain_ref params.
Proof.
  intros Hold Hnew. unfold compute_brain_ref.
  destruct a; cbn [out_dim_key] in Hold |- *;
    rewrite get_insert_fun; insert_gets; cbn beta; rewrite Hnew;
    repeat same_step;
    match goal with
    | Hs : Conv.str_of_int ?i = Ok ?sx
      |- _ = mbind _ (Conv.int_of_str (get params ?key ?sx)) =>
        destruct (out_dim_reads params key sx i Hs Hold) as [m ->]
    end;
    reflexivity.
Qed.

(** ** The keys with two defaults *)

Ltac union_gets D :=
  repeat match goal with
    | |- context [get (?p ∪ D) ?k ?d] =>
        rewrite (get_union_default p D k d) by reflexivity
    | |- context [get (?p ∪ D) ?k] =>
        rewrite (get_union_none p D k) by reflexivity
    end.

(** X23. The sizes of the plane have two defaults: when an output voxel
    size in the plane is missing, the geometry computation takes 1 for
    it and the pulse command is given 4.0; a missing output size is its
    input dimension for the geometry computation, which does not use it,
    and 64, 64 and 1 in the pulse command. *)
Theorem plane_sizes_have_two_defaults (params : gmap string string) :
  generate_shell_commands params
  = (g ← compute_brain_ref (params ∪ geometry_voxel_defaults);
     Ok (staged (params ∪ pulse_plane_defaults) g)).
Proof.
  rewrite generate_shell_commands_staged.
  assert (Hg : compute_brain_ref (params ∪ geometry_voxel_defaults)
               = compute_brain_ref params).
  { unfold compute_brain_ref. union_gets geometry_voxel_defaults.
    reflexivity. }
  rewrite Hg. destruct (compute_brain_ref params) as [g|e]; [|reflexivity].
  cbn [mbind result_bind]. f_equal.
  unfold staged, before_pulse.
  rewrite (reference_cmds_ext params (params ∪ pulse_plane_defaults)),
    !(file_cmds_ext params (params ∪ pulse_plane_defaults)),
    (noise_stage_ext params (params ∪ pulse_plane_defaults)),
    (final_cmds_ext params (params ∪ pulse_plane_defaults)).
  2-10: intros k Hk; rewrite lookup_union;
        replace (pulse_plane_defaults !! k) with (@None string)
          by (elems Hk; reflexivity);
        destruct (params !! k); reflexivity.
  assert (Hp : pulse_stage (params ∪ pulse_plane_defaults) g
               = pulse_stage params g).
  { unfold pulse_stage, pulse_command, pulse_head, pulse_trslc, pulse_tail,
      log_redirect, pulse_copies, is_standard, is_epi, is_ge, possum_dir,
      out_dir, fsl_dir.
    union_gets pulse_plane_defaults. reflexivity. }
  rewrite Hp. reflexivity.
Qed.

(** * The further properties on the examples *)

Example setup_file_commands :
  readlines setup_text
  = [ te_early +:+ nl; "# POSSUM" +:+ nl; tr_line +:+ nl;
      "set entries($w,out) " +:+ dq +:+ " /tmp/sim " +:+ dq ]
  ∧ parse_fsf (readlines setup_text)
    = list_to_map [("te", "0.03"); ("tr", "3"); ("out", "/tmp/sim")]
  ∧ generate_shell_commands (parse_fsf (readlines setup_text)) = Ok setup_cmds
  ∧ setup_cmds =
    [ "mkdir -p /tmp/sim";
      "/usr/local/fsl/bin/fslcreatehd 0.0 0.0 0 1 1.0 1.0 1.0 1 0 0 0 16 /tmp/sim/brainref";
      "/usr/local/fsl/bin/flirt -in  -ref /tmp/sim/brainref -applyxfm -out /tmp/sim/brain";
      "/usr/local/fsl/bin/pulse -i /tmp/sim/brain -o /tmp/sim/pulse --seq=epi --te=0.03 --tr=3 --trslc=0.12 --nx=64 --ny=64 --numslc=1 --dx=4.0 --dy=4.0 --slcthk=1.0 --numvol=1 --zstart=0 --bw=100000 --readdir=x+ --phasedir=y+ --slcdir=z+ --maxG=0.055 --riset=0.00022 -v >> /tmp/sim/possum.log 2>&1";
      "/usr/local/fsl/bin/possumX /tmp/sim -n 1 -t 0 -s 10000 >> /tmp/sim/possum.log 2>&1";
      "echo 'POSSUM setup file generated.' > /tmp/sim/possum.fsf" ].
Proof. repeat split; vm_compute; reflexivity. Qed.

(** X3 on two lines. *)
Lemma parsed_entries_are_clean_witness :
  parse_fsf [te_late; tr_line] !! "te" = Some "0.05"
  ∧ Str.strip "te" = "te" ∧ Str.strip "0.05" = "0.05"
  ∧ starts_clean "te" = true ∧ starts_clean "0.05" = true
  ∧ (∀ r c, "te" = r +:+ String c "" → Str.isspace c = false)
  ∧ (∀ r c, "0.05" = r +:+ String c "" → Str.isspace c = false)
  ∧ Str.all (is_not ")"%char) "te" = true
  ∧ Str.all (is_not (ascii_of_nat 34)) "0.05" = true.
Proof.
  assert (H : parse_fsf [te_late; tr_line] !! "te" = Some "0.05")
    by (vm_compute; reflexivity).
  split; [exact H|].
  exact (parsed_entries_are_clean [te_late; tr_line] "te" "0.05" H).
Defined.

(** X4 on a comment. *)
Lemma line_without_assignment_is_ignored_witness :
  Str.contains "set entries($w," "# POSSUM setup file" = false
  ∧ parse_line study "# POSSUM setup file" = study.
Proof.
  split; [vm_compute; reflexivity|].
  apply (line_without_assignment_is_ignored study "# POSSUM setup file").
  vm_compute. reflexivity.
Defined.

(** X5 on a parameter set with two keys. *)
Lemma parse_fsf_reads_back_witness :
  (∀ key value, params_x !! key = Some value →
                clean (key, value)
                ∧ Str.all no_eol key = true ∧ Str.all no_eol value = true)
  ∧ parse_fsf (readlines (fsf_text (map_to_list params_x))) = params_x.
Proof.
  assert (H : ∀ key value, params_x !! key = Some value →
                clean (key, value)
                ∧ Str.all no_eol key = true ∧ Str.all no_eol value = true).
  { intros key value.
    change params_x
      with (<["slcselect" := "x"]> ({["outsize_dx" := "2"]} : gmap string string)).
    intros [[<- <-]|[_ [<- <-]%lookup_singleton_Some]]%lookup_insert_Some;
      vm_compute; repeat split. }
  split; [exact H|]. exact (parse_fsf_reads_back params_x H).
Defined.

(** X6 on the text 64. *)
Lemma default_output_size_converts_witness :
  Conv.float_of_str "64" = Ok f64 ∧ Num.trunc f64 = Ok 64
  ∧ ∃ s, Conv.str_of_int 64 = Ok s ∧ Conv.int_of_str s = Ok 64.
Proof.
  assert (H1 : Conv.float_of_str "64" = Ok f64) by (vm_compute; reflexivity).
  assert (H2 : Num.trunc f64 = Ok 64) by (vm_compute; reflexivity).
  split; [exact H1|]. split; [exact H2|].
  exact (default_output_size_converts "64" f64 64 H1 H2).
Defined.

(** X7 on the scenario. *)
Lemma compute_brain_ref_returns_witness :
  let inN := fun a => match a with AxisZ => f30 | _ => f64 end in
  let vc := fun _ : axis => f3 in
  let outd := fun a => match a with AxisZ => f4 | _ => f3 end in
  converts scenario inN vc outd f1
  ∧ Num.div (outd (selected_axis scenario)) f1 = Ok f4
  ∧ Num.div (Num.mul (inN (selected_axis scenario)) (vc (selected_axis scenario)))
            f4 = Ok f22_5
  ∧ Num.round f22_5 = Ok 22
  ∧ ∃ g, compute_brain_ref scenario = Ok g
         ∧ dim g (selected_axis scenario) = Int 22
         ∧ pixdim g (selected_axis scenario) = f4
         ∧ (∀ a, a ≠ selected_axis scenario →
                 dim g a = Float (inN a) ∧ pixdim g a = vc a)
         ∧ extent g = get scenario "inNt" "1"
         ∧ pixdim4 g = get scenario "inNt" "1".
Proof.
  intros inN vc outd.
  assert (Hc : converts scenario inN vc outd f1).
  { repeat split; try (intros []; vm_compute; reflexivity);
      try (vm_compute; reflexivity).
    intros [] v Hv; vm_compute in Hv; injection Hv as <-;
      eexists; vm_compute; reflexivity. }
  assert (H1 : Num.div (outd (selected_axis scenario)) f1 = Ok f4)
    by (vm_compute; reflexivity).
  assert (H2 : Num.div (Num.mul (inN (selected_axis scenario))
                                (vc (selected_axis scenario))) f4 = Ok f22_5)
    by (vm_compute; reflexivity).
  assert (H3 : Num.round f22_5 = Ok 22) by (vm_compute; reflexivity).
  split; [exact Hc|]. split; [exact H1|]. split; [exact H2|].
  split; [exact H3|].
  exact (compute_brain_ref_returns scenario inN vc outd f1 f4 f22_5 22
           Hc H1 H2 H3).
Defined.

(** X8 on a sampling factor of zero. *)
Lemma compute_brain_ref_zero_division_witness :
  let zero := S754_zero false in
  converts no_sampling (fun _ => zero) (fun _ => f1) (fun _ => f1) zero
  ∧ (is_zero zero = true
     ∨ ∃ newpix, Num.div f1 zero = Ok newpix ∧ is_zero newpix = true)
  ∧ compute_brain_ref no_sampling = Raise ZeroDivisionError.
Proof.
  intros zero.
  assert (Hc : converts no_sampling (fun _ => zero) (fun _ => f1)
                        (fun _ => f1) zero).
  { repeat split; try (intros []; vm_compute; reflexivity);
      try (vm_compute; reflexivity).
    intros [] v Hv; vm_compute in Hv; discriminate Hv. }
  split; [exact Hc|]. split; [left; reflexivity|].
  apply (compute_brain_ref_zero_division no_sampling _ _ _ zero Hc).
  left. reflexivity.
Defined.

(** X9 on an input dimension without end. *)
Lemma compute_brain_ref_rejects_witness :
  ((∃ x, Conv.float_of_str (get endless (in_dim_key AxisX) "0") = Ok x
         ∧ not_finite x = true)
   ∨ (∃ v e, endless !! out_dim_key AxisX = Some v
             ∧ Conv.int_of_str v = Raise e))
  ∧ ∀ g, compute_brain_ref endless ≠ Ok g.
Proof.
  assert (H : (∃ x, Conv.float_of_str (get endless (in_dim_key AxisX) "0") = Ok x
                    ∧ not_finite x = true)
              ∨ (∃ v e, endless !! out_dim_key AxisX = Some v
                        ∧ Conv.int_of_str v = Raise e)).
  { left. exists (S754_infinity false). split; vm_compute; reflexivity. }
  split; [exact H|]. exact (compute_brain_ref_rejects endless AxisX H).
Defined.

(** X11 on the study. *)
Lemma command_sequence_frame_witness :
  generate_shell_commands study = Ok study_cmds
  ∧ ∃ g middle,
      compute_brain_ref study = Ok g
      ∧ study_cmds = reference_cmds study g ++ middle ++ final_cmds study
      ∧ head study_cmds = Some ("mkdir -p " +:+ get study "out" "./simdir")
      ∧ last study_cmds
        = Some ("echo 'POSSUM setup file generated.' > "
                  +:+ get study "out" "./simdir" +:+ "/possum.fsf")
      ∧ length middle = middle_count study
      ∧ (5 <= length study_cmds <= 21)%nat.
Proof.
  assert (H : generate_shell_commands study = Ok study_cmds)
    by (vm_compute; reflexivity).
  split; [exact H|]. exact (command_sequence_frame study study_cmds H).
Defined.

(** X12 on the study with a key that the script does not read. *)
Lemma only_read_keys_matter_witness :
  same_on read_keys study (<["comment" := "first run"]> study)
  ∧ generate_shell_commands (<["comment" := "first run"]> study)
    = generate_shell_commands study.
Proof.
  assert (H : same_on read_keys study (<["comment" := "first run"]> study)).
  { apply (same_on_but _ _ _ "comment"); [apply insert_others | compute_done]. }
  split; [exact H|].
  exact (only_read_keys_matter study (<["comment" := "first run"]> study) H).
Defined.

(** X14 on the study. *)
Lemma possumdir_falls_back_to_fsldir_witness :
  study !! "POSSUMDIR" = None
  ∧ generate_shell_commands
      (<["POSSUMDIR" := get study "FSLDIR" "/usr/local/fsl"]> study)
    = generate_shell_commands study.
Proof.
  assert (H : study !! "POSSUMDIR" = None) by (vm_compute; reflexivity).
  split; [exact H|]. exact (possumdir_falls_back_to_fsldir study H).
Defined.

(** X15 on the units of the noise. *)
Lemma units_are_read_without_case_witness :
  "noiseunits" ∈ ["noiseunits"; "b0units"]
  ∧ Str.lower "SNR" = Str.lower "Snr"
  ∧ generate_shell_commands (<["noiseunits" := "SNR"]> study)
    = generate_shell_commands (<["noiseunits" := "Snr"]> study).
Proof.
  assert (H1 : "noiseunits" ∈ ["noiseunits"; "b0units"]) by compute_done.
  assert (H2 : Str.lower "SNR" = Str.lower "Snr") by (vm_compute; reflexivity).
  split; [exact H1|]. split; [exact H2|].
  exact (units_are_read_without_case study "noiseunits" "SNR" "Snr" H1 H2).
Defined.

(** X16 on the study, whose sequence is a standard one. *)
Lemma idle_parameters_are_not_read_witness :
  "cuspulse" ∈ idle_keys study
  ∧ generate_shell_commands (<["cuspulse" := "/data/mypulse"]> study)
    = generate_shell_commands study.
Proof.
  assert (H : "cuspulse" ∈ idle_keys study) by compute_done.
  split; [exact H|].
  exact (idle_parameters_are_not_read study "cuspulse" "/data/mypulse" H).
Defined.

(** X17 on the setup file. *)
Lemma parsed_entries_have_no_line_break_witness :
  parse_fsf (readlines setup_text) !! "te" = Some "0.03"
  ∧ Str.all no_eol "te" = true ∧ Str.all no_eol "0.03" = true.
Proof.
  assert (H : parse_fsf (readlines setup_text) !! "te" = Some "0.03")
    by (vm_compute; reflexivity).
  split; [exact H|].
  exact (parsed_entries_have_no_line_break setup_text "te" "0.03" H).
Defined.

Lemma semicolon_not_template (x : ascii) :
  template_char x = true → is_not ";" x = true.
Proof.
  destruct x as [[] [] [] [] [] [] [] []]; intros H;
    first [reflexivity | discriminate H].
Qed.

(** X18 on the study: no command has a semicolon. *)
Lemma command_characters_witness :
  (∀ x, template_char x = true → is_not ";" x = true)
  ∧ (∀ k v, study !! k = Some v → Str.all (is_not ";") v = true)
  ∧ generate_shell_commands study = Ok study_cmds
  ∧ "mkdir -p ./simdir" ∈ study_cmds
  ∧ Str.all (is_not ";") "mkdir -p ./simdir" = true.
Proof.
  assert (H1 : ∀ k v, study !! k = Some v → Str.all (is_not ";") v = true).
  { change (map_Forall (fun _ v => Str.all (is_not ";") v = true) study).
    compute_done. }
  assert (H2 : generate_shell_commands study = Ok study_cmds)
    by (vm_compute; reflexivity).
  assert (H3 : "mkdir -p ./simdir" ∈ study_cmds) by (left).
  split; [exact semicolon_not_template|]. split; [exact H1|].
  split; [exact H2|]. split; [exact H3|].
  exact (command_characters (is_not ";") study study_cmds "mkdir -p ./simdir"
           semicolon_not_template H1 H2 H3).
Defined.

(** X19 on the commands of the setup file. *)
Lemma script_lines_witness :
  (∀ c, c ∈ setup_cmds → Str.all no_eol c = true)
  ∧ readlines (script setup_cmds)
    = ("#!/bin/sh" +:+ nl) :: nl :: map (fun c => c +:+ nl) setup_cmds.
Proof.
  assert (H : ∀ c, c ∈ setup_cmds → Str.all no_eol c = true).
  { intros c Hc. unfold setup_cmds in Hc. elems Hc; vm_compute; reflexivity. }
  split; [exact H|]. exact (script_lines setup_cmds H).
Defined.


(** X22 on the scenario. *)
Lemma output_size_is_only_checked_witness :
  (scenario !! out_dim_key AxisX = None
   ∨ (∃ v0 n0, scenario !! out_dim_key AxisX = Some v0
               ∧ Conv.int_of_str v0 = Ok n0))
  ∧ Conv.int_of_str "128" = Ok 128
  ∧ compute_brain_ref (<[out_dim_key AxisX := "128"]> scenario)
    = compute_brain_ref scenario.
Proof.
  assert (H1 : scenario !! out_dim_key AxisX = None
               ∨ (∃ v0 n0, scenario !! out_dim_key AxisX = Some v0
                           ∧ Conv.int_of_str v0 = Ok n0)).
  { right. exists "64", 64. split; vm_compute; reflexivity. }
  assert (H2 : Conv.int_of_str "128" = Ok 128) by (vm_compute; reflexivity).
  split; [exact H1|]. split; [exact H2|].
  exact (output_size_is_only_checked scenario AxisX "128" 128 H1 H2).
Defined.

(** The two defaults of a voxel size of the plane, seen: with the
    default of the geometry computation written in, the pulse command is
    another one. *)
Example two_defaults_seen :
  generate_shell_commands (∅ ∪ geometry_voxel_defaults)
  ≠ generate_shell_commands ∅.
Proof. vm_compute. discriminate. Qed.

Example main_outcomes :
  (main bad_disk "bad.fsf" "run.sh").2 = Failed ValueError
  ∧ (main bad_disk "study.fsf" "run.sh").2 = NoSuchFile
  ∧ (main disk "study.fsf" "study.fsf").1
    = {[ "study.fsf" := script setup_cmds ]}.
Proof. repeat split; vm_compute; reflexivity. Qed.
